(** * ApnaCriminal: the match-and-alert core

    A shallow embedding of the face matching, detection and alert
    throttling code of [backend/detector.py], [backend/faces.py] and
    [backend/backend_adapter.py], with the properties of the design
    document checked against it.

    Conventions of the embedding:
    - NumPy [float32] values are IEEE binary32 numbers ([spec_float] with
      precision 24 and maximal exponent 128); Python floats are binary64.
      Reductions ([dot], [norm]) run left to right.
    - Wall-clock times ([time.time()]) and box coordinates coming from the
      neural detector are exact rationals.
    - A Python call that may raise is a computation [Py A]: its outcome is
      a value or an exception, together with the list of observable events
      it performed.
    - Module-level globals are explicit state passed in and out. *)

From Stdlib Require Import ZArith QArith Qround Lqa Floats.SpecFloat.
From stdpp Require Import gmap strings list.

Local Open Scope Z_scope.

(** ** Python computations: exceptions and an event log *)

Module Py.

Inductive exn := ValueError | TypeError | IndexError.

Inductive result (A : Type) :=
| Ok (a : A)
| Raise (e : exn).
Arguments Ok {A} a.
Arguments Raise {A} e.

(** What an observer of the pipeline can see a call do. *)
Inductive event :=
| EvMatchEmbedding (face : nat)  (* detector.match_embedding called for a face *)
| EvSimilarity (rows : nat).     (* [stack @ emb] evaluated on [rows] rows *)

Definition Py (A : Type) : Type := result A * list event.

Definition ret {A} (a : A) : Py A := (Ok a, []).
Definition raise {A} (e : exn) : Py A := (Raise e, []).
Definition tell (ev : event) : Py unit := (Ok tt, [ev]).

Definition bind {A B} (m : Py A) (k : A -> Py B) : Py B :=
  match m with
  | (Ok a, l) => let '(r, l') := k a in (r, l ++ l')
  | (Raise e, l) => (Raise e, l)
  end.

(** [try: m  except Exception: h] *)
Definition try_except {A} (m : Py A) (h : A) : Py A :=
  match m with
  | (Ok a, l) => (Ok a, l)
  | (Raise _, l) => (Ok h, l)
  end.

Definition outcome {A} (m : Py A) : result A := fst m.
Definition events {A} (m : Py A) : list event := snd m.

End Py.

Import Py.

Declare Scope py_scope.
Delimit Scope py_scope with py.
Notation "'let*' x ':=' m 'in' k" := (bind m (fun x => k))
  (at level 10, x name, m at level 100, k at level 200) : py_scope.
Notation "'do' m 'in' k" := (bind m (fun _ => k))
  (at level 10, m at level 100, k at level 200) : py_scope.

(** ** NumPy float32 arithmetic *)

Module F32.

Definition prec : Z := 24.
Definition emax : Z := 128.

Definition add := SFadd prec emax.
Definition mul := SFmul prec emax.
Definition div := SFdiv prec emax.
Definition sqrt := SFsqrt prec emax.

Definition zero : spec_float := S754_zero false.
Definition of_Z (z : Z) : spec_float := binary_normalize prec emax z 0 false.

(** [np.array(x, dtype=np.float32)] on one element: round to binary32. *)
Definition cast (x : spec_float) : spec_float :=
  match x with
  | S754_finite s m e => binary_round prec emax s m e
  | _ => x
  end.

(** [float(x)] for a float32 scalar: the same value as a binary64. *)
Definition to_py_float (x : spec_float) : spec_float :=
  match x with
  | S754_finite s m e => binary_round 53 1024 s m e
  | _ => x
  end.

Definition is_nan (x : spec_float) : bool :=
  match x with S754_nan => true | _ => false end.

(** [a >= b] *)
Definition geb (a b : spec_float) : bool := SFleb b a.

End F32.

Definition vec := list spec_float.

Module Np.

(** [np.array(v, dtype=np.float32).ravel()] *)
Definition array_f32 (v : vec) : vec := map F32.cast v.

Definition dot (a b : vec) : spec_float :=
  fold_left (fun acc xy => F32.add acc (F32.mul (fst xy) (snd xy)))
            (combine a b) F32.zero.

(** [np.linalg.norm(v)] of a 1-D array: [sqrt(dot(v, v))]. *)
Definition norm (v : vec) : spec_float := F32.sqrt (dot v v).

(** [v / s] *)
Definition div_scalar (v : vec) (s : spec_float) : vec :=
  map (fun x => F32.div x s) v.

(** [np.vstack(rows)]: all rows must have the same length. *)
Definition vstack (rows : list vec) : Py (list vec) :=
  match rows with
  | [] => raise ValueError
  | r :: rs =>
      if forallb (fun r' => Nat.eqb (length r') (length r)) rs
      then ret rows else raise ValueError
  end.

(** [stack @ emb]: the row length must be the length of [emb]. *)
Definition matvec (stack : list vec) (emb : vec) : Py vec :=
  match stack with
  | [] => ret []
  | r :: _ =>
      if Nat.eqb (length r) (length emb)
      then (do tell (EvSimilarity (length stack)) in
            ret (map (fun row => dot row emb) stack))%py
      else raise ValueError
  end.

(** [np.argmax] on floats: the first index holding the maximum, a NaN
    counting as maximal. The scan keeps the running maximum [mp] and
    replaces it when [not (x <= mp)]. *)
Fixpoint argmax_from (mp : spec_float) (best i : nat) (l : vec) : nat :=
  match l with
  | [] => best
  | x :: t =>
      if SFleb x mp then argmax_from mp best (S i) t
      else if F32.is_nan x then i
      else argmax_from x i (S i) t
  end.

Definition argmax (l : vec) : Py nat :=
  match l with
  | [] => raise ValueError
  | x :: t => ret (if F32.is_nan x then 0%nat else argmax_from x 0 1 t)
  end.

End Np.

(** ** detector.py *)

Module Detector.

(** The gallery rows that survive normalisation: zero-norm rows are
    skipped (the [continue] of the loop), the others are divided by
    their norm. *)
Fixpoint normalize_known (known_embeddings : list vec) : list vec :=
  match known_embeddings with
  | [] => []
  | ref :: rest =>
      let arr := Np.array_f32 ref in
      let norm := Np.norm arr in
      if SFeqb norm F32.zero then normalize_known rest
      else Np.div_scalar arr norm :: normalize_known rest
  end.

(** [match_embedding(embedding, known_embeddings, threshold)].
    The threshold is a Python float; NumPy compares it with the float32
    score after rounding it to float32. The first component of the
    result is [best_match_idx] or [None], the second a Python float. *)
Definition match_embedding (embedding : option vec)
    (known_embeddings : list vec) (threshold : spec_float)
    : Py (option nat * spec_float) :=
  match embedding, known_embeddings with
  | None, _ | _, [] => ret (None, F32.zero)
  | Some embedding, _ :: _ =>
      let emb := Np.array_f32 embedding in
      let emb_norm := Np.norm emb in
      if SFeqb emb_norm F32.zero then ret (None, F32.zero)
      else
        let emb := Np.div_scalar emb emb_norm in
        let normalized := normalize_known known_embeddings in
        match normalized with
        | [] => ret (None, F32.zero)
        | _ :: _ =>
            (let* stack := Np.vstack normalized in
             let* similarity := Np.matvec stack emb in
             let* best_match_idx := Np.argmax similarity in
             let best_score := nth best_match_idx similarity F32.zero in
             if F32.geb best_score (F32.cast threshold)
             then ret (Some best_match_idx, F32.to_py_float best_score)
             else ret (None, F32.to_py_float best_score))%py
        end
  end.

End Detector.

(** *** Face detection *)

Module Boxes.

(** A box [(x1, y1, x2, y2)] in pixel coordinates. *)
Definition box : Type := Z * Z * Z * Z.

(** The image, as far as the detection code looks at it:
    [bgr_array.shape[1]] and [bgr_array.shape[0]]. *)
Record image := { width : Z; height : Z }.

(** Python's [round] on a float: to the nearest integer, ties to even. *)
Definition py_round (q : Q) : Z :=
  let f := Qfloor q in
  match (q - inject_Z f ?= 1 # 2)%Q with
  | Lt => f
  | Gt => f + 1
  | Eq => if Z.even f then f else f + 1
  end.

(** What the detector back end reports for the image.
    [FaceNet boxes]: [_load_facenet()] succeeded and [_mtcnn.detect]
    returned [boxes] ([None] or rows of four floats).
    [Haar detections]: the cascade's [(x, y, w, h)] rectangles. *)
Inductive backend :=
| FaceNet (boxes : option (list (Q * Q * Q * Q)))
| Haar (detections : list box).

End Boxes.

Import Boxes.

Module FaceDetector.

Section WithMaskModel.

(** The mask classifier on the crop of the image at a box:
    [prediction[0][0] > 0.5], and [False] when the model is missing
    or inference fails. *)
Variable mask_predict : box -> bool.

Definition detect_mask (face_img : option box) : bool :=
  match face_img with
  | None => false
  | Some b => mask_predict b
  end.

(** [int(max(0, round(coord)))] *)
Definition clamp_coord (coord : Q) : Z := Z.max 0 (py_round coord).

(** The loop over the boxes of the neural detector. A crop is the
    region of the original image at the box. *)
Fixpoint facenet_loop (img : image) (boxes : list (Q * Q * Q * Q))
  : list box * list box * list bool :=
  match boxes with
  | [] => ([], [], [])
  | (c1, c2, c3, c4) :: rest =>
      let x1 := clamp_coord c1 in
      let y1 := clamp_coord c2 in
      let x2 := clamp_coord c3 in
      let y2 := clamp_coord c4 in
      let '(boxes_list, crops, mask_flags) := facenet_loop img rest in
      if (x2 <=? x1) || (y2 <=? y1) then (boxes_list, crops, mask_flags)
      else
        let crop_bgr :=
          if (0 <=? y1) && (y1 <? y2) && (y2 <=? height img)
             && (0 <=? x1) && (x1 <? x2) && (x2 <=? width img)
          then Some (x1, y1, x2, y2) else None in
        ((x1, y1, x2, y2) :: boxes_list,
         (x1, y1, x2, y2) :: crops,
         detect_mask crop_bgr :: mask_flags)
  end.

(** The loop over the rectangles of the cascade detector. *)
Fixpoint haar_loop (detections : list box)
  : list box * list box * list bool :=
  match detections with
  | [] => ([], [], [])
  | (x, y, w, h) :: rest =>
      let x1 := x in
      let y1 := y in
      let x2 := x + w in
      let y2 := y + h in
      let '(boxes, crops, mask_flags) := haar_loop rest in
      ((x1, y1, x2, y2) :: boxes,
       (x1, y1, x2, y2) :: crops,
       detect_mask (Some (x1, y1, x2, y2)) :: mask_flags)
  end.

(** [detect_faces_and_crops(pil_image)] returns
    [(boxes, face_crops, mask_flags)]. *)
Definition detect_faces_and_crops (pil_image : option image) (b : backend)
  : list box * list box * list bool :=
  match pil_image with
  | None => ([], [], [])
  | Some img =>
      match b with
      | FaceNet None => ([], [], [])
      | FaceNet (Some boxes) => facenet_loop img boxes
      | Haar detections => haar_loop detections
      end
  end.

End WithMaskModel.

End FaceDetector.

(** ** faces.py *)

Module Faces.

(** One value of the [criminal_data] dictionary. *)
Record details := {
  d_age : option string;
  d_gender : option string;
  d_crime : option string;
  d_image : option string;
  d_embedding : option string   (* path of the .npy file *)
}.

(** One record of the list [load_all_criminals] returns. A consumer
    reads the embedding with [item.get("embedding")], which may be
    [None]. *)
Record criminal := {
  name : string;
  age : option string;
  gender : option string;
  crime : option string;
  image : option string;
  embedding : option vec
}.

(** A stored .npy file: an array, or bytes [np.load] rejects. *)
Inductive npy_file := NpyArray (a : vec) | Unreadable.

(** The files of [criminal_db], by path. *)
Abbreviation filesystem := (gmap string npy_file).

Definition np_load (fs : filesystem) (path : string) : Py vec :=
  match fs !! path with
  | Some (NpyArray a) => ret a
  | Some Unreadable => raise ValueError
  | None => raise ValueError
  end.

(** [emb_path and os.path.exists(emb_path)] *)
Definition usable_path (fs : filesystem) (emb_path : option string) : option string :=
  match emb_path with
  | Some p => if String.eqb p "" then None
              else match fs !! p with Some _ => Some p | None => None end
  | None => None
  end.

(** [load_all_criminals()]: [criminal_data] in insertion order. *)
Fixpoint load_all_criminals (fs : filesystem)
    (criminal_data : list (string * details)) : Py (list criminal) :=
  match criminal_data with
  | [] => ret []
  | (name, details) :: rest =>
      match usable_path fs (d_embedding details) with
      | Some emb_path =>
          (let* emb := np_load fs emb_path in
           let* results := load_all_criminals fs rest in
           ret ({| name := name; age := d_age details;
                   gender := d_gender details; crime := d_crime details;
                   image := d_image details; embedding := Some emb |}
                :: results))%py
      | None => load_all_criminals fs rest
      end
  end.

End Faces.

(** ** backend_adapter.py *)

Module Adapter.

Import Faces.

Local Open Scope string_scope.

(** *** The gallery bundle and its cache *)

(** [(entries, embeddings)] *)
Definition bundle : Type := list criminal * list vec.

(** The embeddings of the entries that have one, in order. *)
Fixpoint collect_embeddings (entries : list criminal) : list vec :=
  match entries with
  | [] => []
  | item :: rest =>
      match embedding item with
      | Some emb => emb :: collect_embeddings rest
      | None => collect_embeddings rest
      end
  end.

Definition _invalidate_db_cache (_db_bundle_cache : option bundle) : option bundle :=
  None.

(** [_load_db_bundle(force_reload)]: the bundle returned and the new
    value of [_db_bundle_cache]. *)
Definition _load_db_bundle (force_reload : bool)
    (_db_bundle_cache : option bundle)
    (fs : filesystem) (criminal_data : list (string * details))
    : bundle * option bundle :=
  match force_reload, _db_bundle_cache with
  | false, Some cached => (cached, Some cached)
  | _, _ =>
      let entries :=
        match outcome (load_all_criminals fs criminal_data) with
        | Ok entries => entries
        | Raise _ => []
        end in
      let embeddings := collect_embeddings entries in
      ((entries, embeddings), Some (entries, embeddings))
  end.

(** *** The detection pipeline *)

Record Match := { m_name : string; m_score : option spec_float }.

Record Detection := {
  det_box : box;
  det_label : string;
  det_name : string;
  det_score : option spec_float;
  det_has_mask : bool
}.

(** The threshold literal [0.55] as a binary64. *)
Definition threshold_0_55 : spec_float :=
  S754_finite false 4953959590107546 (-53).

(** ["Mask detected" not in label] *)
Definition mentions_mask (label : string) : bool :=
  match String.index 0 "Mask detected" label with
  | Some _ => true
  | None => false
  end.

Section Pipeline.

(** [detector.face_to_embedding] on the crop at a box; [None] when it
    raises. *)
Variable face_to_embedding : box -> option vec.
(** [f"{score:.2f}"] *)
Variable fmt2 : spec_float -> string.

(** The body of the loop over the detected faces: the match appended
    to [matches], if any, and the entry appended to [detection_meta]. *)
Definition face_step (entries : list criminal) (embeddings : list vec)
    (idx : nat) (b : box) (face_crop : box) (has_mask : bool)
    : Py (option Match * Detection) :=
  let emb := face_to_embedding face_crop in
  let '(bx1, by1, bx2, by2) := b in
  let x1 := Z.max 0 bx1 in
  let y1 := Z.max 0 by1 in
  let x2 := Z.max 0 bx2 in
  let y2 := Z.max 0 by2 in
  let mask_block := has_mask in
  (let* r :=
     if mask_block then ret ("Mask detected - remove mask", None, None)
     else
       match emb, embeddings with
       | Some e, _ :: _ =>
           do tell (EvMatchEmbedding idx) in
           let* ms :=
             try_except
               (let* ms := Detector.match_embedding (Some e) embeddings
                             threshold_0_55 in
                ret (fst ms, Some (snd ms)))
               (None, None) in
           ret ("Unknown", fst ms, snd ms)
       | _, _ => ret ("Unknown", None, None)
       end in
   let '(label, match_idx, score) := r in
   let hit :=
     match match_idx with
     | Some i => if mask_block then None else entries !! i
     | None => None
     end in
   let '(label, appended, meta_name) :=
     match hit with
     | Some entry =>
         let name := if String.eqb (name entry) "" then "Unknown"
                     else name entry in
         let label := match score with
                      | Some s => name ++ " (" ++ fmt2 s ++ ")"
                      | None => name
                      end in
         (label, Some {| m_name := name; m_score := score |}, name)
     | None =>
         match score with
         | Some s => if mask_block then (label, None, "Unknown")
                     else ("Unknown (" ++ fmt2 s ++ ")", None, "Unknown")
         | None => (label, None, "Unknown")
         end
     end in
   let label := if has_mask && negb (mentions_mask label)
                then label ++ " [Mask detected]" else label in
   ret (appended,
        {| det_box := (x1, y1, x2, y2);
           det_label := label;
           det_name := if mask_block then "Masked" else meta_name;
           det_score := score;
           det_has_mask := has_mask |}))%py.

(** [for idx, (box, face_crop, has_mask) in enumerate(zip(...))] *)
Fixpoint faces_loop (entries : list criminal) (embeddings : list vec)
    (idx : nat) (faces : list (box * box * bool))
    : Py (list Match * list Detection) :=
  match faces with
  | [] => ret ([], [])
  | (b, face_crop, has_mask) :: rest =>
      (let* r := face_step entries embeddings idx b face_crop has_mask in
       let* rs := faces_loop entries embeddings (S idx) rest in
       ret (match fst r with
            | Some m => m :: fst rs
            | None => fst rs
            end,
            snd r :: snd rs))%py
  end.

Definition zip3 (boxes face_crops : list box) (mask_flags : list bool)
  : list (box * box * bool) :=
  combine (combine boxes face_crops) mask_flags.

(** [_run_detection_pipeline(pil_image, db_bundle)] on the output
    [(boxes, face_crops, mask_flags)] of the detector. The result is
    [(matches, detection_meta)]; the early returns give the two-element
    shape, without detections. *)
Definition _run_detection_pipeline (detector_loaded : bool)
    (detected : list box * list box * list bool) (db_bundle : bundle)
    : Py (list Match * option (list Detection)) :=
  if negb detector_loaded then ret ([], None)
  else
    let '(entries, embeddings) := db_bundle in
    let '(boxes, face_crops, mask_flags) := detected in
    if (Nat.eqb (length boxes) 0) || (Nat.eqb (length face_crops) 0)
    then ret ([], None)
    else
      (let* r := faces_loop entries embeddings 0
                   (zip3 boxes face_crops mask_flags) in
       ret (fst r, Some (snd r)))%py.

End Pipeline.

(** *** Alert throttling *)

(** The globals [_last_alert_time] and [_recently_alerted_criminals]. *)
Record AlertState := {
  _last_alert_time : Q;
  _recently_alerted_criminals : gmap string Q
}.

Definition initial_state : AlertState :=
  {| _last_alert_time := 0; _recently_alerted_criminals := ∅ |}.

#[global] Instance Qlt_decision (a b : Q) : Decision (a < b)%Q :=
  match Qlt_le_dec a b with
  | left H => left H
  | right H => right (Qle_not_lt _ _ H)
  end.

(** [any(m.get('name') == name for m in unique_matches)] *)
Definition name_in (name : string) (unique_matches : list Match) : bool :=
  existsb (fun m => String.eqb (m_name m) name) unique_matches.

(** The first loop of [_notify_alert]: [(unique_matches, new_criminals)]. *)
Fixpoint collect_new (ALERT_COOLDOWN : Z) (now : Q)
    (recently : gmap string Q) (matches : list Match)
    (unique_matches : list Match) (new_criminals : list string)
    : list Match * list string :=
  match matches with
  | [] => (unique_matches, new_criminals)
  | m :: rest =>
      let name := m_name m in
      if String.eqb name "" || String.eqb name "Unknown"
      then collect_new ALERT_COOLDOWN now recently rest unique_matches new_criminals
      else
        let last_alerted := default 0%Q (recently !! name) in
        if Qlt_le_dec (now - last_alerted) (inject_Z ALERT_COOLDOWN)
        then collect_new ALERT_COOLDOWN now recently rest unique_matches new_criminals
        else if name_in name unique_matches
        then collect_new ALERT_COOLDOWN now recently rest unique_matches new_criminals
        else collect_new ALERT_COOLDOWN now recently rest
               (unique_matches ++ [m]) (new_criminals ++ [name])
  end.

(** [unique_matches.sort(key=lambda x: x.get('score', 0), reverse=True)]:
    a stable sort by descending score. Comparing a [None] key with
    anything is a [TypeError]; a list of fewer than two items is never
    compared. *)
Definition score_lt (a b : Match) : bool :=
  match m_score a, m_score b with
  | Some x, Some y => SFltb x y
  | _, _ => false
  end.

Fixpoint insert_desc (x : Match) (l : list Match) : list Match :=
  match l with
  | [] => [x]
  | y :: t => if score_lt x y then y :: insert_desc x t else x :: l
  end.

Definition sort_by_score (l : list Match) : result (list Match) :=
  match l with
  | [] | [_] => Ok l
  | _ =>
      if forallb (fun m => bool_decide (is_Some (m_score m))) l
      then Ok (foldr insert_desc [] l)
      else Raise TypeError
  end.

(** [_notify_alert(title, matches, pil_image, user)] at time [now].
    The value returned is the sorted [unique_matches] the notification
    is built from ([primary_match] is its head), or the empty list when
    the function returns before sending anything. *)
Definition _notify_alert (ALERT_COOLDOWN : Z) (matches : list Match)
    (now : Q) (st : AlertState) : result (list Match) * AlertState :=
  match matches with
  | [] => (Ok [], st)
  | _ =>
      let '(unique_matches, new_criminals) :=
        collect_new ALERT_COOLDOWN now (_recently_alerted_criminals st)
                    matches [] [] in
      match unique_matches with
      | [] => (Ok [], st)
      | _ =>
          if Qlt_le_dec (now - _last_alert_time st) (inject_Z ALERT_COOLDOWN)
          then (Ok [], st)
          else
            let recently :=
              foldl (fun d name => <[name := now]> d)
                    (_recently_alerted_criminals st) new_criminals in
            let cutoff_time := (now - inject_Z (ALERT_COOLDOWN * 2))%Q in
            let recently :=
              filter (fun kv => (cutoff_time < snd kv)%Q) recently in
            let st' := {| _last_alert_time := now;
                          _recently_alerted_criminals := recently |} in
            (sort_by_score unique_matches, st')
      end
  end.

End Adapter.

(** ** Vocabulary of the statements *)

Module Spec.

Import Adapter Faces.

(** The only event the matcher itself logs. *)
Definition is_similarity (ev : event) : Prop := exists n, ev = EvSimilarity n.

(** [int(max(0, round(coord)))] on the four coordinates of a raw box. *)
Definition clamp_box (raw : Q * Q * Q * Q) : box :=
  let '(c1, c2, c3, c4) := raw in
  (FaceDetector.clamp_coord c1, FaceDetector.clamp_coord c2,
   FaceDetector.clamp_coord c3, FaceDetector.clamp_coord c4).

(** Positive width and height. *)
Definition positive_area (b : box) : bool :=
  let '(x1, y1, x2, y2) := b in (x1 <? x2) && (y1 <? y2).

(** [x1 < x2] and [y1 < y2], from 0 on. *)
Definition proper_box (b : box) : Prop :=
  let '(x1, y1, x2, y2) := b in 0 <= x1 < x2 /\ 0 <= y1 < y2.

(** All four coordinates inside [0, width) x [0, height). *)
Definition in_image (img : Boxes.image) (b : box) : Prop :=
  let '(x1, y1, x2, y2) := b in
  (0 <= x1 < width img /\ 0 <= x2 < width img)
  /\ (0 <= y1 < height img /\ 0 <= y2 < height img).

(** The corners of a cascade rectangle [(x, y, w, h)]. *)
Definition corners (d : box) : box :=
  let '(x, y, w, h) := d in (x, y, x + w, y + h).

(** A rectangle as the cascade reports it: inside the first quadrant,
    with positive width and height. *)
Definition cascade_rect (d : box) : Prop :=
  let '(x, y, w, h) := d in 0 <= x /\ 0 <= y /\ 0 < w /\ 0 < h.

(** Gallery index [i] is the embedding of entry [i]. *)
Definition aligned (b : bundle) : Prop :=
  length (snd b) = length (fst b)
  /\ forall i item, fst b !! i = Some item -> embedding item = snd b !! i.

(** The record comes from an item of [criminal_data] whose embedding
    file exists and holds the array the record carries. *)
Definition loaded_from (fs : filesystem)
    (criminal_data : list (string * details)) (r : criminal) : Prop :=
  exists d p a,
    In (name r, d) criminal_data /\ d_embedding d = Some p
    /\ fs !! p = Some (NpyArray a) /\ embedding r = Some a.

(** The values [_db_bundle_cache] can take: it starts empty and is only
    written by [_invalidate_db_cache] and [_load_db_bundle]. *)
Inductive reachable_cache : option bundle -> Prop :=
| reach_initial : reachable_cache None
| reach_invalidate c :
    reachable_cache c -> reachable_cache (_invalidate_db_cache c)
| reach_load c force_reload fs criminal_data :
    reachable_cache c ->
    reachable_cache (snd (_load_db_bundle force_reload c fs criminal_data)).

End Spec.

Import Spec.

(** ** Sample data *)

Module Fixtures.

Import Adapter Faces.
Local Open Scope string_scope.

(** The Python float [0.9]. *)
Definition score_0_9 : spec_float := S754_finite false 8106479329266893 (-53).

Definition match_X : Match := {| m_name := "X"; m_score := Some score_0_9 |}.
Definition match_Y : Match := {| m_name := "Y"; m_score := Some score_0_9 |}.
Definition match_Unknown : Match :=
  {| m_name := "Unknown"; m_score := Some score_0_9 |}.
Definition match_A_no_score : Match := {| m_name := "A"; m_score := None |}.
Definition match_B : Match := {| m_name := "B"; m_score := Some score_0_9 |}.

(** A gallery whose first stored embedding is the zero vector. *)
Definition unit_x : vec := [F32.of_Z 1; F32.zero].
Definition zero_vec : vec := [F32.zero; F32.zero].

Definition person (n : string) (emb : vec) : criminal :=
  {| name := n; age := None; gender := None; crime := None;
     image := None; embedding := Some emb |}.

(** An item of [criminal_data] with its embedding stored at [path]. *)
Definition stored (path : string) : details :=
  {| d_age := None; d_gender := None; d_crime := None;
     d_image := None; d_embedding := Some path |}.

Definition gallery_zero_first : list criminal :=
  [person "A" zero_vec; person "B" unit_x].

Definition gallery_alice : list criminal := [person "Alice" unit_x].

Definition bundle_of (entries : list criminal) : bundle :=
  (entries, collect_embeddings entries).

(** Every crop embeds to the unit vector. *)
Definition embed_unit_x (_ : box) : option vec := Some unit_x.

End Fixtures.


From Stdlib Require Import Sorted Ascii.

(** ** More vocabulary and sample data *)

Module Order.

(** Everything but NaN. *)
Definition not_nan (x : spec_float) : bool := negb (F32.is_nan x).

(** A match that carries a score which is a number. *)
Definition scored (m : Adapter.Match) : Prop :=
  exists s, Adapter.m_score m = Some s /\ not_nan s = true.

(** A name that can be alerted. *)
Definition alertable (name : string) : Prop :=
  name <> ""%string /\ name <> "Unknown"%string.

(** [_last_alert_time] is not negative and bounds every timestamp of
    the map. *)
Definition stamps_bounded (st : Adapter.AlertState) : Prop :=
  (0 <= Adapter._last_alert_time st)%Q
  /\ forall k v, Adapter._recently_alerted_criminals st !! k = Some v ->
                 (v <= Adapter._last_alert_time st)%Q.

(** The states the two globals can be in: the initial one, and what a
    call of [_notify_alert] leaves. *)
Inductive alert_reachable (c : Z) : Adapter.AlertState -> Prop :=
| alert_reach_initial : alert_reachable c Adapter.initial_state
| alert_reach_notify st matches now :
    alert_reachable c st ->
    alert_reachable c (snd (Adapter._notify_alert c matches now st)).

(** Descending by score. *)
Definition score_ge (a b : Adapter.Match) : Prop :=
  exists sa sb, Adapter.m_score a = Some sa /\ Adapter.m_score b = Some sb
                /\ SFleb sb sa = true.

(** A vector whose norm is not zero. *)
Definition nonzero_norm (v : vec) : Prop :=
  SFeqb (Np.norm (Np.array_f32 v)) F32.zero = false.

(** [entries[match_idx].get("name") or "Unknown"] *)
Definition display_name (entry : Faces.criminal) : string :=
  if String.eqb (Faces.name entry) "" then "Unknown"%string
  else Faces.name entry.

(** [[int(max(0, b)) for b in box]] *)
Definition clamp_low (b : box) : box :=
  let '(x1, y1, x2, y2) := b in
  (Z.max 0 x1, Z.max 0 y1, Z.max 0 x2, Z.max 0 y2).

(** A match that names an entry of the gallery and carries a score. *)
Definition gallery_match (entries : list Faces.criminal)
    (m : Adapter.Match) : Prop :=
  is_Some (Adapter.m_score m)
  /\ exists entry, In entry entries /\ Adapter.m_name m = display_name entry.

(** The detection recorded for a face: its mask flag and its box,
    clamped from below. *)
Definition detection_of (face : box * box * bool)
    (d : Adapter.Detection) : Prop :=
  Adapter.det_has_mask d = snd face
  /\ Adapter.det_box d = clamp_low (fst (fst face)).

Definition unmasked (face : box * box * bool) : bool := negb (snd face).

End Order.

Import Order.

Module Samples.

Import Adapter.
Local Open Scope string_scope.

(** The Python floats [0.8] and [0.95]. *)
Definition score_0_8 : spec_float := S754_finite false 7205759403792794 (-53).
Definition score_0_95 : spec_float := S754_finite false 8556839292003942 (-53).

Definition X_low : Match := {| m_name := "X"; m_score := Some score_0_8 |}.
Definition X_high : Match := {| m_name := "X"; m_score := Some score_0_95 |}.
Definition Y_high : Match := {| m_name := "Y"; m_score := Some score_0_95 |}.
Definition nameless : Match := {| m_name := ""; m_score := Some score_0_95 |}.

(** The vector [(1, 1)]. *)
Definition diagonal : vec := [F32.of_Z 1; F32.of_Z 1].

(** A rounding of finite scores to four decimals, as an integer number
    of ten-thousandths (ties to even). *)
Definition exact_value (x : spec_float) : Q :=
  match x with
  | S754_finite s m e =>
      let v := match e with
               | Zneg p => (Zpos m # Pos.pow 2 p)%Q
               | _ => inject_Z (Zpos m * 2 ^ e)
               end in
      if s then (- v)%Q else v
  | _ => 0%Q
  end.

Definition round4_Z (x : spec_float) : Z :=
  py_round (exact_value x * inject_Z 10000)%Q.

Definition batch : list Match :=
  [X_low; Fixtures.match_Unknown; Y_high; nameless; X_high].

End Samples.

(** ** backend_adapter.py: serialisation and the detection endpoints *)

Module Endpoints.

Import Adapter.

Section WithKeys.

(** [round(float(score), 4)] and Python's [==] on two rounded scores
    (which is false on a NaN). *)
Variable K : Type.
Variable round4 : spec_float -> K.
Variable key_eq : K -> K -> bool.

(** [(name, None if score is None else round(float(score), 4))] *)
Definition key : Type := string * option K.

Definition make_key (item : Match) : key :=
  (m_name item, option_map round4 (m_score item)).

(** [stored == k] on two keys. *)
Definition same_key (stored k : key) : bool :=
  String.eqb (fst stored) (fst k)
  && match snd stored, snd k with
     | None, None => true
     | Some x, Some y => key_eq x y
     | _, _ => false
     end.

(** [key in seen] *)
Definition key_in (k : key) (seen : list key) : bool :=
  existsb (fun stored => same_key stored k) seen.

(** The loop of [_serialize_matches], with the keys [seen] so far. *)
Fixpoint serialize_loop (matches : list Match) (seen : list key)
  : list Match :=
  match matches with
  | [] => []
  | item :: rest =>
      let name := m_name item in
      let score := m_score item in
      let k := make_key item in
      if key_in k seen then serialize_loop rest seen
      else {| m_name := name; m_score := score |}
           :: serialize_loop rest (k :: seen)
  end.

(** [_serialize_matches(matches)] *)
Definition _serialize_matches (matches : list Match) : list Match :=
  serialize_loop matches [].

(** [_serialize_detections(items)]: [None] gives the empty list; the
    fields of a detection are copied. *)
Definition _serialize_detections (items : option (list Detection))
  : list Detection :=
  match items with
  | None => []
  | Some items =>
      List.map (fun item => {| det_box := det_box item;
                               det_label := det_label item;
                               det_name := det_name item;
                               det_score := det_score item;
                               det_has_mask := det_has_mask item |}) items
  end.

Variable face_to_embedding : box -> option vec.
Variable fmt2 : spec_float -> string.
Variable ALERT_COOLDOWN : Z.

(** What an endpoint puts in the [X-Matches] and [X-Detections] headers. *)
Record response := {
  safe_matches : list Match;
  safe_detections : list Detection
}.

(** The pipeline on the detector's output for the image, unpacked and
    serialised. *)
Definition run_serialized (detector_loaded : bool)
    (detected : list box * list box * list bool) (db_bundle : bundle)
  : result response :=
  match outcome (_run_detection_pipeline face_to_embedding fmt2
                   detector_loaded detected db_bundle) with
  | Ok (matched, detections) =>
      Ok {| safe_matches := _serialize_matches matched;
            safe_detections := _serialize_detections detections |}
  | Raise e => Raise e
  end.

(** [_notify_alert] as a statement of an endpoint: an exception ends
    the request. *)
Definition notify_then (matches : list Match) (now : Q) (st : AlertState)
    (resp : response) : result response * AlertState :=
  match _notify_alert ALERT_COOLDOWN matches now st with
  | (Ok _, st') => (Ok resp, st')
  | (Raise e, st') => (Raise e, st')
  end.

(** [detect_image], after the image is decoded: alert when there are
    matches. *)
Definition detect_image (detector_loaded : bool)
    (detected : list box * list box * list bool) (db_bundle : bundle)
    (now : Q) (st : AlertState) : result response * AlertState :=
  match run_serialized detector_loaded detected db_bundle with
  | Raise e => (Raise e, st)
  | Ok resp =>
      match safe_matches resp with
      | [] => (Ok resp, st)
      | _ :: _ => notify_then (safe_matches resp) now st resp
      end
  end.

(** [detect_sketch], after the sketch is decoded and preprocessed:
    [_notify_alert] is called when there are detections. *)
Definition detect_sketch (detector_loaded : bool)
    (detected : list box * list box * list bool) (db_bundle : bundle)
    (now : Q) (st : AlertState) : result response * AlertState :=
  match run_serialized detector_loaded detected db_bundle with
  | Raise e => (Raise e, st)
  | Ok resp =>
      match safe_detections resp with
      | [] => (Ok resp, st)
      | _ :: _ => notify_then (safe_matches resp) now st resp
      end
  end.

(** *** The video stream *)

(** A frame the capture delivers: what the detector reports on it and
    the time at which an alert for it would be evaluated. *)
Record frame := {
  fr_detected : list box * list box * list bool;
  fr_now : Q
}.

(** A ["type": "frame"] line of the stream. *)
Record frame_payload := {
  p_index : nat;
  p_matches : list Match;
  p_detections : list Detection
}.

(** The variables of [frame_stream] and the alert globals. *)
Record stream_state := {
  alert_sent : bool;
  aggregated_matches : list Match;
  alerts : AlertState
}.

(** The loop of [frame_stream] from [frame_count] on, over the frames
    the capture still holds: the lines yielded, whether the generator
    ended with an exception, and the final state. *)
Fixpoint frame_loop (frame_limit frame_step : nat) (detector_loaded : bool)
    (db_bundle : bundle) (frames : list frame) (frame_count : nat)
    (s : stream_state) : list frame_payload * result unit * stream_state :=
  match frames with
  | [] => ([], Ok tt, s)
  | fr :: rest =>
      if negb (frame_count <? frame_limit)%nat then ([], Ok tt, s)
      else
        let frame_count := S frame_count in
        if (1 <? frame_step)%nat
           && negb (((frame_count - 1) mod frame_step) =? 0)%nat
        then frame_loop frame_limit frame_step detector_loaded db_bundle
               rest frame_count s
        else
          match run_serialized detector_loaded (fr_detected fr) db_bundle with
          | Raise e => ([], Raise e, s)
          | Ok resp =>
              let payload := {| p_index := frame_count - 1;
                                p_matches := safe_matches resp;
                                p_detections := safe_detections resp |} in
              let step :=
                match safe_matches resp with
                | [] => (Ok tt, s)
                | _ :: _ =>
                    let agg := aggregated_matches s ++ safe_matches resp in
                    if alert_sent s
                    then (Ok tt, {| alert_sent := true;
                                    aggregated_matches := agg;
                                    alerts := alerts s |})
                    else
                      match _notify_alert ALERT_COOLDOWN (safe_matches resp)
                              (fr_now fr) (alerts s) with
                      | (Ok _, st') =>
                          (Ok tt, {| alert_sent := true;
                                     aggregated_matches := agg;
                                     alerts := st' |})
                      | (Raise e, st') =>
                          (Raise e, {| alert_sent := false;
                                       aggregated_matches := agg;
                                       alerts := st' |})
                      end
                end in
              match step with
              | (Raise e, s') => ([], Raise e, s')
              | (Ok _, s') =>
                  let '(lines, r, s'') :=
                    frame_loop frame_limit frame_step detector_loaded
                      db_bundle rest frame_count s' in
                  (payload :: lines, r, s'')
              end
          end
  end.

(** [frame_stream()] of [detect_video]: at most [frame_limit = 600]
    frames are read; the last line carries the aggregated matches. *)
Definition frame_stream (frame_step : nat) (detector_loaded : bool)
    (db_bundle : bundle) (frames : list frame) (st : AlertState)
  : list frame_payload * result (list Match) * AlertState :=
  let '(lines, r, s) :=
    frame_loop 600 frame_step detector_loaded db_bundle frames 0
      {| alert_sent := false; aggregated_matches := []; alerts := st |} in
  (lines,
   match r with
   | Ok _ => Ok (_serialize_matches (aggregated_matches s))
   | Raise e => Raise e
   end,
   alerts s).

(** The frames the loop looks at: position in the capture below the
    limit and, for a step above 1, a multiple of the step. *)
Definition sampled (frame_limit frame_step : nat) (index : nat) : bool :=
  (index <? frame_limit)%nat
  && negb ((1 <? frame_step)%nat && negb ((index mod frame_step) =? 0)%nat).

(** The first sampled frame, from position [index] on, whose serialised
    matches are not empty. *)
Fixpoint first_match_frame (frame_limit frame_step : nat)
    (detector_loaded : bool) (db_bundle : bundle) (frames : list frame)
    (index : nat) : option (list Match * Q) :=
  match frames with
  | [] => None
  | fr :: rest =>
      if sampled frame_limit frame_step index then
        match run_serialized detector_loaded (fr_detected fr) db_bundle with
        | Ok resp =>
            match safe_matches resp with
            | [] => first_match_frame frame_limit frame_step detector_loaded
                      db_bundle rest (S index)
            | _ :: _ => Some (safe_matches resp, fr_now fr)
            end
        | Raise _ => None
        end
      else first_match_frame frame_limit frame_step detector_loaded
             db_bundle rest (S index)
  end.

End WithKeys.

End Endpoints.

(** ** detector.py: lazy loading of the models *)

Module Loader.

Section MaskModel.

Variable model : Type.

(** The globals [_mask_model] and [_mask_model_loaded]. *)
Record mask_globals := {
  _mask_model : option model;
  _mask_model_loaded : bool
}.

Definition mask_initial : mask_globals :=
  {| _mask_model := None; _mask_model_loaded := false |}.

(** What a call finds: whether TensorFlow was imported ([load_model] and
    [image] are set together), whether the model file exists, and what
    [load_model(MASK_MODEL_PATH)] gives ([None] when it raises). *)
Record mask_env := {
  tensorflow_imported : bool;
  model_file_exists : bool;
  load_model_result : option model
}.

(** [_load_mask_model()] *)
Definition _load_mask_model (env : mask_env) (g : mask_globals)
  : option model * mask_globals :=
  if _mask_model_loaded g then (_mask_model g, g)
  else if negb (tensorflow_imported env) || negb (model_file_exists env)
  then (None, {| _mask_model := _mask_model g; _mask_model_loaded := true |})
  else
    match load_model_result env with
    | Some m => (Some m, {| _mask_model := Some m; _mask_model_loaded := true |})
    | None => (None, {| _mask_model := _mask_model g;
                        _mask_model_loaded := true |})
    end.

(** [detect_mask(face_img)]; [predict m img] is
    [prediction[0][0] > 0.5], [None] when preprocessing or inference
    raises. *)
Definition detect_mask (env : mask_env) (predict : model -> box -> option bool)
    (face_img : option box) (g : mask_globals) : bool * mask_globals :=
  let '(mask_model, g') := _load_mask_model env g in
  match mask_model, face_img with
  | Some m, Some img =>
      if tensorflow_imported env
      then (match predict m img with Some b => b | None => false end, g')
      else (false, g')
  | _, _ => (false, g')
  end.

(** The states the two globals can be in. *)
Inductive mask_reachable : mask_globals -> Prop :=
| mask_reach_initial : mask_reachable mask_initial
| mask_reach_load env g :
    mask_reachable g -> mask_reachable (snd (_load_mask_model env g)).

End MaskModel.

Section FaceNet.

Variables torch mtcnn resnet : Type.

(** The globals of the FaceNet loader. *)
Record facenet_globals := {
  _facenet_available : option bool;
  USE_FACENET : bool;
  _torch : option torch;
  _mtcnn : option mtcnn;
  _resnet : option resnet
}.

Definition facenet_initial : facenet_globals :=
  {| _facenet_available := None; USE_FACENET := false;
     _torch := None; _mtcnn := None; _resnet := None |}.

(** How far the body of the [try] gets. *)
Inductive facenet_attempt :=
| ImportFails
| MtcnnFails (t : torch)
| ResnetFails (t : torch) (m : mtcnn)
| Loads (t : torch) (m : mtcnn) (r : resnet).

(** [_load_facenet()] *)
Definition _load_facenet (a : facenet_attempt) (g : facenet_globals)
  : bool * facenet_globals :=
  match _facenet_available g with
  | Some _ => (USE_FACENET g, g)
  | None =>
      match a with
      | Loads t m r =>
          (true, {| _facenet_available := Some true; USE_FACENET := true;
                    _torch := Some t; _mtcnn := Some m; _resnet := Some r |})
      | ImportFails =>
          (false, {| _facenet_available := Some false; USE_FACENET := false;
                     _torch := _torch g; _mtcnn := None; _resnet := None |})
      | MtcnnFails t | ResnetFails t _ =>
          (false, {| _facenet_available := Some false; USE_FACENET := false;
                     _torch := Some t; _mtcnn := None; _resnet := None |})
      end
  end.

(** [_load_facenet() and _mtcnn is not None], the test of
    [detect_faces_and_crops]. *)
Definition detects_with_facenet (a : facenet_attempt) (g : facenet_globals)
  : bool * facenet_globals :=
  let '(ok, g') := _load_facenet a g in
  (ok && bool_decide (is_Some (_mtcnn g')), g').

(** [_load_facenet() and _resnet is not None and _torch is not None],
    the test of [get_face_embedding]. *)
Definition embeds_with_facenet (a : facenet_attempt) (g : facenet_globals)
  : bool * facenet_globals :=
  let '(ok, g') := _load_facenet a g in
  (ok && bool_decide (is_Some (_resnet g'))
      && bool_decide (is_Some (_torch g')), g').

(** The states the loader's globals can be in. *)
Inductive facenet_reachable : facenet_globals -> Prop :=
| facenet_reach_initial : facenet_reachable facenet_initial
| facenet_reach_load a g :
    facenet_reachable g -> facenet_reachable (snd (_load_facenet a g)).

End FaceNet.

(** [get_face_embedding(face_img)]: with FaceNet, the network's output
    divided by its norm ([None] when the network raises, which falls
    through to the fallback); the fallback is the grey 100 x 100 pixels,
    flattened, divided by their norm plus [1e-10]. *)
Definition epsilon : spec_float :=
  F32.cast (S754_finite false 7737125245533627 (-86)).

Definition fallback_embedding (pixels : vec) : vec :=
  Np.div_scalar pixels (F32.add (Np.norm pixels) epsilon).

Definition get_face_embedding (use_facenet : bool)
    (network_output : option vec) (pixels : vec) : vec :=
  match use_facenet, network_output with
  | true, Some embedding => Np.div_scalar embedding (Np.norm embedding)
  | _, _ => fallback_embedding pixels
  end.

End Loader.

(** ** faces.py: the registry on disk *)

Module Registry.

Import Faces.
Local Open Scope string_scope.

(** The dictionary [criminal_data], in insertion order, and the files of
    [criminal_db]: the .npy files with their content, the images by
    path. *)
Record store := {
  criminal_data : list (string * details);
  npy_files : filesystem;
  image_files : gset string
}.

Definition DB_DIR : string := "criminal_db".

(** [os.path.join(DB_DIR, filename)] with the POSIX separator. *)
Definition path_join (dir filename : string) : string :=
  dir ++ "/" ++ filename.

(** [name.replace(' ', '_')] *)
Fixpoint replace_spaces (s : string) : string :=
  match s with
  | EmptyString => EmptyString
  | String c rest =>
      String (if Ascii.eqb c " " then "_"%char else c) (replace_spaces rest)
  end.

Definition image_path (name : string) : string :=
  path_join DB_DIR (replace_spaces name ++ ".jpg").

Definition embedding_path (name : string) : string :=
  path_join DB_DIR (replace_spaces name ++ ".npy").

(** [d[key] = value]: an existing key keeps its place. *)
Fixpoint dict_set (d : list (string * details)) (key : string)
    (value : details) : list (string * details) :=
  match d with
  | [] => [(key, value)]
  | (k, v) :: rest =>
      if String.eqb k key then (k, value) :: rest
      else (k, v) :: dict_set rest key value
  end.

(** [d.get(key)] *)
Fixpoint dict_get (d : list (string * details)) (key : string)
  : option details :=
  match d with
  | [] => None
  | (k, v) :: rest => if String.eqb k key then Some v else dict_get rest key
  end.

(** [del d[key]] *)
Fixpoint dict_del (d : list (string * details)) (key : string)
  : list (string * details) :=
  match d with
  | [] => []
  | (k, v) :: rest =>
      if String.eqb k key then rest else (k, v) :: dict_del rest key
  end.

(** The two ways [add_criminal_from_pil] is called: with a name and
    keyword arguments, or with a dictionary. *)
Inductive name_or_details :=
| Positional (name : option string)
| AsDict (name age gender crime : option string).

Record person := {
  p_name : string;
  p_age : option string;
  p_gender : option string;
  p_crime : option string
}.

(** [_normalize_details(name_or_details, age, gender, crime)] *)
Definition _normalize_details (nd : name_or_details)
    (age gender crime : option string) : result person :=
  let '(name, age, gender, crime) :=
    match nd with
    | AsDict n a g c => (n, a, g, c)
    | Positional n => (n, age, gender, crime)
    end in
  match name with
  | None => Raise ValueError
  | Some n =>
      if String.eqb n "" then Raise ValueError
      else Ok {| p_name := n; p_age := age; p_gender := gender;
                 p_crime := crime |}
  end.

(** The value stored in [criminal_data] for a person. *)
Definition stored_details (who : person) : details :=
  {| d_age := p_age who; d_gender := p_gender who; d_crime := p_crime who;
     d_image := Some (image_path (p_name who));
     d_embedding := Some (embedding_path (p_name who)) |}.

Section WithDetector.

Variable mask_predict : box -> bool.
(** [face_to_embedding] on a crop, or the exception it raises. *)
Variable face_to_embedding : box -> result vec.
(** [name.strip()] *)
Variable strip : string -> string.

(** [add_criminal_from_pil(pil_image, name_or_details, age, gender,
    crime)]; [b] is what the detector back end reports on the image.
    The image is one that [pil_image.save] writes, and the writes of
    [np.save] and [save_metadata] go through. *)
Definition add_criminal_from_pil (pil_image : Boxes.image) (b : backend)
    (nd : name_or_details) (age gender crime : option string) (s : store)
  : result unit * store :=
  match _normalize_details nd age gender crime with
  | Raise e => (Raise e, s)
  | Ok details =>
      let img_path := image_path (p_name details) in
      let s1 := {| criminal_data := criminal_data s;
                   npy_files := npy_files s;
                   image_files := image_files s ∪ {[ img_path ]} |} in
      let '(_, face_crops, _) :=
        FaceDetector.detect_faces_and_crops mask_predict (Some pil_image) b in
      match face_crops with
      | [] => (Raise ValueError, s1)
      | crop :: _ =>
          match face_to_embedding crop with
          | Raise e => (Raise e, s1)
          | Ok emb =>
              let emb_path := embedding_path (p_name details) in
              (Ok tt,
               {| criminal_data :=
                    dict_set (criminal_data s) (p_name details)
                      {| d_age := p_age details;
                         d_gender := p_gender details;
                         d_crime := p_crime details;
                         d_image := Some img_path;
                         d_embedding := Some emb_path |};
                  npy_files := <[emb_path := NpyArray emb]> (npy_files s);
                  image_files := image_files s ∪ {[ img_path ]} |})
          end
      end
  end.

(** [path and os.path.exists(path)] for an image. *)
Definition image_to_remove (s : store) (path : option string)
  : option string :=
  match path with
  | Some p => if String.eqb p "" then None
              else if bool_decide (p ∈ image_files s) then Some p else None
  | None => None
  end.

(** [delete_criminal(name)] *)
Definition delete_criminal (name : string) (s : store) : bool * store :=
  let key := strip name in
  match dict_get (criminal_data s) key with
  | None => (false, s)
  | Some d =>
      let images :=
        match image_to_remove s (d_image d) with
        | Some p => image_files s ∖ {[ p ]}
        | None => image_files s
        end in
      let npys :=
        match usable_path (npy_files s) (d_embedding d) with
        | Some p => delete p (npy_files s)
        | None => npy_files s
        end in
      (true, {| criminal_data := dict_del (criminal_data s) key;
                npy_files := npys;
                image_files := images |})
  end.

End WithDetector.

(** A dictionary has each key once. *)
Definition unique_keys (s : store) : Prop :=
  List.NoDup (List.map fst (criminal_data s)).

End Registry.

(** ** Sample registrations *)

Module RegistrySamples.

Import Faces Registry.
Local Open Scope string_scope.

Definition picture : Boxes.image := {| width := 640; height := 480 |}.

(** The cascade finds one rectangle, at the left or further right. *)
Definition face_left : backend := Haar [(10, 10, 100, 100)%Z].
Definition face_right : backend := Haar [(300, 10, 100, 100)%Z].
Definition no_face : backend := Haar [].

Definition no_mask (_ : box) : bool := false.

Definition unit_y : vec := [F32.zero; F32.of_Z 1].

(** Crops at the left embed to one unit vector, the others to the
    other. *)
Definition embed_by_corner (b : box) : result vec :=
  let '(x1, _, _, _) := b in
  Ok (if (x1 =? 10)%Z then Fixtures.unit_x else unit_y).

(** [str.strip] on a string whose only blanks are spaces. *)
Fixpoint lstrip (s : string) : string :=
  match s with
  | String c rest => if Ascii.eqb c " " then lstrip rest else s
  | EmptyString => EmptyString
  end.

Fixpoint rstrip (s : string) : string :=
  match s with
  | EmptyString => EmptyString
  | String c rest =>
      match rstrip rest with
      | EmptyString => if Ascii.eqb c " " then EmptyString
                       else String c EmptyString
      | rest' => String c rest'
      end
  end.

Definition strip_spaces (s : string) : string := rstrip (lstrip s).

Definition empty_store : store :=
  {| criminal_data := []; npy_files := ∅; image_files := ∅ |}.

Definition register (b : backend) (n : string) (s : store)
  : result unit * store :=
  add_criminal_from_pil no_mask embed_by_corner picture b
    (Positional (Some n)) None None None s.

(** The registry after "John Doe" is registered, and after "John_Doe"
    is registered as well. *)
Definition john_registered : store :=
  snd (register face_left "John Doe" empty_store).

Definition both_registered : store :=
  snd (register face_right "John_Doe" john_registered).

End RegistrySamples.

(** ** detector.py: the matcher over the linear-algebra library

    [np.linalg.norm] and the product [stack @ emb] are computed by the
    BLAS library NumPy is linked with, and the order in which that
    library adds the float32 products is its own; [Np.norm] and [Np.dot]
    fix one order, from left to right. What [match_embedding] does with
    the numbers it gets back does not depend on the order: here the two
    operations are parameters of the matcher. *)

Module Blas.

Section WithLibrary.

(** [np.linalg.norm(v)] on a float32 vector. *)
Variable linalg_norm : vec -> spec_float.
(** [stack @ emb] on a matrix of float32 rows as long as [emb]. *)
Variable matmul : list vec -> vec -> vec.

(** The loop over [known_embeddings]: rows of zero norm are skipped. *)
Fixpoint normalize_known (known_embeddings : list vec) : list vec :=
  match known_embeddings with
  | [] => []
  | ref :: rest =>
      let arr := Np.array_f32 ref in
      let norm := linalg_norm arr in
      if SFeqb norm F32.zero then normalize_known rest
      else Np.div_scalar arr norm :: normalize_known rest
  end.

(** [stack @ emb], with NumPy's check of the shapes. *)
Definition matvec (stack : list vec) (emb : vec) : Py vec :=
  match stack with
  | [] => ret []
  | r :: _ =>
      if Nat.eqb (length r) (length emb)
      then (do tell (EvSimilarity (length stack)) in
            ret (matmul stack emb))%py
      else raise ValueError
  end.

(** [match_embedding(embedding, known_embeddings, threshold)] *)
Definition match_embedding (embedding : option vec)
    (known_embeddings : list vec) (threshold : spec_float)
    : Py (option nat * spec_float) :=
  match embedding, known_embeddings with
  | None, _ | _, [] => ret (None, F32.zero)
  | Some embedding, _ :: _ =>
      let emb := Np.array_f32 embedding in
      let emb_norm := linalg_norm emb in
      if SFeqb emb_norm F32.zero then ret (None, F32.zero)
      else
        let emb := Np.div_scalar emb emb_norm in
        let normalized := normalize_known known_embeddings in
        match normalized with
        | [] => ret (None, F32.zero)
        | _ :: _ =>
            (let* stack := Np.vstack normalized in
             let* similarity := matvec stack emb in
             let* best_match_idx := Np.argmax similarity in
             let best_score := nth best_match_idx similarity F32.zero in
             if F32.geb best_score (F32.cast threshold)
             then ret (Some best_match_idx, F32.to_py_float best_score)
             else ret (None, F32.to_py_float best_score))%py
        end
  end.

(** A vector divided by its norm, and the similarities of a gallery
    with a query: the product of the normalised gallery vectors, in
    gallery order, with the normalised query. *)
Definition normalized (v : vec) : vec :=
  Np.div_scalar (Np.array_f32 v) (linalg_norm (Np.array_f32 v)).

Definition similarities (query : vec) (known : list vec) : vec :=
  matmul (List.map normalized known) (normalized query).

Definition nonzero_norm (v : vec) : Prop :=
  SFeqb (linalg_norm (Np.array_f32 v)) F32.zero = false.

End WithLibrary.

(** The product that accumulates each row from left to right. *)
Definition sequential_matmul (stack : list vec) (emb : vec) : vec :=
  List.map (fun row => Np.dot row emb) stack.

(** The Python float [1.0000000001]: not a float32, and float32 rounds
    it to 1. *)
Definition just_above_one : spec_float :=
  S754_finite false 4503599627820856 (-52).

End Blas.
(** * Properties *)

(** ** Computations *)

Section PyFacts.

Context {A B : Type}.

Lemma bind_ok (m : Py A) (k : A -> Py B) a l :
  m = (Ok a, l) -> bind m k = (outcome (k a), l ++ events (k a)).
Proof. intros ->. unfold bind, outcome, events. now destruct (k a). Qed.

Lemma bind_raise (m : Py A) (k : A -> Py B) e l :
  m = (Raise e, l) -> bind m k = (Raise e, l).
Proof. now intros ->. Qed.

Lemma bind_ret (a : A) (k : A -> Py B) : bind (ret a) k = k a.
Proof. unfold bind, ret. now destruct (k a). Qed.

Lemma outcome_bind (m : Py A) (k : A -> Py B) :
  outcome (bind m k) =
  match outcome m with Ok a => outcome (k a) | Raise e => Raise e end.
Proof. destruct m as [[a|e] l]; simpl; [now destruct (k a)|reflexivity]. Qed.

Lemma events_bind (m : Py A) (k : A -> Py B) :
  events (bind m k) =
  match outcome m with
  | Ok a => events m ++ events (k a)
  | Raise _ => events m
  end.
Proof. destruct m as [[a|e] l]; simpl; [now destruct (k a)|reflexivity]. Qed.

(** Whatever holds of the events of both parts holds of the whole. *)
Lemma bind_events_Forall (P : event -> Prop) (m : Py A) (k : A -> Py B) :
  Forall P (events m) -> (forall a, Forall P (events (k a))) ->
  Forall P (events (bind m k)).
Proof.
  destruct m as [[a|e] l]; simpl; intros Hm Hk; [|exact Hm].
  specialize (Hk a). destruct (k a) as [r l']. simpl in *.
  now apply Forall_app.
Qed.

End PyFacts.


(** ** Comparison of floats *)

Lemma SFcompare_antisym (a b : spec_float) :
  SFcompare b a = option_map CompOpp (SFcompare a b).
Proof.
  destruct a as [sa|sa| |sa ma ea], b as [sb|sb| |sb mb eb]; simpl;
    try reflexivity;
    try (destruct sa; reflexivity);
    try (destruct sb; reflexivity);
    try (destruct sa, sb; reflexivity).
  rewrite !Pos.compare_cont_spec; simpl.
  rewrite (Z.compare_antisym ea eb), (Pos.compare_antisym ma mb).
  destruct sa, sb; try reflexivity;
    destruct (ea ?= eb); simpl; try reflexivity;
    destruct (ma ?= mb)%positive; reflexivity.
Qed.

(** [a == b] implies [a >= b]. *)
Lemma SFeqb_geb (a b : spec_float) : SFeqb a b = true -> F32.geb a b = true.
Proof.
  unfold SFeqb, F32.geb, SFleb. rewrite (SFcompare_antisym a b).
  destruct (SFcompare a b) as [[]|]; simpl; congruence.
Qed.

(** [a < b] excludes [a >= b]. *)
Lemma SFltb_not_geb (a b : spec_float) : SFltb a b = true -> F32.geb a b = false.
Proof.
  unfold SFltb, F32.geb, SFleb. rewrite (SFcompare_antisym a b).
  destruct (SFcompare a b) as [[]|]; simpl; congruence.
Qed.

(** ** The matcher *)

Lemma matvec_events (stack : list vec) (emb : vec) :
  Forall is_similarity (events (Np.matvec stack emb)).
Proof.
  unfold Np.matvec. destruct stack as [|r rs]; simpl; [constructor|].
  destruct (Nat.eqb _ _); simpl; repeat constructor. now eexists.
Qed.

Lemma vstack_events (rows : list vec) : events (Np.vstack rows) = [].
Proof. unfold Np.vstack. destruct rows; [|destruct (forallb _ _)]; reflexivity. Qed.

Lemma argmax_events (l : vec) : events (Np.argmax l) = [].
Proof. now destruct l. Qed.

(** The matcher itself only ever logs the similarity product. *)
Lemma match_embedding_events embedding known threshold :
  Forall is_similarity
    (events (Detector.match_embedding embedding known threshold)).
Proof.
  unfold Detector.match_embedding.
  destruct embedding as [e|], known as [|k ks]; try constructor.
  remember (Detector.normalize_known (k :: ks)) as nk eqn:En.
  cbv beta iota zeta.
  destruct (SFeqb _ _); [constructor|].
  destruct nk as [|n ns]; [constructor|].
  apply bind_events_Forall; [rewrite vstack_events; constructor|intros stack].
  apply bind_events_Forall; [apply matvec_events|intros sims].
  apply bind_events_Forall; [rewrite argmax_events; constructor|intros i].
  destruct (F32.geb _ _); constructor.
Qed.

(** Without zero-norm rows nothing is skipped: row [i] of the stack is
    gallery entry [i]. *)
Lemma normalize_known_no_zero known :
  Forall (fun ref => SFeqb (Np.norm (Np.array_f32 ref)) F32.zero = false) known ->
  Detector.normalize_known known =
  List.map (fun ref => Np.div_scalar (Np.array_f32 ref)
                         (Np.norm (Np.array_f32 ref))) known.
Proof.
  induction 1 as [|ref rest Hz _ IH]; [reflexivity|].
  cbn [Detector.normalize_known List.map]. now rewrite Hz, IH.
Qed.

(** At the accumulation from left to right the matcher over the
    library is [Detector.match_embedding]. *)
Lemma blas_normalize_known_sequential known :
  Blas.normalize_known Np.norm known = Detector.normalize_known known.
Proof.
  induction known as [|ref rest IH]; [reflexivity|].
  cbn [Blas.normalize_known Detector.normalize_known].
  now rewrite IH.
Qed.

Lemma blas_match_embedding_sequential embedding known threshold :
  Blas.match_embedding Np.norm Blas.sequential_matmul embedding known
    threshold
  = Detector.match_embedding embedding known threshold.
Proof.
  unfold Blas.match_embedding, Detector.match_embedding.
  destruct embedding as [e|], known as [|k ks]; reflexivity.
Qed.

(** Whatever the library computes: when the guards pass and the shapes
    agree, the matcher returns the arg-max index exactly when its score
    reaches the threshold rounded to float32, and the score in both
    cases. *)
Lemma blas_match_embedding_scored
    (linalg_norm : vec -> spec_float) (matmul : list vec -> vec -> vec)
    e known threshold stack sims i :
  known <> [] ->
  SFeqb (linalg_norm (Np.array_f32 e)) F32.zero = false ->
  Blas.normalize_known linalg_norm known <> [] ->
  outcome (Np.vstack (Blas.normalize_known linalg_norm known)) = Ok stack ->
  outcome (Blas.matvec matmul stack (Blas.normalized linalg_norm e))
    = Ok sims ->
  outcome (Np.argmax sims) = Ok i ->
  outcome (Blas.match_embedding linalg_norm matmul (Some e) known threshold) =
    Ok (if F32.geb (nth i sims F32.zero) (F32.cast threshold)
        then Some i else None,
        F32.to_py_float (nth i sims F32.zero)).
Proof.
  intros Hk Hn Hz Hs Hm Ha. unfold Blas.match_embedding.
  unfold Blas.normalized in Hm.
  destruct known as [|k ks]; [congruence|].
  remember (Blas.normalize_known linalg_norm (k :: ks)) as nk eqn:En.
  cbv beta iota zeta. rewrite Hn.
  destruct nk as [|n ns]; [congruence|].
  rewrite outcome_bind, Hs, outcome_bind, Hm, outcome_bind, Ha.
  now destruct (F32.geb _ _).
Qed.

(** C6, as amended. The comparison [best_score >= threshold] is made in
    float32: the threshold, a Python float, is rounded to float32
    first. For every norm and product the library computes, and every
    query, gallery and threshold for which the matcher gets as far as a
    best score: a best score equal to the rounded threshold is accepted
    (the comparison is [>=]), and a best score strictly below the
    rounded threshold gives no match while the raw score is still
    returned. *)
Theorem match_embedding_float32_threshold
    (linalg_norm : vec -> spec_float) (matmul : list vec -> vec -> vec)
    e known threshold stack sims i :
  known <> [] ->
  SFeqb (linalg_norm (Np.array_f32 e)) F32.zero = false ->
  Blas.normalize_known linalg_norm known <> [] ->
  outcome (Np.vstack (Blas.normalize_known linalg_norm known)) = Ok stack ->
  outcome (Blas.matvec matmul stack (Blas.normalized linalg_norm e))
    = Ok sims ->
  outcome (Np.argmax sims) = Ok i ->
  let best_score := nth i sims F32.zero in
  (SFeqb best_score (F32.cast threshold) = true ->
   outcome (Blas.match_embedding linalg_norm matmul (Some e) known threshold)
   = Ok (Some i, F32.to_py_float best_score))
  /\
  (SFltb best_score (F32.cast threshold) = true ->
   outcome (Blas.match_embedding linalg_norm matmul (Some e) known threshold)
   = Ok (None, F32.to_py_float best_score)).
Proof.
  intros Hk Hn Hz Hs Hm Ha best_score.
  rewrite (blas_match_embedding_scored linalg_norm matmul e known threshold
             stack sims i) by assumption.
  fold best_score. split; intros H.
  - now rewrite (SFeqb_geb _ _ H).
  - now rewrite (SFltb_not_geb _ _ H).
Qed.

(** A gallery of one unit vector queried with itself, accumulated from
    left to right: the score is 1.0, accepted at threshold 1.0 and
    rejected, score kept, at threshold 2.0. *)
Lemma match_embedding_float32_threshold_witness :
  outcome (Blas.match_embedding Np.norm Blas.sequential_matmul
             (Some [F32.of_Z 1]) [[F32.of_Z 1]] (F32.of_Z 1))
  = Ok (Some 0%nat, F32.to_py_float (F32.of_Z 1))
  /\
  outcome (Blas.match_embedding Np.norm Blas.sequential_matmul
             (Some [F32.of_Z 1]) [[F32.of_Z 1]] (F32.of_Z 2))
  = Ok (None, F32.to_py_float (F32.of_Z 1)).
Proof.
  split.
  - apply (match_embedding_float32_threshold Np.norm Blas.sequential_matmul
             [F32.of_Z 1] [[F32.of_Z 1]]
             (F32.of_Z 1) [[F32.of_Z 1]] [F32.of_Z 1] 0);
      try discriminate; vm_compute; try reflexivity; discriminate.
  - apply (match_embedding_float32_threshold Np.norm Blas.sequential_matmul
             [F32.of_Z 1] [[F32.of_Z 1]]
             (F32.of_Z 2) [[F32.of_Z 1]] [F32.of_Z 1] 0);
      try discriminate; vm_compute; try reflexivity; discriminate.
Defined.

(** C6 as stated fails at a threshold that is not a float32. A gallery
    of one unit vector queried with itself at threshold 1.0000000001:
    the score returned, 1.0, is strictly below the threshold, and the
    match is accepted all the same, because the threshold is rounded to
    the float32 1.0 before the comparison. *)
Lemma score_below_threshold_accepted :
  outcome (Detector.match_embedding (Some [F32.of_Z 1]) [[F32.of_Z 1]]
             Blas.just_above_one)
  = Ok (Some 0%nat, F32.to_py_float (F32.of_Z 1))
  /\ SFltb (F32.to_py_float (F32.of_Z 1)) Blas.just_above_one = true
  /\ SFeqb (F32.of_Z 1) (F32.cast Blas.just_above_one) = true.
Proof. vm_compute. repeat split. Qed.

(** C7. [match_embedding] on an empty gallery, a missing query or a query
    of zero norm: it returns [(None, 0.0)], does not raise, and the
    similarity product is never evaluated (the event log is empty); in
    particular a zero-norm query matches nothing. *)
Theorem match_embedding_degenerate embedding known threshold :
  known = [] \/ embedding = None \/
  (exists e, embedding = Some e /\
             SFeqb (Np.norm (Np.array_f32 e)) F32.zero = true) ->
  Detector.match_embedding embedding known threshold
  = (Ok (None, F32.zero), []).
Proof.
  intros [-> | [-> | (e & -> & Hz)]].
  - now destruct embedding.
  - reflexivity.
  - unfold Detector.match_embedding. destruct known as [|k ks]; [reflexivity|].
    cbv beta iota zeta. now rewrite Hz.
Qed.

Lemma match_embedding_degenerate_witness :
  Detector.match_embedding (Some [F32.zero; F32.zero])
    [[F32.of_Z 1; F32.zero]] Adapter.threshold_0_55
  = (Ok (None, F32.zero), [])
  /\ Detector.match_embedding (Some [F32.of_Z 1]) [] Adapter.threshold_0_55
     = (Ok (None, F32.zero), [])
  /\ Detector.match_embedding None [[F32.of_Z 1]] Adapter.threshold_0_55
     = (Ok (None, F32.zero), []).
Proof.
  split; [|split].
  - apply match_embedding_degenerate. right; right.
    exists [F32.zero; F32.zero]. split; reflexivity.
  - apply match_embedding_degenerate. left. reflexivity.
  - apply match_embedding_degenerate. right; left. reflexivity.
Defined.

(** ** The detection pipeline *)

Section PipelineFacts.

Import Adapter Faces.

Variable face_to_embedding : box -> option vec.
Variable fmt2 : spec_float -> string.

Local Abbreviation face_step := (face_step face_to_embedding fmt2).
Local Abbreviation faces_loop := (faces_loop face_to_embedding fmt2).

(** What the loop body appends for a masked face. *)
Lemma face_step_masked entries embeddings idx b face_crop :
  exists d,
    face_step entries embeddings idx b face_crop true = (Ok (None, d), [])
    /\ det_name d = "Masked"%string /\ det_score d = None
    /\ det_has_mask d = true
    /\ det_label d = "Mask detected - remove mask"%string.
Proof.
  destruct b as [[[x1 y1] x2] y2]. eexists. split; [reflexivity|].
  repeat split.
Qed.

(** The loop body never raises; what it returns does not depend on the
    position of the face, and it logs a matcher call only for its own
    position. *)
Lemma face_step_total entries embeddings idx b face_crop has_mask :
  exists r,
    (forall idx', outcome (face_step entries embeddings idx' b face_crop
                             has_mask) = Ok r)
    /\ Forall (fun ev => ev = EvMatchEmbedding idx \/ is_similarity ev)
         (events (face_step entries embeddings idx b face_crop has_mask)).
Proof.
  destruct has_mask.
  - destruct (face_step_masked entries embeddings idx b face_crop)
      as (d & Hd & _).
    exists (None, d). split.
    + intros idx'.
      destruct (face_step_masked entries embeddings idx' b face_crop)
        as (d' & Hd' & _).
      destruct b as [[[x1 y1] x2] y2].
      rewrite Hd'. simpl. f_equal. f_equal.
      unfold Adapter.face_step in Hd, Hd'. simpl in Hd, Hd'. congruence.
    + rewrite Hd. constructor.
  - destruct b as [[[x1 y1] x2] y2]. unfold Adapter.face_step.
    destruct (face_to_embedding face_crop) as [e|];
      [destruct embeddings as [|g gs]|].
    + eexists; split; [reflexivity|constructor].
    + pose proof (match_embedding_events (Some e) (g :: gs) threshold_0_55)
        as Hev.
      destruct (Detector.match_embedding (Some e) (g :: gs) threshold_0_55)
        as [[[mi sc]|x] l]; simpl in Hev |- *.
      * destruct mi as [i|]; [destruct (entries !! i)|];
          (eexists; split; [reflexivity|]); simpl;
          (constructor; [now left|]);
          rewrite !app_nil_r;
          (eapply Forall_impl; [exact Hev|intros; now right]).
      * eexists; split; [reflexivity|]. simpl.
        constructor; [now left|]. rewrite !app_nil_r.
        eapply Forall_impl; [exact Hev|intros; now right].
    + eexists; split; [reflexivity|constructor].
Qed.

Section Loop.

Variable entries : list criminal.
Variable embeddings : list vec.

(** The loop never raises, returns one detection per face, and its
    result does not depend on the index it starts counting from. *)
Lemma faces_loop_total faces :
  exists ms ds,
    (forall idx, outcome (faces_loop entries embeddings idx faces)
                 = Ok (ms, ds))
    /\ length ds = length faces.
Proof.
  induction faces as [|[[b c] m] rest (ms & ds & IH & Hlen)].
  - exists [], []. split; [reflexivity|reflexivity].
  - destruct (face_step_total entries embeddings 0%nat b c m)
      as ([mo d] & Hr & _).
    exists (match mo with Some x => x :: ms | None => ms end), (d :: ds).
    split; [|simpl; now rewrite Hlen].
    intros idx. cbn [Adapter.faces_loop].
    rewrite outcome_bind, Hr, outcome_bind, IH. reflexivity.
Qed.

(** A matcher call logged by the loop belongs to an unmasked face. *)
Lemma faces_loop_events faces idx :
  Forall (fun ev =>
            is_similarity ev \/
            exists k b c, ev = EvMatchEmbedding (idx + k)
                          /\ faces !! k = Some (b, c, false))
         (events (faces_loop entries embeddings idx faces)).
Proof.
  revert idx.
  induction faces as [|[[b c] m] rest IH]; intros idx; [constructor|].
  cbn [Adapter.faces_loop]. rewrite events_bind.
  destruct (face_step_total entries embeddings idx b c m)
    as (r & Hr & Hev).
  rewrite Hr. apply Forall_app. split.
  - destruct m.
    + destruct (face_step_masked entries embeddings idx b c) as (d & Hd & _).
      rewrite Hd. constructor.
    + eapply Forall_impl; [exact Hev|].
      intros ev [-> | Hs]; [right|now left].
      exists 0%nat, b, c. split; [f_equal; lia|reflexivity].
  - rewrite events_bind.
    destruct (faces_loop_total rest) as (ms & ds & Hok & _).
    rewrite Hok. simpl. rewrite app_nil_r.
    eapply Forall_impl; [apply (IH (S idx))|].
    intros ev [Hs | (k & b' & c' & -> & Hk)]; [now left|right].
    exists (S k), b', c'. split; [f_equal; lia|exact Hk].
Qed.

(** The detection recorded for a masked face. *)
Lemma faces_loop_masked_detection faces idx i b c ms ds :
  faces !! i = Some (b, c, true) ->
  outcome (faces_loop entries embeddings idx faces) = Ok (ms, ds) ->
  exists d, ds !! i = Some d
            /\ det_name d = "Masked"%string /\ det_score d = None
            /\ det_has_mask d = true
            /\ det_label d = "Mask detected - remove mask"%string.
Proof.
  revert idx i ms ds.
  induction faces as [|[[b0 c0] m0] rest IH]; intros idx i ms ds Hi Hout;
    [discriminate|].
  cbn [Adapter.faces_loop] in Hout. rewrite outcome_bind in Hout.
  destruct (face_step_total entries embeddings idx b0 c0 m0)
    as ([mo d0] & Hr & _).
  rewrite Hr, outcome_bind in Hout.
  destruct (faces_loop_total rest) as (ms' & ds' & Hok & _).
  rewrite Hok in Hout. simpl in Hout. inversion Hout; subst ms ds.
  destruct i as [|i].
  - simpl in Hi. inversion Hi; subst b0 c0 m0.
    destruct (face_step_masked entries embeddings idx b c)
      as (d & Hd & Hprops).
    specialize (Hr idx). rewrite Hd in Hr. simpl in Hr.
    inversion Hr; subst. exists d0. split; [reflexivity|exact Hprops].
  - simpl in Hi. apply (IH (S idx) i ms' ds' Hi). apply Hok.
Qed.

(** Taking a masked face out of the input leaves the matches as
    they are. *)
Lemma faces_loop_masked_no_match faces idx i b c ms ds :
  faces !! i = Some (b, c, true) ->
  outcome (faces_loop entries embeddings idx faces) = Ok (ms, ds) ->
  outcome (faces_loop entries embeddings idx (delete i faces))
  = Ok (ms, delete i ds).
Proof.
  revert idx i ms ds.
  induction faces as [|[[b0 c0] m0] rest IH]; intros idx i ms ds Hi Hout;
    [discriminate|].
  cbn [Adapter.faces_loop] in Hout. rewrite outcome_bind in Hout.
  destruct (face_step_total entries embeddings idx b0 c0 m0)
    as ([mo d0] & Hr & _).
  rewrite Hr, outcome_bind in Hout.
  destruct (faces_loop_total rest) as (ms' & ds' & Hok & _).
  rewrite Hok in Hout. simpl in Hout. inversion Hout; subst ms ds.
  destruct i as [|i].
  - simpl in Hi. inversion Hi; subst b0 c0 m0.
    destruct (face_step_masked entries embeddings idx b c)
      as (d & Hd & _).
    specialize (Hr idx). rewrite Hd in Hr. simpl in Hr.
    inversion Hr; subst. simpl. apply Hok.
  - simpl in Hi. cbn [delete list_delete Adapter.faces_loop].
    rewrite outcome_bind, Hr, outcome_bind.
    pose proof (IH (S idx) i ms' ds' Hi (Hok _)) as H.
    unfold delete in H |- *. rewrite H. reflexivity.
Qed.

End Loop.

Lemma combine_delete {X Y} (l1 : list X) (l2 : list Y) i :
  combine (delete i l1) (delete i l2) = delete i (combine l1 l2).
Proof.
  revert l1 l2. induction i as [|i IH]; intros [|x l1] [|y l2];
    cbn [delete list_delete combine]; try reflexivity.
  - now destruct l1.
  - fold (delete i l1) (delete i l2) (delete i (combine l1 l2)).
    now rewrite IH.
Qed.

Lemma zip3_delete boxes face_crops mask_flags i :
  zip3 (delete i boxes) (delete i face_crops) (delete i mask_flags)
  = delete i (zip3 boxes face_crops mask_flags).
Proof. unfold zip3. now rewrite !combine_delete. Qed.

(** C1. Mask precedence. For every run of the pipeline and every
    detected face whose mask flag is true: [match_embedding] is not
    called for that face; the run completes, and the detection recorded
    for the face is named "Masked" with no score, whatever its
    embedding and the gallery are; and the face adds nothing to the
    matches: the run without that face returns the same matches. *)
Theorem mask_precedence detector_loaded boxes face_crops mask_flags
    (db_bundle : bundle) i b c :
  zip3 boxes face_crops mask_flags !! i = Some (b, c, true) ->
  let run := _run_detection_pipeline face_to_embedding fmt2 detector_loaded
               (boxes, face_crops, mask_flags) db_bundle in
  (EvMatchEmbedding i ∉ events run)
  /\ exists matches detections,
      outcome run = Ok (matches, detections)
      /\ (detector_loaded = true ->
          exists ds d, detections = Some ds /\ ds !! i = Some d
            /\ det_name d = "Masked"%string /\ det_score d = None
            /\ det_has_mask d = true
            /\ det_label d = "Mask detected - remove mask"%string)
      /\ exists detections',
          outcome (_run_detection_pipeline face_to_embedding fmt2
                     detector_loaded
                     (delete i boxes, delete i face_crops,
                      delete i mask_flags) db_bundle)
          = Ok (matches, detections').
Proof.
  intros Hi run. subst run. destruct db_bundle as [entries embeddings].
  unfold _run_detection_pipeline.
  destruct detector_loaded; simpl negb; cbv iota.
  2:{ split; [intros H; inversion H|].
      exists [], None. split; [reflexivity|].
      split; [discriminate|]. now exists None. }
  assert (boxes <> [] /\ face_crops <> []) as [Hb Hc].
  { unfold zip3 in Hi. destruct boxes, face_crops; try discriminate.
    now split. }
  destruct boxes as [|b0 boxes']; [congruence|].
  destruct face_crops as [|c0 crops']; [congruence|].
  cbn [length Nat.eqb orb].
  set (faces := zip3 (b0 :: boxes') (c0 :: crops') mask_flags) in *.
  destruct (faces_loop_total entries embeddings faces)
    as (ms & ds & Hok & Hlen).
  split.
  - rewrite events_bind, Hok. simpl. rewrite app_nil_r. intros Hin.
    pose proof (faces_loop_events entries embeddings faces 0%nat) as Hev.
    rewrite Forall_forall in Hev. apply Hev in Hin.
    destruct Hin as [[n Hn] | (k & b' & c' & Hk & Hf)]; [discriminate|].
    inversion Hk; subst k. simpl in Hf. congruence.
  - exists ms, (Some ds). split; [now rewrite outcome_bind, Hok|].
    split.
    + intros _.
      destruct (faces_loop_masked_detection entries embeddings faces 0%nat
                  i b c ms ds Hi (Hok _)) as (d & Hd & Hp).
      exists ds, d. now split; [|split].
    + pose proof (faces_loop_masked_no_match entries embeddings faces 0%nat
                    i b c ms ds Hi (Hok _)) as Hdel.
      unfold faces in Hdel. rewrite <- zip3_delete in Hdel.
      destruct (Nat.eqb (length (delete i (b0 :: boxes'))) 0
                || Nat.eqb (length (delete i (c0 :: crops'))) 0) eqn:He.
      * exists None. simpl. f_equal. f_equal.
        assert (zip3 (delete i (b0 :: boxes')) (delete i (c0 :: crops'))
                  (delete i mask_flags) = []) as Hnil.
        { unfold zip3. apply orb_true_iff in He.
          destruct He as [He | He]; apply Nat.eqb_eq in He;
            apply nil_length_inv in He; rewrite He; [reflexivity|].
          now destruct (delete i (b0 :: boxes')). }
        rewrite Hnil in Hdel. simpl in Hdel. now inversion Hdel.
      * exists (Some (delete i ds)).
        now rewrite outcome_bind, Hdel.
Qed.

End PipelineFacts.

(** ** Alert throttling *)

Section AlertFacts.

Import Adapter.

Local Open Scope Q_scope.

Lemma insert_desc_not_nil x l : insert_desc x l <> [].
Proof. destruct l as [|y t]; simpl; [|destruct (score_lt x y)]; discriminate. Qed.

(** Sorting never empties a batch. *)
Lemma sort_by_score_nil l : sort_by_score l = Ok [] -> l = [].
Proof.
  destruct l as [|x [|y t]]; try discriminate; [reflexivity|].
  unfold sort_by_score. destruct (forallb _ _); [|discriminate].
  intros H. inversion H as [H']. simpl in H'.
  now apply insert_desc_not_nil in H'.
Qed.

(** The three ways [_notify_alert] can end. *)
Lemma notify_alert_cases (c : Z) matches now st :
  let unique := fst (collect_new c now (_recently_alerted_criminals st)
                       matches [] []) in
  let new_criminals := snd (collect_new c now (_recently_alerted_criminals st)
                              matches [] []) in
  (_notify_alert c matches now st = (Ok [], st)
   /\ (matches = [] \/ unique = [] \/ now - _last_alert_time st < inject_Z c))
  \/
  (matches <> [] /\ unique <> [] /\ inject_Z c <= now - _last_alert_time st
   /\ _notify_alert c matches now st =
      (sort_by_score unique,
       {| _last_alert_time := now;
          _recently_alerted_criminals :=
            filter (fun kv => now - inject_Z (c * 2) < snd kv)
              (foldl (fun d name => <[name := now]> d)
                 (_recently_alerted_criminals st) new_criminals) |})).
Proof.
  intros unique new_criminals. subst unique new_criminals.
  unfold _notify_alert.
  destruct matches as [|m ms]; [left; split; [reflexivity|now left]|].
  destruct (collect_new c now _ (m :: ms) [] []) as [u n].
  destruct u as [|u0 us]; [left; split; [reflexivity|right; now left]|].
  destruct (Qlt_le_dec _ _) as [Hlt|Hle].
  - left; split; [reflexivity|right; now right].
  - right. repeat split; try discriminate. exact Hle.
Qed.

(** An evaluation inside the global cooldown changes nothing. *)
Lemma notify_alert_global_gate (c : Z) matches now st :
  now - _last_alert_time st < inject_Z c ->
  _notify_alert c matches now st = (Ok [], st).
Proof.
  intros Hlt.
  destruct (notify_alert_cases c matches now st)
    as [[H _] | (_ & _ & Hle & _)]; [exact H|].
  exfalso. apply (Qlt_not_le _ _ Hlt Hle).
Qed.

(** An evaluation that does not return empty has passed every check and
    stamps the state with its own time. *)
Lemma notify_alert_fired_time (c : Z) matches now st :
  fst (_notify_alert c matches now st) <> Ok [] ->
  _last_alert_time (snd (_notify_alert c matches now st)) = now.
Proof.
  intros Hne.
  destruct (notify_alert_cases c matches now st)
    as [[H _] | (_ & _ & _ & H)]; rewrite H in *; [now elim Hne|reflexivity].
Qed.

(** C3. Global cooldown. An evaluation less than the cooldown after
    [_last_alert_time] returns no eligible match and leaves both
    [_last_alert_time] and [_recently_alerted_criminals] as they were,
    whatever the batch holds. An evaluation that fires sets
    [_last_alert_time] to its own time, so every evaluation less than
    the cooldown after it, for any other identity, is suppressed and
    changes nothing: of two identities seen within one window only the
    first alert fires. *)
Theorem global_cooldown_suppresses_batch (c : Z) matches now st :
  (now - _last_alert_time st < inject_Z c ->
   _notify_alert c matches now st = (Ok [], st))
  /\
  (fst (_notify_alert c matches now st) <> Ok [] ->
   let st1 := snd (_notify_alert c matches now st) in
   _last_alert_time st1 = now
   /\ forall matches' now',
        now' - now < inject_Z c ->
        _notify_alert c matches' now' st1 = (Ok [], st1)).
Proof.
  split; [apply notify_alert_global_gate|].
  intros Hfired st1.
  pose proof (notify_alert_fired_time c matches now st Hfired) as Ht.
  fold st1 in Ht. split; [exact Ht|].
  intros matches' now' Hlt. apply notify_alert_global_gate.
  rewrite Ht. exact Hlt.
Qed.

(** The first loop on a batch of one match. *)
Lemma collect_new_single (c : Z) now recently m :
  collect_new c now recently [m] [] [] =
  if String.eqb (m_name m) "" || String.eqb (m_name m) "Unknown"
  then ([], [])
  else if Qlt_le_dec (now - default 0 (recently !! m_name m)) (inject_Z c)
       then ([], []) else ([m], [m_name m]).
Proof.
  simpl. destruct (_ || _); [reflexivity|].
  now destruct (Qlt_le_dec _ _).
Qed.

(** What a fired alert for a single match leaves behind. *)
Lemma notify_alert_single_fired (c : Z) m now st fired st1 :
  _notify_alert c [m] now st = (Ok fired, st1) -> fired <> [] ->
  (String.eqb (m_name m) "" || String.eqb (m_name m) "Unknown") = false
  /\ fired = [m]
  /\ _last_alert_time st1 = now
  /\ _recently_alerted_criminals st1 =
     filter (fun kv => now - inject_Z (c * 2) < snd kv)
       (<[m_name m := now]> (_recently_alerted_criminals st)).
Proof.
  intros Hrun Hne.
  destruct (notify_alert_cases c [m] now st)
    as [[H _] | (_ & Hu & _ & H)]; rewrite H in Hrun.
  { inversion Hrun; subst. now elim Hne. }
  rewrite collect_new_single in Hu, Hrun.
  destruct (_ || _); [now elim Hu|].
  destruct (Qlt_le_dec _ _); [now elim Hu|].
  simpl in Hrun. inversion Hrun; subst. now repeat split.
Qed.

(** C4. Per-identity cooldown of 30 seconds. After an evaluation fired
    an alert for a label at time [t], the evaluation for the same label
    at [t + 10] is suppressed, returns nothing and changes nothing; the
    evaluation at [t + 31] makes the label eligible again (both
    cooldowns, which share the one constant, have elapsed). *)
Theorem per_identity_cooldown_30 m t st st1 :
  _notify_alert 30 [m] t st = (Ok [m], st1) ->
  _notify_alert 30 [m] (t + 10) st1 = (Ok [], st1)
  /\ fst (_notify_alert 30 [m] (t + 31) st1) = Ok [m].
Proof.
  intros Hrun.
  destruct (notify_alert_single_fired 30 m t st [m] st1 Hrun)
    as (Hname & _ & Htime & Hmap); [discriminate|].
  assert (_recently_alerted_criminals st1 !! m_name m = Some t) as Hlook.
  { rewrite Hmap. apply map_lookup_filter_Some. split.
    - apply lookup_insert_eq.
    - change (30 * 2)%Z with 60%Z. unfold inject_Z. simpl. lra. }
  split.
  - apply notify_alert_global_gate. rewrite Htime. unfold inject_Z. lra.
  - unfold _notify_alert.
    rewrite collect_new_single, Hname, Hlook. simpl default.
    destruct (Qlt_le_dec (t + 31 - t) (inject_Z 30)) as [Hlt|_];
      [exfalso; unfold inject_Z in Hlt; lra|].
    rewrite Htime.
    destruct (Qlt_le_dec (t + 31 - t) (inject_Z 30)) as [Hlt|_];
      [exfalso; unfold inject_Z in Hlt; lra|].
    reflexivity.
Qed.

(** C9, as the code has it. An evaluation that returns empty (nothing
    to alert, or a cooldown still running) leaves the state as it was,
    stale entries included; every other evaluation has passed all the
    checks and ends with a purged map: no entry of
    [_recently_alerted_criminals] is as old as twice the cooldown. *)
Theorem purge_only_when_alert_fires (c : Z) matches now st :
  let st' := snd (_notify_alert c matches now st) in
  (fst (_notify_alert c matches now st) = Ok [] -> st' = st)
  /\
  (fst (_notify_alert c matches now st) <> Ok [] ->
   forall k v, _recently_alerted_criminals st' !! k = Some v ->
               now - inject_Z (2 * c) < v).
Proof.
  intros st'. subst st'.
  destruct (notify_alert_cases c matches now st)
    as [[H _] | (_ & Hu & _ & H)]; rewrite H; simpl.
  - split; [reflexivity|intros Hne; now elim Hne].
  - split.
    + intros Hs. apply sort_by_score_nil in Hs. now elim Hu.
    + intros _ k v Hk. apply map_lookup_filter_Some in Hk.
      destruct Hk as [_ Hk]. simpl in Hk.
      now rewrite (Z.mul_comm 2 c).
Qed.

(** The state is only ever written after the name filter, both
    cooldown checks and the batch de-duplication have let something
    through. *)
Lemma notify_alert_mutation_guarded (c : Z) matches now st :
  snd (_notify_alert c matches now st) <> st ->
  fst (collect_new c now (_recently_alerted_criminals st) matches [] []) <> []
  /\ inject_Z c <= now - _last_alert_time st.
Proof.
  intros Hne.
  destruct (notify_alert_cases c matches now st)
    as [[H _] | (_ & Hu & Hle & _)]; [rewrite H in Hne; now elim Hne|].
  now split.
Qed.

(** With a score on every match the sort cannot fail, and so neither
    can the evaluation. *)
Lemma notify_alert_numeric_scores (c : Z) matches now st :
  Forall (fun m => is_Some (m_score m)) matches ->
  exists fired, fst (_notify_alert c matches now st) = Ok fired.
Proof.
  intros Hall.
  destruct (notify_alert_cases c matches now st)
    as [[H _] | (_ & _ & _ & H)]; rewrite H; simpl; [now eexists|].
  assert (forall ms u n,
            Forall (fun m => is_Some (m_score m)) ms ->
            Forall (fun m => is_Some (m_score m)) u ->
            Forall (fun m => is_Some (m_score m))
              (fst (collect_new c now (_recently_alerted_criminals st)
                      ms u n))) as Hcollect.
  { induction ms as [|m ms IH]; intros u n Hms Hu; [exact Hu|].
    inversion Hms; subst. simpl.
    destruct (_ || _); [now apply IH|].
    destruct (Qlt_le_dec _ _); [now apply IH|].
    destruct (name_in _ _); [now apply IH|].
    apply IH; [assumption|]. apply Forall_app. now split; [|constructor]. }
  specialize (Hcollect matches [] [] Hall (List.Forall_nil _)).
  destruct (fst (collect_new _ _ _ matches [] [])) as [|x [|y t]];
    try (now eexists).
  unfold sort_by_score.
  assert (forallb (fun m => bool_decide (is_Some (m_score m))) (x :: y :: t)
          = true) as ->; [|now eexists].
  apply forallb_forall. intros m Hm. apply bool_decide_eq_true.
  rewrite Forall_forall in Hcollect. apply Hcollect.
  now apply list_elem_of_In.
Qed.

(** C5. All-or-nothing update. For every call whose matches carry a
    score, as a [Match] does and as the pipeline produces them: the
    evaluation ends without an exception. The two timestamps are
    written only when the name filter, the per-identity cooldown and
    the batch de-duplication have let a match through and the global
    cooldown has elapsed, and then the evaluation is complete: it
    returns the matches to alert and [_last_alert_time] is the time of
    the call. An evaluation that returns nothing leaves the state as it
    was. *)
Theorem alert_update_all_or_nothing (c : Z) matches now st :
  Forall (fun m => is_Some (m_score m)) matches ->
  exists fired st',
    _notify_alert c matches now st = (Ok fired, st')
    /\ (fired = [] -> st' = st)
    /\ (st' <> st ->
        fst (collect_new c now (_recently_alerted_criminals st)
               matches [] []) <> []
        /\ inject_Z c <= now - _last_alert_time st
        /\ fired <> [])
    /\ (fired <> [] -> _last_alert_time st' = now).
Proof.
  intros Hall.
  destruct (notify_alert_numeric_scores c matches now st Hall)
    as [fired Hfired].
  destruct (notify_alert_cases c matches now st)
    as [[H _] | (_ & Hu & Hle & H)].
  - exists [], st. split; [exact H|]. split; [reflexivity|].
    split; intros Hne; now elim Hne.
  - rewrite H in Hfired. cbn [fst] in Hfired.
    assert (fired <> []) as Hne.
    { intros ->. apply sort_by_score_nil in Hfired. contradiction. }
    eexists fired, _. split; [rewrite H, Hfired; reflexivity|].
    split; [intros E; contradiction|].
    split; [intros _; split; [exact Hu|split; [exact Hle|exact Hne]]|].
    intros _. reflexivity.
Qed.

End AlertFacts.

(** ** Concrete runs *)


Section ConcreteRuns.

Import Adapter Faces Fixtures.
Local Open Scope string_scope.

Lemma mask_precedence_witness :
  let run := _run_detection_pipeline embed_unit_x (fun _ => "1.00") true
               ([(0, 0, 10, 10); (20, 20, 30, 30)],
                [(0, 0, 10, 10); (20, 20, 30, 30)],
                [true; false]) (bundle_of gallery_alice) in
  (EvMatchEmbedding 0 ∉ events run)
  /\ exists matches detections,
      outcome run = Ok (matches, detections)
      /\ (true = true ->
          exists ds d, detections = Some ds /\ ds !! 0%nat = Some d
            /\ det_name d = "Masked" /\ det_score d = None
            /\ det_has_mask d = true
            /\ det_label d = "Mask detected - remove mask")
      /\ exists detections',
          outcome (_run_detection_pipeline embed_unit_x (fun _ => "1.00")
                     true
                     (delete 0%nat [(0, 0, 10, 10); (20, 20, 30, 30)],
                      delete 0%nat [(0, 0, 10, 10); (20, 20, 30, 30)],
                      delete 0%nat [true; false]) (bundle_of gallery_alice))
          = Ok (matches, detections').
Proof.
  apply (mask_precedence embed_unit_x (fun _ => "1.00") true
           [(0, 0, 10, 10); (20, 20, 30, 30)]
           [(0, 0, 10, 10); (20, 20, 30, 30)]
           [true; false] (bundle_of gallery_alice) 0%nat
           (0, 0, 10, 10) (0, 0, 10, 10)).
  reflexivity.
Defined.

(** C2, at the failing input. The gallery holds "A" with a stored
    zero vector and "B" with the unit vector; the query is that unit
    vector. Normalisation drops the row of "A", the arg-max is row 0 of
    what is left, and the pipeline reads [entries[0]]: it reports "A",
    while the entry with the maximal cosine similarity is "B". *)
Theorem zero_norm_row_shifts_reported_label :
  Detector.normalize_known (collect_embeddings gallery_zero_first)
  = [unit_x]
  /\ outcome (Detector.match_embedding (Some unit_x)
               (collect_embeddings gallery_zero_first) threshold_0_55)
     = Ok (Some 0%nat, F32.to_py_float (F32.of_Z 1))
  /\ exists detections,
      outcome (_run_detection_pipeline embed_unit_x (fun _ => "1.00") true
                 ([(0, 0, 10, 10)], [(0, 0, 10, 10)], [false])
                 (bundle_of gallery_zero_first))
      = Ok ([{| m_name := "A";
                m_score := Some (F32.to_py_float (F32.of_Z 1)) |}],
            detections).
Proof.
  split; [vm_compute; reflexivity|].
  split; [vm_compute; reflexivity|].
  eexists. vm_compute. reflexivity.
Qed.

Local Open Scope Q_scope.

Lemma global_cooldown_suppresses_batch_witness :
  let st1 := snd (_notify_alert 30 [match_X] 1000 initial_state) in
  (fst (_notify_alert 30 [match_X] 1000 initial_state) = Ok [match_X]
   /\ _last_alert_time st1 = 1000
   /\ _notify_alert 30 [match_Y] 1010 st1 = (Ok [], st1))
  /\ _notify_alert 30 [match_X; match_Y] 1029 st1 = (Ok [], st1).
Proof.
  cbv zeta. split; [split; [vm_compute; reflexivity|]|].
  - destruct (proj2 (global_cooldown_suppresses_batch 30 [match_X] 1000
                       initial_state)) as [Ht Hs].
    + vm_compute. discriminate.
    + split; [exact Ht|]. apply Hs. reflexivity.
  - apply (proj1 (global_cooldown_suppresses_batch 30 [match_X; match_Y]
                    1029 _)).
    vm_compute. reflexivity.
Defined.

Lemma per_identity_cooldown_30_witness :
  let st1 := snd (_notify_alert 30 [match_X] 1000 initial_state) in
  _notify_alert 30 [match_X] 1000 initial_state = (Ok [match_X], st1)
  /\ _notify_alert 30 [match_X] (1000 + 10) st1 = (Ok [], st1)
  /\ fst (_notify_alert 30 [match_X] (1000 + 31) st1) = Ok [match_X].
Proof.
  cbv zeta.
  assert (_notify_alert 30 [match_X] 1000 initial_state
          = (Ok [match_X],
             snd (_notify_alert 30 [match_X] 1000 initial_state))) as H
    by (vm_compute; reflexivity).
  split; [exact H|].
  exact (per_identity_cooldown_30 match_X 1000 initial_state _ H).
Defined.

(** The condition of the all-or-nothing update is needed. Called on
    its own with a match that has no score beside another one, which
    the pipeline never produces, the sort raises [TypeError] after both
    timestamps are written. *)
Remark sort_without_score_raises :
  _notify_alert 30 [match_A_no_score; match_B] 1000 initial_state
  = (Raise TypeError,
     {| _last_alert_time := 1000;
        _recently_alerted_criminals :=
          <["A"%string := 1000]> (<["B"%string := 1000]> ∅) |}).
Proof. vm_compute. reflexivity. Qed.

Lemma alert_update_all_or_nothing_witness :
  exists fired st',
    _notify_alert 30 Samples.batch 1000 initial_state = (Ok fired, st')
    /\ (fired = [] -> st' = initial_state)
    /\ (st' <> initial_state ->
        fst (collect_new 30 1000 (_recently_alerted_criminals initial_state)
               Samples.batch [] []) <> []
        /\ inject_Z 30 <= 1000 - _last_alert_time initial_state
        /\ fired <> [])
    /\ (fired <> [] -> _last_alert_time st' = 1000).
Proof.
  apply (alert_update_all_or_nothing 30 Samples.batch 1000 initial_state).
  repeat constructor; eexists; reflexivity.
Defined.

(** C9 as stated fails: "X" is alerted at time 100 and "Y" at time
    150; the evaluation for "B" at time 170 is inside the global
    cooldown, returns empty, and the entry of "X", by then 70 seconds
    old, is still in the map. *)
Lemma stale_entry_survives_suppressed_evaluation :
  let st1 := snd (_notify_alert 30 [match_X] 100 initial_state) in
  let st2 := snd (_notify_alert 30 [match_Y] 150 st1) in
  let st3 := snd (_notify_alert 30 [match_B] 170 st2) in
  fst (_notify_alert 30 [match_B] 170 st2) = Ok []
  /\ ~ (forall k v, _recently_alerted_criminals st3 !! k = Some v ->
                    ~ inject_Z (2 * 30) < 170 - v).
Proof.
  cbv zeta. split; [vm_compute; reflexivity|]. intros H.
  apply (H "X"%string 100); [vm_compute; reflexivity|reflexivity].
Qed.

Lemma purge_only_when_alert_fires_witness :
  let st1 := snd (_notify_alert 30 [match_X] 100 initial_state) in
  (snd (_notify_alert 30 [match_Unknown] 1000 st1) = st1)
  /\ (forall k v,
        _recently_alerted_criminals
          (snd (_notify_alert 30 [match_Y] 1000 st1)) !! k = Some v ->
        1000 - inject_Z (2 * 30) < v).
Proof.
  cbv zeta. split.
  - apply (proj1 (purge_only_when_alert_fires 30 [match_Unknown] 1000 _)).
    vm_compute. reflexivity.
  - apply (proj2 (purge_only_when_alert_fires 30 [match_Y] 1000 _)).
    vm_compute. discriminate.
Defined.

End ConcreteRuns.

(** ** Face boxes *)

Section BoxFacts.

Variable mask_predict : box -> bool.

Lemma clamp_coord_nonneg c : 0 <= FaceDetector.clamp_coord c.
Proof. unfold FaceDetector.clamp_coord. lia. Qed.

(** The neural loop is a filter over the clamped boxes. *)
Lemma facenet_loop_spec img raw :
  let '(boxes, crops, mask_flags) :=
    FaceDetector.facenet_loop mask_predict img raw in
  boxes = List.filter positive_area (List.map clamp_box raw)
  /\ crops = boxes /\ length mask_flags = length boxes.
Proof.
  induction raw as [|[[[c1 c2] c3] c4] rest IH]; [now repeat split|].
  cbn [FaceDetector.facenet_loop List.map List.filter].
  destruct (FaceDetector.facenet_loop mask_predict img rest)
    as [[boxes crops] flags].
  destruct IH as (Hb & Hc & Hl).
  unfold clamp_box at 1, positive_area at 1.
  destruct (Z.leb_spec (FaceDetector.clamp_coord c3)
                       (FaceDetector.clamp_coord c1)) as [H1|H1];
    destruct (Z.leb_spec (FaceDetector.clamp_coord c4)
                         (FaceDetector.clamp_coord c2)) as [H2|H2];
    destruct (Z.ltb_spec (FaceDetector.clamp_coord c1)
                         (FaceDetector.clamp_coord c3)) as [H3|H3];
    destruct (Z.ltb_spec (FaceDetector.clamp_coord c2)
                         (FaceDetector.clamp_coord c4)) as [H4|H4];
    try lia; cbn [orb andb]; try (now repeat split).
  subst. repeat split. simpl. now rewrite Hl.
Qed.

Lemma clamped_kept_proper raw :
  Forall proper_box (List.filter positive_area (List.map clamp_box raw)).
Proof.
  apply List.Forall_forall. intros b Hin.
  apply List.filter_In in Hin. destruct Hin as [Hin Hpos].
  apply List.in_map_iff in Hin.
  destruct Hin as ([[[c1 c2] c3] c4] & <- & _).
  unfold clamp_box, positive_area, proper_box in *.
  apply andb_true_iff in Hpos. destruct Hpos as [H1 H2].
  apply Z.ltb_lt in H1, H2.
  pose proof (clamp_coord_nonneg c1). pose proof (clamp_coord_nonneg c2).
  lia.
Qed.

(** The cascade loop passes every rectangle on, as its corners. *)
Lemma haar_loop_spec detections :
  let '(boxes, crops, mask_flags) :=
    FaceDetector.haar_loop mask_predict detections in
  boxes = List.map corners detections
  /\ crops = boxes /\ length mask_flags = length boxes.
Proof.
  induction detections as [|[[[x y] w] h] rest IH]; [now repeat split|].
  cbn [FaceDetector.haar_loop List.map].
  destruct (FaceDetector.haar_loop mask_predict rest)
    as [[boxes crops] flags].
  destruct IH as (Hb & Hc & Hl). subst.
  repeat split. simpl. now rewrite Hl.
Qed.

(** C8, as the code has it. The three lists returned have one length
    and the crops are cut at the boxes. Under the neural back end each
    coordinate is rounded and clamped from below at 0 (and not from
    above: nothing is compared with the image size), a box whose
    clamped width or height is not positive is dropped, and every box
    returned has [0 <= x1 < x2] and [0 <= y1 < y2]. Under the cascade
    back end every rectangle [(x, y, w, h)] is returned as
    [(x, y, x + w, y + h)], none clamped and none dropped, so the boxes
    have [x1 < x2] and [y1 < y2] when the cascade's rectangles have
    positive width and height. *)
Theorem detected_boxes_shape (img : Boxes.image) :
  (forall raw,
     let '(boxes, crops, mask_flags) :=
       FaceDetector.detect_faces_and_crops mask_predict (Some img)
         (FaceNet (Some raw)) in
     boxes = List.filter positive_area (List.map clamp_box raw)
     /\ crops = boxes /\ length mask_flags = length boxes
     /\ Forall proper_box boxes)
  /\
  (forall detections,
     let '(boxes, crops, mask_flags) :=
       FaceDetector.detect_faces_and_crops mask_predict (Some img)
         (Haar detections) in
     boxes = List.map corners detections
     /\ crops = boxes /\ length mask_flags = length boxes
     /\ (Forall cascade_rect detections -> Forall proper_box boxes)).
Proof.
  split.
  - intros raw. cbn [FaceDetector.detect_faces_and_crops].
    pose proof (facenet_loop_spec img raw) as H.
    destruct (FaceDetector.facenet_loop mask_predict img raw)
      as [[boxes crops] flags].
    destruct H as (Hb & Hc & Hl). repeat split; try assumption.
    rewrite Hb. apply clamped_kept_proper.
  - intros detections. cbn [FaceDetector.detect_faces_and_crops].
    pose proof (haar_loop_spec detections) as H.
    destruct (FaceDetector.haar_loop mask_predict detections)
      as [[boxes crops] flags].
    destruct H as (Hb & Hc & Hl). repeat split; try assumption.
    intros Hrect. rewrite Hb. clear Hb Hc Hl.
    induction Hrect as [|[[[x y] w] h] rest Hd _ IH]; [constructor|].
    cbn [List.map]. constructor; [|exact IH].
    unfold cascade_rect in Hd. unfold corners, proper_box. lia.
Qed.

End BoxFacts.

(** C8 as stated fails: the neural detector reports a face reaching
    beyond a 100 x 100 image; the box comes back with [x2 = y2 = 150]. *)
Lemma facenet_box_exceeds_image :
  let img := {| width := 100; height := 100 |} in
  let '(boxes, _, _) :=
    FaceDetector.detect_faces_and_crops (fun _ => false) (Some img)
      (FaceNet (Some [(10 # 1, 10 # 1, 150 # 1, 150 # 1)%Q])) in
  boxes = [(10, 10, 150, 150)] /\ ~ Forall (in_image img) boxes.
Proof.
  cbv zeta. vm_compute FaceDetector.detect_faces_and_crops. cbv iota beta.
  split; [reflexivity|].
  intros H. apply Forall_cons in H. destruct H as [H _].
  unfold in_image in H. simpl in H. lia.
Qed.

Lemma detected_boxes_shape_witness :
  let img := {| width := 100; height := 100 |} in
  (let '(boxes, _, _) :=
     FaceDetector.detect_faces_and_crops (fun _ => false) (Some img)
       (FaceNet (Some [(-(7 # 2), 10 # 1, 150 # 1, 150 # 1)%Q;
                       (5 # 2, 3 # 1, -(4 # 1), 9 # 1)%Q])) in
   boxes = [(0, 10, 150, 150)] /\ Forall proper_box boxes)
  /\
  (let '(boxes, _, _) :=
     FaceDetector.detect_faces_and_crops (fun _ => false) (Some img)
       (Haar [(50, 50, 50, 50)]) in
   boxes = [(50, 50, 100, 100)] /\ Forall proper_box boxes).
Proof.
  cbv zeta.
  pose proof (detected_boxes_shape (fun _ => false)
                {| width := 100; height := 100 |}) as [Hn Hh].
  split.
  - specialize (Hn [(-(7 # 2), 10 # 1, 150 # 1, 150 # 1)%Q;
                    (5 # 2, 3 # 1, -(4 # 1), 9 # 1)%Q]).
    destruct (FaceDetector.detect_faces_and_crops _ _ _) as [[boxes crops] flags].
    destruct Hn as (Hb & _ & _ & Hp). split; [|exact Hp].
    rewrite Hb. vm_compute. reflexivity.
  - specialize (Hh [(50, 50, 50, 50)]).
    destruct (FaceDetector.detect_faces_and_crops _ _ _) as [[boxes crops] flags].
    destruct Hh as (Hb & _ & _ & Hp). split; [rewrite Hb; reflexivity|].
    apply Hp. constructor; [unfold cascade_rect; lia|constructor].
Defined.

(** ** The gallery bundle *)

Section BundleFacts.

Import Adapter Faces.

Lemma usable_path_exists fs emb_path p :
  usable_path fs emb_path = Some p ->
  emb_path = Some p /\ is_Some (fs !! p).
Proof.
  unfold usable_path. destruct emb_path as [q|]; [|discriminate].
  destruct (String.eqb q ""); [discriminate|].
  destruct (fs !! q) eqn:E; [|discriminate].
  intros H; inversion H; subst. rewrite E. eauto.
Qed.

(** Every record returned was built from an existing embedding file,
    and the records are, in order, the items whose file exists. *)
Lemma load_all_criminals_loaded fs criminal_data entries :
  outcome (load_all_criminals fs criminal_data) = Ok entries ->
  Forall (loaded_from fs criminal_data) entries
  /\ List.map name entries =
     List.map fst
       (List.filter
          (fun nd => bool_decide (is_Some (usable_path fs (d_embedding (snd nd)))))
          criminal_data).
Proof.
  revert entries.
  induction criminal_data as [|[n d] rest IH]; intros entries Hout.
  - simpl in Hout. inversion Hout. split; [constructor|reflexivity].
  - cbn [load_all_criminals] in Hout. cbn [List.filter snd].
    destruct (usable_path fs (d_embedding d)) as [p|] eqn:Hp.
    + rewrite bool_decide_eq_true_2 by eauto.
      apply usable_path_exists in Hp. destruct Hp as [Hd Hex].
      rewrite outcome_bind in Hout. unfold np_load in Hout.
      destruct (fs !! p) as [[a|]|] eqn:Hfs; try discriminate.
      cbn [outcome ret fst] in Hout. rewrite outcome_bind in Hout.
      destruct (outcome (load_all_criminals fs rest)) as [rs|e] eqn:Hrs;
        [|discriminate].
      simpl in Hout. inversion Hout; subst entries.
      destruct (IH rs eq_refl) as [Hall Hnames]. split.
      * constructor.
        -- exists d, p, a. simpl. auto.
        -- eapply Forall_impl; [exact Hall|].
           intros r (d' & p' & a' & Hin & H1 & H2 & H3).
           exists d', p', a'. simpl. auto.
      * simpl. now rewrite Hnames.
    + rewrite bool_decide_eq_false_2 by (intros [? ?]; discriminate).
      destruct (IH entries Hout) as [Hall Hnames]. split; [|exact Hnames].
      eapply Forall_impl; [exact Hall|].
      intros r (d' & p' & a' & Hin & H1 & H2 & H3).
      exists d', p', a'. simpl. auto.
Qed.

(** When every entry has an embedding, none is skipped. *)
Lemma collect_embeddings_aligned entries :
  Forall (fun r => is_Some (embedding r)) entries ->
  aligned (entries, collect_embeddings entries).
Proof.
  unfold aligned. cbn [fst snd].
  induction 1 as [|r rest [a Ha] _ [IHlen IHidx]]; [now split|].
  cbn [collect_embeddings]. rewrite Ha. split; [simpl; now rewrite IHlen|].
  intros [|i] item Hi; simpl in Hi |- *.
  - inversion Hi; subst. exact Ha.
  - now apply IHidx.
Qed.

(** A bundle built from disk is aligned. *)
Lemma fresh_bundle_aligned fs criminal_data c :
  aligned (fst (_load_db_bundle true c fs criminal_data)).
Proof.
  unfold _load_db_bundle. cbn [fst].
  destruct (outcome (load_all_criminals fs criminal_data)) as [es|e] eqn:E.
  - apply collect_embeddings_aligned.
    destruct (load_all_criminals_loaded fs criminal_data es E) as [Hall _].
    eapply Forall_impl; [exact Hall|].
    intros r (d & p & a & _ & _ & _ & Ha). rewrite Ha. eauto.
  - apply collect_embeddings_aligned. constructor.
Qed.

(** The cache only ever holds aligned bundles. *)
Lemma reachable_cache_aligned c :
  reachable_cache c -> forall b, c = Some b -> aligned b.
Proof.
  induction 1 as [|c _ _|c force_reload fs criminal_data _ IH];
    intros b Hb; try discriminate.
  unfold _load_db_bundle in Hb.
  destruct force_reload, c as [cached|]; cbn [snd] in Hb;
    inversion Hb; subst b;
    try (apply (fresh_bundle_aligned fs criminal_data None)).
  now apply IH.
Qed.

(** C10. Every record [load_all_criminals] returns carries the array
    loaded from its stored .npy file, and the records returned are, in
    order, exactly the items of [criminal_data] whose file exists.
    Hence, whatever [_db_bundle_cache] holds, the bundle
    [_load_db_bundle] returns has one embedding per entry, in the same
    order: gallery index [i] is the embedding of [entries[i]]. *)
Theorem gallery_index_is_entry_index fs criminal_data force_reload c :
  reachable_cache c ->
  (forall entries,
     outcome (load_all_criminals fs criminal_data) = Ok entries ->
     Forall (loaded_from fs criminal_data) entries
     /\ List.map name entries =
        List.map fst
          (List.filter
             (fun nd => bool_decide
                          (is_Some (usable_path fs (d_embedding (snd nd)))))
             criminal_data))
  /\
  (let '(entries, embeddings) :=
     fst (_load_db_bundle force_reload c fs criminal_data) in
   length embeddings = length entries
   /\ forall i item, entries !! i = Some item ->
                     embedding item = embeddings !! i).
Proof.
  intros Hc. split; [apply load_all_criminals_loaded|].
  assert (aligned (fst (_load_db_bundle force_reload c fs criminal_data)))
    as Hal.
  { destruct force_reload; [apply fresh_bundle_aligned|].
    destruct c as [cached|].
    - cbn [_load_db_bundle fst].
      now apply (reachable_cache_aligned (Some cached)).
    - apply (fresh_bundle_aligned fs criminal_data None). }
  destruct (fst (_load_db_bundle force_reload c fs criminal_data))
    as [entries embeddings].
  exact Hal.
Qed.

End BundleFacts.

Lemma gallery_index_is_entry_index_witness :
  let fs : Faces.filesystem :=
    <["criminal_db/B.npy"%string := Faces.NpyArray Fixtures.unit_x]>
      (<["criminal_db/A.npy"%string := Faces.NpyArray Fixtures.zero_vec]> ∅) in
  let criminal_data :=
    [("A"%string, Fixtures.stored "criminal_db/A.npy");
     ("Gone"%string, Fixtures.stored "criminal_db/Gone.npy");
     ("B"%string, Fixtures.stored "criminal_db/B.npy")] in
  let '(entries, embeddings) :=
    fst (Adapter._load_db_bundle false None fs criminal_data) in
  List.map Faces.name entries = ["A"%string; "B"%string]
  /\ embeddings = [Fixtures.zero_vec; Fixtures.unit_x]
  /\ length embeddings = length entries
  /\ forall i item, entries !! i = Some item ->
                    Faces.embedding item = embeddings !! i.
Proof.
  cbv zeta.
  pose proof (gallery_index_is_entry_index
    (<["criminal_db/B.npy"%string := Faces.NpyArray Fixtures.unit_x]>
      (<["criminal_db/A.npy"%string := Faces.NpyArray Fixtures.zero_vec]> ∅))
    [("A"%string, Fixtures.stored "criminal_db/A.npy");
     ("Gone"%string, Fixtures.stored "criminal_db/Gone.npy");
     ("B"%string, Fixtures.stored "criminal_db/B.npy")]
    false None reach_initial) as [_ H].
  destruct (fst (Adapter._load_db_bundle _ _ _ _)) as [entries embeddings] eqn:E.
  vm_compute in E. inversion E; subst.
  destruct H as [Hl Hi].
  split; [reflexivity|]. split; [reflexivity|]. split; assumption.
Defined.

(** * Further properties of the code *)

(** ** The order of floats *)

Ltac cmp_cases :=
  repeat match goal with
  | |- context [Pos.compare_cont Eq ?a ?b] =>
      rewrite (Pos.compare_cont_spec a b Eq); simpl Pos.switch_Eq
  | |- context [Z.compare ?a ?b] => destruct (Z.compare_spec a b)
  | |- context [Pos.compare ?a ?b] => destruct (Pos.compare_spec a b)
  end.

Ltac float_cases a b c :=
  destruct a as [?|?| |? ? ?], b as [?|?| |? ? ?], c as [?|?| |? ? ?];
  simpl; try discriminate; try reflexivity;
  repeat match goal with s : bool |- _ => destruct s end;
  simpl; try discriminate; try reflexivity;
  cmp_cases; simpl; intros; try discriminate; try reflexivity; try lia.

Lemma SFleb_trans a b c :
  SFleb a b = true -> SFleb b c = true -> SFleb a c = true.
Proof. unfold SFleb. float_cases a b c. Qed.

Lemma SFleb_ltb_trans a b c :
  SFleb a b = true -> SFltb b c = true -> SFltb a c = true.
Proof. unfold SFleb, SFltb. float_cases a b c. Qed.

Lemma SFltb_leb_trans a b c :
  SFltb a b = true -> SFleb b c = true -> SFltb a c = true.
Proof. unfold SFleb, SFltb. float_cases a b c. Qed.

(** Among numbers, [not (a <= b)] is [b < a]. *)
Lemma SFleb_false_ltb a b :
  not_nan a = true -> not_nan b = true ->
  SFleb a b = false -> SFltb b a = true.
Proof.
  unfold SFleb, SFltb. rewrite (SFcompare_antisym a b).
  destruct a, b; try discriminate; simpl;
    repeat match goal with s : bool |- _ => destruct s end;
    simpl; try discriminate; try reflexivity;
    cmp_cases; simpl; intros; try discriminate; reflexivity.
Qed.

Lemma SFltb_leb a b : SFltb a b = true -> SFleb a b = true.
Proof. unfold SFleb, SFltb. now destruct (SFcompare a b) as [[]|]. Qed.

Lemma SFltb_not_leb a b : SFltb a b = true -> SFleb b a = false.
Proof. apply SFltb_not_geb. Qed.

Lemma SFleb_refl a : not_nan a = true -> SFleb a a = true.
Proof.
  unfold SFleb. destruct a as [s|s| |s m e]; try discriminate; intros _; simpl;
    try (destruct s; reflexivity); try reflexivity.
  rewrite Pos.compare_cont_spec, Z.compare_refl, Pos.compare_refl.
  now destruct s.
Qed.

(** ** More on alert throttling *)

Section AlertExtras.

Import Adapter.
Local Open Scope Q_scope.

Lemma name_in_spec name (u : list Match) :
  name_in name u = true <-> In name (List.map m_name u).
Proof.
  unfold name_in. rewrite existsb_exists. split.
  - intros (m & Hin & Heq). apply String.eqb_eq in Heq. subst.
    now apply List.in_map.
  - intros Hin. apply List.in_map_iff in Hin. destruct Hin as (m & <- & Hin).
    exists m. split; [exact Hin|apply String.eqb_refl].
Qed.

Lemma alertable_spec name :
  (String.eqb name "" || String.eqb name "Unknown") = false <-> alertable name.
Proof.
  unfold alertable. rewrite orb_false_iff, !String.eqb_neq. tauto.
Qed.

(** What the first loop keeps. *)
Lemma collect_new_spec (c : Z) now (recently : gmap string Q) matches :
  forall u n,
    n = List.map m_name u -> List.NoDup (List.map m_name u) ->
    let r := collect_new c now recently matches u n in
    snd r = List.map m_name (fst r)
    /\ List.NoDup (List.map m_name (fst r))
    /\ (exists added, fst r = u ++ added
        /\ forall m, In m added ->
             alertable (m_name m)
             /\ inject_Z c <= now - default 0 (recently !! m_name m)
             /\ ~ In (m_name m) (List.map m_name u)
             /\ exists pre post,
                  matches = pre ++ m :: post
                  /\ ~ In (m_name m) (List.map m_name pre))
    /\ (forall m, In m matches -> alertable (m_name m) ->
          inject_Z c <= now - default 0 (recently !! m_name m) ->
          In (m_name m) (List.map m_name (fst r))).
Proof.
  induction matches as [|m rest IH]; intros u n Hn Hnd; cbn [collect_new].
  - cbv zeta. cbn [fst snd]. split; [exact Hn|]. split; [exact Hnd|]. split.
    + exists []. split; [now rewrite app_nil_r|]. intros m [].
    + intros m [].
  - cbv zeta.
    assert (forall r0,
        (snd r0 = List.map m_name (fst r0)
         /\ List.NoDup (List.map m_name (fst r0))
         /\ (exists added, fst r0 = u ++ added
             /\ forall m0, In m0 added ->
                  alertable (m_name m0)
                  /\ inject_Z c <= now - default 0 (recently !! m_name m0)
                  /\ ~ In (m_name m0) (List.map m_name u)
                  /\ exists pre post,
                       rest = pre ++ m0 :: post
                       /\ ~ In (m_name m0) (List.map m_name pre))
         /\ (forall m0, In m0 rest -> alertable (m_name m0) ->
               inject_Z c <= now - default 0 (recently !! m_name m0) ->
               In (m_name m0) (List.map m_name (fst r0)))) ->
        (~ alertable (m_name m)
         \/ ~ inject_Z c <= now - default 0 (recently !! m_name m)
         \/ In (m_name m) (List.map m_name u)) ->
        snd r0 = List.map m_name (fst r0)
        /\ List.NoDup (List.map m_name (fst r0))
        /\ (exists added, fst r0 = u ++ added
            /\ forall m0, In m0 added ->
                 alertable (m_name m0)
                 /\ inject_Z c <= now - default 0 (recently !! m_name m0)
                 /\ ~ In (m_name m0) (List.map m_name u)
                 /\ exists pre post,
                      m :: rest = pre ++ m0 :: post
                      /\ ~ In (m_name m0) (List.map m_name pre))
        /\ (forall m0, In m0 (m :: rest) -> alertable (m_name m0) ->
              inject_Z c <= now - default 0 (recently !! m_name m0) ->
              In (m_name m0) (List.map m_name (fst r0)))) as Hskip.
    { intros r0 (H1 & H2 & (added & Hadd & Hprops) & H4) Hwhy.
      split; [exact H1|]. split; [exact H2|]. split.
      - exists added. split; [exact Hadd|]. intros m0 Hin.
        destruct (Hprops m0 Hin) as (Ha & Hc & Hu & pre & post & -> & Hpre).
        split; [exact Ha|]. split; [exact Hc|]. split; [exact Hu|].
        exists (m :: pre), post. split; [reflexivity|].
        cbn [List.map]. intros [Heq | Hin']; [|now apply Hpre].
        destruct Hwhy as [Hw | [Hw | Hw]].
        + apply Hw. now rewrite Heq.
        + apply Hw. now rewrite Heq.
        + apply Hu. now rewrite <- Heq.
      - intros m0 [<- | Hin] Ha Hc; [|now apply H4].
        destruct Hwhy as [Hw | [Hw | Hw]]; try contradiction.
        rewrite Hadd, List.map_app. apply List.in_or_app. now left. }
    destruct (String.eqb (m_name m) "" || String.eqb (m_name m) "Unknown")
      eqn:Hvalid.
    { apply Hskip; [now apply IH|]. left. intros Ha.
      apply alertable_spec in Ha. congruence. }
    apply alertable_spec in Hvalid.
    destruct (Qlt_le_dec _ _) as [Hlt | Hle].
    { apply Hskip; [now apply IH|]. right; left. intros Hle.
      apply (Qlt_not_le _ _ Hlt Hle). }
    destruct (name_in (m_name m) u) eqn:Hin.
    { apply Hskip; [now apply IH|]. right; right. now apply name_in_spec. }
    assert (~ In (m_name m) (List.map m_name u)) as Hfresh.
    { intros H. apply name_in_spec in H. congruence. }
    destruct (IH (u ++ [m]) (n ++ [m_name m])) as (H1 & H2 & (added & Hadd & Hprops) & H4).
    { now rewrite List.map_app, Hn. }
    { rewrite List.map_app. cbn [List.map].
      apply NoDup_ListNoDup, NoDup_app. split; [now apply NoDup_ListNoDup|].
      split; [|apply NoDup_singleton].
      intros x Hx Hx'. apply list_elem_of_singleton in Hx'. subst x.
      apply Hfresh. now apply list_elem_of_In. }
    split; [exact H1|]. split; [exact H2|]. split.
    + exists (m :: added). split; [now rewrite Hadd, <- app_assoc|].
      intros m0 [<- | Hin0].
      * split; [exact Hvalid|]. split; [exact Hle|]. split; [exact Hfresh|].
        exists [], rest. split; [reflexivity|]. intros [].
      * destruct (Hprops m0 Hin0) as (Ha & Hc & Hu & pre & post & -> & Hpre).
        split; [exact Ha|]. split; [exact Hc|]. split.
        -- intros H. apply Hu. rewrite List.map_app.
           apply List.in_or_app. now left.
        -- exists (m :: pre), post. split; [reflexivity|].
           cbn [List.map]. intros [Heq | Hin']; [|now apply Hpre].
           apply Hu. rewrite List.map_app. apply List.in_or_app. right.
           cbn [List.map]. now left.
    + intros m0 [<- | Hin0] Ha Hc; [|now apply H4].
      rewrite Hadd, <- app_assoc, List.map_app.
      apply List.in_or_app. right. cbn [app List.map]. now left.
Qed.

Lemma insert_desc_perm x l : Permutation (insert_desc x l) (x :: l).
Proof.
  induction l as [|y t IH]; [reflexivity|]. cbn [insert_desc].
  destruct (score_lt x y); [|reflexivity].
  rewrite IH. apply perm_swap.
Qed.

Lemma foldr_insert_desc_perm l : Permutation (foldr insert_desc [] l) l.
Proof.
  induction l as [|a l IH]; [reflexivity|].
  cbn [foldr]. rewrite insert_desc_perm. now constructor.
Qed.

(** The sort rearranges, and nothing else. *)
Lemma sort_by_score_perm l r : sort_by_score l = Ok r -> Permutation r l.
Proof.
  unfold sort_by_score. destruct l as [|x [|y t]];
    try (intros H; inversion H; reflexivity).
  destruct (forallb _ _); [|discriminate].
  intros H. injection H as <-. exact (foldr_insert_desc_perm (x :: y :: t)).
Qed.

End AlertExtras.

Section AlertBatch.

Import Adapter.
Local Open Scope Q_scope.

(** X1. The matches an evaluation lets through carry pairwise different
    names, none of them empty or "Unknown"; each is a match of the batch
    whose name has passed the per-identity cooldown, and it is the first
    match of the batch with that name. *)
Theorem alert_batch_distinct_first (c : Z) matches now st fired :
  fst (_notify_alert c matches now st) = Ok fired ->
  List.NoDup (List.map m_name fired)
  /\ forall m, In m fired ->
       alertable (m_name m)
       /\ inject_Z c <= now - default 0 (_recently_alerted_criminals st !! m_name m)
       /\ exists pre post, matches = pre ++ m :: post
                           /\ ~ In (m_name m) (List.map m_name pre).
Proof.
  intros Hrun.
  destruct (notify_alert_cases c matches now st)
    as [[H _] | (_ & _ & _ & H)]; rewrite H in Hrun; cbn [fst] in Hrun.
  { injection Hrun as <-. split; [constructor|intros m []]. }
  apply sort_by_score_perm in Hrun.
  destruct (collect_new_spec c now (_recently_alerted_criminals st) matches
              [] [] eq_refl (List.NoDup_nil _))
    as (_ & Hnd & (added & Hadd & Hprops) & _).
  cbn [app] in Hadd. rewrite Hadd in Hrun, Hnd. split.
  - eapply Permutation_NoDup; [|exact Hnd].
    apply Permutation_map. now symmetry.
  - intros m Hin. apply (Permutation_in _ Hrun) in Hin.
    destruct (Hprops m Hin) as (Ha & Hc & _ & Hfirst). auto.
Qed.

Lemma alert_batch_distinct_first_witness :
  fst (_notify_alert 30 Samples.batch 1000 initial_state)
  = Ok [Samples.Y_high; Samples.X_low]
  /\ List.NoDup (List.map m_name [Samples.Y_high; Samples.X_low]).
Proof.
  assert (fst (_notify_alert 30 Samples.batch 1000 initial_state)
          = Ok [Samples.Y_high; Samples.X_low]) as H
    by (vm_compute; reflexivity).
  split; [exact H|].
  exact (proj1 (alert_batch_distinct_first 30 Samples.batch 1000
                  initial_state _ H)).
Defined.

(** X2. An evaluation that fires leaves no one out: every match of the
    batch with a usable name whose per-identity cooldown has elapsed is
    represented, by name, among the matches let through. *)
Theorem alert_batch_complete (c : Z) matches now st fired m :
  fst (_notify_alert c matches now st) = Ok fired -> fired <> [] ->
  In m matches -> alertable (m_name m) ->
  inject_Z c <= now - default 0 (_recently_alerted_criminals st !! m_name m) ->
  In (m_name m) (List.map m_name fired).
Proof.
  intros Hrun Hne Hin Ha Hc.
  destruct (notify_alert_cases c matches now st)
    as [[H _] | (_ & _ & _ & H)]; rewrite H in Hrun; cbn [fst] in Hrun.
  { injection Hrun as <-. now elim Hne. }
  apply sort_by_score_perm in Hrun.
  destruct (collect_new_spec c now (_recently_alerted_criminals st) matches
              [] [] eq_refl (List.NoDup_nil _)) as (_ & _ & _ & Hall).
  eapply Permutation_in; [apply Permutation_map; symmetry; exact Hrun|].
  now apply Hall.
Qed.

Lemma alert_batch_complete_witness :
  In "Y"%string
     (List.map m_name [Samples.Y_high; Samples.X_low]).
Proof.
  apply (alert_batch_complete 30 Samples.batch 1000 initial_state
           [Samples.Y_high; Samples.X_low] Samples.Y_high).
  - vm_compute. reflexivity.
  - discriminate.
  - vm_compute. tauto.
  - split; discriminate.
  - vm_compute. discriminate.
Defined.

End AlertBatch.

Section AlertOrder.

Import Adapter.
Local Open Scope Q_scope.

Lemma score_lt_scored_false x y :
  scored x -> scored y -> score_lt x y = false -> score_ge x y.
Proof.
  intros (sx & Hx & Nx) (sy & Hy & Ny). unfold score_lt. rewrite Hx, Hy.
  intros Hlt. exists sx, sy. split; [exact Hx|]. split; [exact Hy|].
  destruct (SFleb sy sx) eqn:E; [reflexivity|].
  apply (SFleb_false_ltb sy sx Ny Nx) in E. congruence.
Qed.

Lemma score_lt_true_ge x y : score_lt x y = true -> score_ge y x.
Proof.
  unfold score_lt. destruct (m_score x) as [sx|] eqn:Hx; [|discriminate].
  destruct (m_score y) as [sy|] eqn:Hy; [|discriminate].
  intros H. exists sy, sx. repeat split; try assumption. now apply SFltb_leb.
Qed.

Lemma score_ge_trans x y z : score_ge x y -> score_ge y z -> score_ge x z.
Proof.
  intros (sx & sy & Hx & Hy & Hxy) (sy' & sz & Hy' & Hz & Hyz).
  rewrite Hy in Hy'. injection Hy' as <-.
  exists sx, sz. repeat split; try assumption.
  exact (SFleb_trans _ _ _ Hyz Hxy).
Qed.

Lemma insert_desc_sorted x l :
  scored x -> Forall scored l ->
  StronglySorted score_ge l -> StronglySorted score_ge (insert_desc x l).
Proof.
  intros Hx Hl Hs. induction Hs as [|y t Hs IH Hy]; cbn [insert_desc].
  - constructor; constructor.
  - apply Forall_cons in Hl. destruct Hl as [Hsy Hl].
    destruct (score_lt x y) eqn:E.
    + constructor; [now apply IH|].
      eapply Permutation_Forall; [symmetry; apply insert_desc_perm|].
      constructor; [now apply score_lt_true_ge|exact Hy].
    + pose proof (score_lt_scored_false x y Hx Hsy E) as Hxy.
      constructor; [now constructor|].
      constructor; [exact Hxy|].
      eapply Forall_impl; [exact Hy|].
      intros z Hz. exact (score_ge_trans _ _ _ Hxy Hz).
Qed.

Lemma foldr_insert_desc_sorted l :
  Forall scored l -> StronglySorted score_ge (foldr insert_desc [] l).
Proof.
  induction 1 as [|x l Hx Hl IH]; [constructor|].
  cbn [foldr]. apply insert_desc_sorted; [exact Hx| |exact IH].
  eapply Permutation_Forall; [symmetry; apply foldr_insert_desc_perm|exact Hl].
Qed.

(** X3. When every match of the batch carries a score that is a number,
    the evaluation does not raise and what it lets through is in
    descending order of score: each match has a score at least that of
    every later one. The first one, the subject of the alert, so has a
    score at least that of every other. *)
Theorem primary_match_has_top_score (c : Z) matches now st :
  Forall scored matches ->
  exists fired,
    fst (_notify_alert c matches now st) = Ok fired
    /\ StronglySorted score_ge fired
    /\ forall primary others, fired = primary :: others ->
         Forall (score_ge primary) others.
Proof.
  intros Hall.
  assert (forall fired, StronglySorted score_ge fired ->
            forall primary others, fired = primary :: others ->
              Forall (score_ge primary) others) as Hhead.
  { intros fired Hsorted p o Heq. rewrite Heq in Hsorted.
    now apply StronglySorted_inv in Hsorted. }
  destruct (notify_alert_cases c matches now st)
    as [[H _] | (_ & _ & _ & H)]; rewrite H; cbn [fst].
  { exists []. split; [reflexivity|]. split; [constructor|discriminate]. }
  destruct (collect_new_spec c now (_recently_alerted_criminals st) matches
              [] [] eq_refl (List.NoDup_nil _))
    as (_ & _ & (added & Hadd & Hprops) & _).
  cbn [app] in Hadd.
  assert (Forall scored added) as Hsc.
  { apply Forall_forall. intros m Hm. apply list_elem_of_In in Hm.
    destruct (Hprops m Hm) as (_ & _ & _ & pre & post & Hsplit & _).
    rewrite Forall_forall in Hall. apply Hall. rewrite Hsplit.
    apply list_elem_of_In, List.in_or_app. right. now left. }
  rewrite Hadd. destruct added as [|x [|y t]].
  - exists []. split; [reflexivity|]. split; [constructor|discriminate].
  - assert (StronglySorted score_ge [x]) as Hsorted
      by (constructor; constructor).
    exists [x]. split; [reflexivity|]. split; [exact Hsorted|].
    exact (Hhead [x] Hsorted).
  - unfold sort_by_score.
    assert (forallb (fun m => bool_decide (is_Some (m_score m))) (x :: y :: t)
            = true) as ->.
    { apply forallb_forall. intros m Hm. apply bool_decide_eq_true.
      rewrite Forall_forall in Hsc.
      destruct (Hsc m) as (s & Hs & _); [now apply list_elem_of_In|].
      rewrite Hs. eauto. }
    pose proof (foldr_insert_desc_sorted (x :: y :: t) Hsc) as Hsorted.
    eexists. split; [reflexivity|]. split; [exact Hsorted|].
    exact (Hhead _ Hsorted).
Qed.

Lemma primary_match_has_top_score_witness :
  exists fired,
    fst (_notify_alert 30 Samples.batch 1000 initial_state) = Ok fired
    /\ StronglySorted score_ge fired
    /\ forall primary others, fired = primary :: others ->
         Forall (score_ge primary) others.
Proof.
  apply (primary_match_has_top_score 30 Samples.batch 1000 initial_state).
  repeat constructor; (eexists; split; [reflexivity|reflexivity]).
Defined.

End AlertOrder.

Section AlertStateFacts.

Import Adapter.
Local Open Scope Q_scope.

Lemma foldl_stamp_lookup (now : Q) (names : list string) (d : gmap string Q) k :
  foldl (fun d name => <[name := now]> d) d names !! k =
  if bool_decide (k ∈ names) then Some now else d !! k.
Proof.
  revert d. induction names as [|n names IH]; intros d; cbn [foldl].
  - rewrite bool_decide_eq_false_2; [reflexivity|]. apply not_elem_of_nil.
  - rewrite IH. destruct (decide (k ∈ names)) as [Hin | Hnin].
    + rewrite !bool_decide_eq_true_2; [reflexivity| |exact Hin].
      apply elem_of_cons; now right.
    + rewrite (bool_decide_eq_false_2 _ Hnin).
      destruct (decide (n = k)) as [-> | Hne].
      * rewrite lookup_insert_eq.
        rewrite bool_decide_eq_true_2; [reflexivity|]. apply elem_of_cons; now left.
      * rewrite lookup_insert_ne by exact Hne.
        rewrite bool_decide_eq_false_2; [reflexivity|].
        intros Hin. apply elem_of_cons in Hin.
        destruct Hin as [-> | Hin]; [now elim Hne|contradiction].
Qed.

(** The map an evaluation leaves when it gets past the checks. *)
Lemma notify_alert_fired_state (c : Z) matches now st :
  fst (_notify_alert c matches now st) <> Ok [] ->
  let names := snd (collect_new c now (_recently_alerted_criminals st)
                      matches [] []) in
  forall k v,
    _recently_alerted_criminals (snd (_notify_alert c matches now st)) !! k
    = Some v <->
    now - inject_Z (c * 2) < v
    /\ ((In k names /\ v = now)
        \/ (~ In k names /\ _recently_alerted_criminals st !! k = Some v)).
Proof.
  intros Hne names k v.
  destruct (notify_alert_cases c matches now st)
    as [[H _] | (_ & _ & _ & H)]; rewrite H in *; [now elim Hne|].
  cbn [snd _recently_alerted_criminals].
  rewrite map_lookup_filter_Some, foldl_stamp_lookup. cbn [snd]. fold names.
  rewrite <- (list_elem_of_In names k).
  destruct (decide (k ∈ names)) as [Hin | Hnin].
  - rewrite bool_decide_eq_true_2 by exact Hin. split.
    + intros [Hv Hc]. injection Hv as <-. split; [exact Hc|]. now left.
    + intros [Hc [[_ ->] | [Hn _]]]; [now split|contradiction].
  - rewrite bool_decide_eq_false_2 by exact Hnin. split.
    + intros [Hv Hc]. split; [exact Hc|]. now right.
    + intros [Hc [[Hn _] | [_ Hv]]]; [contradiction|now split].
Qed.

(** X4. The state a fired alert leaves, for a positive cooldown:
    [_last_alert_time] is the time of the evaluation, every name let
    through is stamped with that time, and a name not let through keeps
    its timestamp exactly when it is younger than twice the cooldown and
    is dropped otherwise. *)
Theorem fired_alert_state (c : Z) matches now st fired :
  (0 < c)%Z ->
  fst (_notify_alert c matches now st) = Ok fired -> fired <> [] ->
  let st' := snd (_notify_alert c matches now st) in
  _last_alert_time st' = now
  /\ (forall m, In m fired ->
        _recently_alerted_criminals st' !! m_name m = Some now)
  /\ (forall k v, ~ In k (List.map m_name fired) ->
        _recently_alerted_criminals st' !! k = Some v <->
        _recently_alerted_criminals st !! k = Some v
        /\ now - inject_Z (2 * c) < v).
Proof.
  intros Hc Hrun Hne st'.
  assert (fst (_notify_alert c matches now st) <> Ok []) as Hfired.
  { rewrite Hrun. intros H. injection H as ->. now elim Hne. }
  pose proof (notify_alert_fired_state c matches now st Hfired) as Hst.
  cbv zeta in Hst.
  assert (forall k, In k (List.map m_name fired) <->
                    In k (snd (collect_new c now
                                 (_recently_alerted_criminals st) matches [] [])))
    as Hnames.
  { destruct (notify_alert_cases c matches now st)
      as [[H _] | (_ & _ & _ & H)]; rewrite H in Hrun; cbn [fst] in Hrun.
    { injection Hrun as <-. now elim Hne. }
    apply sort_by_score_perm in Hrun.
    destruct (collect_new_spec c now (_recently_alerted_criminals st) matches
                [] [] eq_refl (List.NoDup_nil _)) as (Hn & _).
    intros k. rewrite Hn. split; apply Permutation_in, Permutation_map;
      [exact Hrun|now symmetry]. }
  assert (now - inject_Z (c * 2) < now) as Hcut.
  { assert (0 < inject_Z (c * 2)) as H; [|lra].
    change 0 with (inject_Z 0). rewrite <- Zlt_Qlt. lia. }
  split; [now apply notify_alert_fired_time|]. split.
  - intros m Hin. apply Hst. split; [exact Hcut|]. left. split; [|reflexivity].
    apply Hnames. now apply List.in_map.
  - intros k v Hk. subst st'. rewrite Hst, (Z.mul_comm 2 c). split.
    + intros [Hv [[Hin _] | [_ Hold]]]; [|now split].
      elim Hk. now apply Hnames.
    + intros [Hold Hv]. split; [exact Hv|]. right. split; [|exact Hold].
      intros Hin. apply Hk. now apply Hnames.
Qed.

Lemma fired_alert_state_witness :
  let st' := snd (_notify_alert 30 Samples.batch 1000 initial_state) in
  _last_alert_time st' = 1000
  /\ _recently_alerted_criminals st' !! "X"%string = Some 1000
  /\ _recently_alerted_criminals st' !! "Y"%string = Some 1000.
Proof.
  destruct (fired_alert_state 30 Samples.batch 1000 initial_state
              [Samples.Y_high; Samples.X_low]) as (Ht & Hs & _).
  - lia.
  - vm_compute. reflexivity.
  - discriminate.
  - cbv zeta. split; [exact Ht|]. split.
    + apply (Hs Samples.X_low). right. now left.
    + apply (Hs Samples.Y_high). now left.
Defined.

(** One evaluation keeps the timestamps bounded by [_last_alert_time]. *)
Lemma stamps_bounded_step (c : Z) matches now st :
  (0 <= c)%Z -> stamps_bounded st ->
  stamps_bounded (snd (_notify_alert c matches now st)).
Proof.
  intros Hc [Hpos Hbound].
  destruct (notify_alert_cases c matches now st)
    as [[H _] | (_ & Hu & Hle & H)].
  { rewrite H. now split. }
  assert (0 <= inject_Z c) as Hc'.
  { change 0 with (inject_Z 0). now rewrite <- Zle_Qle. }
  assert (fst (_notify_alert c matches now st) <> Ok []) as Hfired.
  { rewrite H. cbn [fst]. intros Hs. apply sort_by_score_nil in Hs.
    contradiction. }
  pose proof (notify_alert_fired_state c matches now st Hfired) as Hst.
  pose proof (notify_alert_fired_time c matches now st Hfired) as Ht.
  cbv zeta in Hst. split; rewrite Ht; [lra|].
  intros k v Hk. apply Hst in Hk.
  destruct Hk as [_ [[_ ->] | [_ Hold]]]; [lra|].
  apply Hbound in Hold. lra.
Qed.

Lemma stamps_bounded_initial : stamps_bounded initial_state.
Proof.
  split; [cbn; lra|]. intros k v Hk. cbn in Hk.
  now rewrite lookup_empty in Hk.
Qed.

(** X5. With a cooldown that is not negative, every state the globals
    can reach keeps [_last_alert_time] at or above zero and at or above
    every timestamp of the map. *)
Theorem alert_state_stamps_bounded (c : Z) st :
  (0 <= c)%Z -> alert_reachable c st -> stamps_bounded st.
Proof.
  intros Hc Hreach. induction Hreach as [|st matches now _ IH].
  - exact stamps_bounded_initial.
  - now apply stamps_bounded_step.
Qed.

Lemma alert_state_stamps_bounded_witness :
  stamps_bounded
    (snd (_notify_alert 30 Samples.batch 1000 initial_state)).
Proof.
  apply (alert_state_stamps_bounded 30); [lia|].
  apply alert_reach_notify, alert_reach_initial.
Defined.

(** X6. In a reachable state, with a cooldown that is not negative, the
    per-identity cooldown never holds a name back on its own: whenever an
    evaluation fires, every match of the batch with a usable name is
    represented among the matches let through. *)
Theorem fired_alert_covers_every_name (c : Z) matches now st fired m :
  (0 <= c)%Z -> alert_reachable c st ->
  fst (_notify_alert c matches now st) = Ok fired -> fired <> [] ->
  In m matches -> alertable (m_name m) ->
  In (m_name m) (List.map m_name fired).
Proof.
  intros Hc Hreach Hrun Hne Hin Ha.
  assert (stamps_bounded st) as [Hpos Hbound].
  { clear Hrun Hin Ha. induction Hreach as [|st0 ms0 now0 _ IH];
      [exact stamps_bounded_initial|now apply stamps_bounded_step]. }
  destruct (notify_alert_cases c matches now st)
    as [[H _] | (_ & _ & Hle & H)].
  { rewrite H in Hrun. injection Hrun as <-. now elim Hne. }
  assert (0 <= inject_Z c) as Hc'.
  { change 0 with (inject_Z 0). now rewrite <- Zle_Qle. }
  rewrite H in Hrun. cbn [fst] in Hrun. apply sort_by_score_perm in Hrun.
  destruct (collect_new_spec c now (_recently_alerted_criminals st) matches
              [] [] eq_refl (List.NoDup_nil _)) as (_ & _ & _ & Hall).
  eapply Permutation_in; [apply Permutation_map; symmetry; exact Hrun|].
  apply Hall; [exact Hin|exact Ha|].
  destruct (_recently_alerted_criminals st !! m_name m) as [v|] eqn:Hv;
    unfold default; cbn [from_option id]; [|lra].
  apply Hbound in Hv. lra.
Qed.

Lemma fired_alert_covers_every_name_witness :
  In "X"%string
     (List.map m_name [Samples.Y_high; Samples.X_low]).
Proof.
  apply (fired_alert_covers_every_name 30 Samples.batch 1040
           (snd (_notify_alert 30 [Samples.X_low] 1000 initial_state))
           [Samples.Y_high; Samples.X_low] Samples.X_high).
  - lia.
  - apply alert_reach_notify, alert_reach_initial.
  - vm_compute. reflexivity.
  - discriminate.
  - vm_compute. tauto.
  - split; discriminate.
Defined.

End AlertStateFacts.

(** ** More on the matcher *)

Section MatcherExtras.

Local Open Scope nat_scope.

(** How a reported match came about. *)
Lemma match_embedding_inv embedding known threshold i s :
  outcome (Detector.match_embedding embedding known threshold)
  = Ok (Some i, s) ->
  exists e stack sims,
    embedding = Some e
    /\ SFeqb (Np.norm (Np.array_f32 e)) F32.zero = false
    /\ outcome (Np.vstack (Detector.normalize_known known)) = Ok stack
    /\ outcome (Np.matvec stack
                  (Np.div_scalar (Np.array_f32 e) (Np.norm (Np.array_f32 e))))
       = Ok sims
    /\ outcome (Np.argmax sims) = Ok i
    /\ F32.geb (nth i sims F32.zero) (F32.cast threshold) = true
    /\ s = F32.to_py_float (nth i sims F32.zero).
Proof.
  unfold Detector.match_embedding.
  destruct embedding as [e|], known as [|k ks]; try discriminate.
  remember (Detector.normalize_known (k :: ks)) as nk eqn:En.
  cbv beta iota zeta.
  destruct (SFeqb _ _) eqn:Hz; [discriminate|].
  destruct nk as [|n ns]; [discriminate|].
  rewrite outcome_bind.
  destruct (outcome (Np.vstack (n :: ns))) as [stack|x] eqn:Hs; [|discriminate].
  rewrite outcome_bind.
  destruct (outcome (Np.matvec stack _)) as [sims|x] eqn:Hm; [|discriminate].
  rewrite outcome_bind.
  destruct (outcome (Np.argmax sims)) as [j|x] eqn:Ha; [|discriminate].
  destruct (F32.geb _ _) eqn:Hg; [|discriminate].
  intros H. injection H as -> <-.
  exists e, stack, sims. repeat split; assumption.
Qed.

Lemma vstack_ok rows stack :
  outcome (Np.vstack rows) = Ok stack ->
  stack = rows
  /\ forall r r', In r rows -> In r' rows -> length r = length r'.
Proof.
  unfold Np.vstack. destruct rows as [|r0 rs]; [discriminate|].
  destruct (forallb _ _) eqn:Hall; [|discriminate].
  intros H. injection H as <-. split; [reflexivity|].
  assert (forall r, In r (r0 :: rs) -> length r = length r0) as Hlen.
  { intros r [<- | Hin]; [reflexivity|].
    rewrite forallb_forall in Hall. apply Nat.eqb_eq. now apply Hall. }
  intros r r' Hr Hr'. now rewrite (Hlen r Hr), (Hlen r' Hr').
Qed.

Lemma matvec_ok stack emb sims :
  outcome (Np.matvec stack emb) = Ok sims ->
  sims = List.map (fun row => Np.dot row emb) stack
  /\ forall r, hd_error stack = Some r -> length r = length emb.
Proof.
  unfold Np.matvec. destruct stack as [|r rs].
  - intros H. injection H as <-. split; [reflexivity|discriminate].
  - destruct (Nat.eqb _ _) eqn:E; [|discriminate].
    intros H. injection H as <-. split; [reflexivity|].
    intros r' Hr'. injection Hr' as <-. now apply Nat.eqb_eq.
Qed.

Lemma argmax_from_bound l : forall mp best i,
  best < i -> Np.argmax_from mp best i l < i + length l.
Proof.
  induction l as [|x t IH]; intros mp best i Hb; cbn [Np.argmax_from length].
  - lia.
  - destruct (SFleb x mp).
    + specialize (IH mp best (S i)). lia.
    + destruct (F32.is_nan x); [lia|].
      specialize (IH x i (S i)). lia.
Qed.

Lemma argmax_bound l i : outcome (Np.argmax l) = Ok i -> i < length l.
Proof.
  destruct l as [|x t]; [discriminate|]. cbn.
  intros H. injection H as <-.
  destruct (F32.is_nan x); [lia|].
  pose proof (argmax_from_bound t x 0 1). lia.
Qed.

Lemma normalize_known_length known :
  length (Detector.normalize_known known) <= length known.
Proof.
  induction known as [|r rest IH]; [reflexivity|].
  cbn [Detector.normalize_known length]. destruct (SFeqb _ _); cbn [length]; lia.
Qed.

(** X7. The index [match_embedding] reports is always a valid position:
    it is below the number of gallery rows that survived normalisation,
    which is at most the size of the gallery. *)
Theorem match_index_in_range embedding known threshold i s :
  outcome (Detector.match_embedding embedding known threshold)
  = Ok (Some i, s) ->
  i < length (Detector.normalize_known known)
  /\ length (Detector.normalize_known known) <= length known.
Proof.
  intros H. split; [|apply normalize_known_length].
  apply match_embedding_inv in H.
  destruct H as (e & stack & sims & _ & _ & Hs & Hm & Ha & _).
  apply vstack_ok in Hs. destruct Hs as [-> _].
  apply matvec_ok in Hm. destruct Hm as [-> _].
  apply argmax_bound in Ha. now rewrite length_map in Ha.
Qed.

Lemma match_index_in_range_witness :
  0 < length (Detector.normalize_known
                (Adapter.collect_embeddings Fixtures.gallery_zero_first))
  /\ length (Detector.normalize_known
               (Adapter.collect_embeddings Fixtures.gallery_zero_first)) <= 2.
Proof.
  apply (match_index_in_range (Some Fixtures.unit_x)
           (Adapter.collect_embeddings Fixtures.gallery_zero_first)
           Adapter.threshold_0_55 0 (F32.to_py_float (F32.of_Z 1))).
  vm_compute. reflexivity.
Defined.

End MatcherExtras.

Section ArgmaxFacts.

Local Open Scope nat_scope.

Local Abbreviation at_ := (fun (l : vec) (j : nat) => nth j l F32.zero).

(** The scan of [np.argmax] over numbers keeps the first maximum seen. *)
Lemma argmax_from_spec t : forall pre mp best,
  Forall (fun x => not_nan x = true) t ->
  best < length pre -> at_ pre best = mp -> not_nan mp = true ->
  (forall j, j < length pre -> SFleb (at_ pre j) mp = true) ->
  (forall j, j < best -> SFltb (at_ pre j) mp = true) ->
  let r := Np.argmax_from mp best (length pre) t in
  r < length (pre ++ t)
  /\ (forall j, j < length (pre ++ t) ->
        SFleb (at_ (pre ++ t) j) (at_ (pre ++ t) r) = true)
  /\ (forall j, j < r -> SFltb (at_ (pre ++ t) j) (at_ (pre ++ t) r) = true).
Proof.
  induction t as [|x t IH]; intros pre mp best Hn Hb Hmp Hnn Hle Hlt.
  - cbn [Np.argmax_from]. rewrite app_nil_r, Hmp. auto.
  - apply Forall_cons in Hn. destruct Hn as [Hx Ht].
    cbn [Np.argmax_from].
    replace (pre ++ x :: t) with ((pre ++ [x]) ++ t)
      by now rewrite <- app_assoc.
    replace (S (length pre)) with (length (pre ++ [x]))
      by (rewrite length_app; cbn; lia).
    assert (forall j, j < length pre -> at_ (pre ++ [x]) j = at_ pre j) as Hold.
    { intros j Hj. now apply app_nth1. }
    assert (at_ (pre ++ [x]) (length pre) = x) as Hnew.
    { cbv beta. rewrite app_nth2 by lia. now rewrite Nat.sub_diag. }
    destruct (SFleb x mp) eqn:E.
    + apply IH; try assumption.
      * rewrite length_app; cbn; lia.
      * now rewrite Hold.
      * intros j Hj. rewrite length_app in Hj. cbn in Hj.
        destruct (Nat.eq_dec j (length pre)) as [-> | Hne].
        -- now rewrite Hnew.
        -- rewrite Hold by lia. apply Hle. lia.
      * intros j Hj. rewrite Hold by lia. now apply Hlt.
    + assert (F32.is_nan x = false) as ->.
      { unfold not_nan in Hx. now destruct (F32.is_nan x). }
      pose proof (SFleb_false_ltb x mp Hx Hnn E) as Hgt.
      apply IH; try assumption.
      * rewrite length_app; cbn; lia.
      * intros j Hj. rewrite length_app in Hj. cbn in Hj.
        destruct (Nat.eq_dec j (length pre)) as [-> | Hne].
        -- rewrite Hnew. now apply SFleb_refl.
        -- rewrite Hold by lia. apply SFltb_leb.
           eapply SFleb_ltb_trans; [|exact Hgt]. apply Hle. lia.
      * intros j Hj. rewrite Hold by lia.
        eapply SFleb_ltb_trans; [|exact Hgt]. now apply Hle.
Qed.

Lemma argmax_first_maximum l i :
  Forall (fun x => not_nan x = true) l ->
  outcome (Np.argmax l) = Ok i ->
  (forall j, j < length l -> SFleb (at_ l j) (at_ l i) = true)
  /\ (forall j, j < i -> SFltb (at_ l j) (at_ l i) = true).
Proof.
  destruct l as [|x t]; [discriminate|].
  intros Hn H. apply Forall_cons in Hn. destruct Hn as [Hx Ht].
  cbn in H. injection H as <-.
  assert (F32.is_nan x = false) as ->.
  { unfold not_nan in Hx. now destruct (F32.is_nan x). }
  assert (0 < length [x]) as H0 by (cbn; lia).
  pose proof (argmax_from_spec t [x] x 0 Ht H0 eq_refl Hx) as H.
  destruct H as (_ & H1 & H2).
  - intros [|j] Hj; [|cbn in Hj; lia]. now apply SFleb_refl.
  - intros j Hj. lia.
  - split; assumption.
Qed.

End ArgmaxFacts.

Section BestMatch.

Local Open Scope nat_scope.

Variable linalg_norm : vec -> spec_float.
Variable matmul : list vec -> vec -> vec.

Local Abbreviation similarities := (Blas.similarities linalg_norm matmul).
Local Abbreviation at_ := (fun (l : vec) (j : nat) => nth j l F32.zero).

Lemma blas_matvec_ok stack emb sims :
  outcome (Blas.matvec matmul stack emb) = Ok sims ->
  stack <> [] ->
  sims = matmul stack emb
  /\ forall r, hd_error stack = Some r -> length r = length emb.
Proof.
  unfold Blas.matvec. destruct stack as [|r rs]; [congruence|].
  destruct (Nat.eqb _ _) eqn:E; [|discriminate].
  intros H _. injection H as <-. split; [reflexivity|].
  intros r' Hr'. injection Hr' as <-. now apply Nat.eqb_eq.
Qed.

(** How a reported match came about, whatever the library computes. *)
Lemma blas_match_embedding_inv embedding known threshold i s :
  outcome (Blas.match_embedding linalg_norm matmul embedding known threshold)
  = Ok (Some i, s) ->
  exists e,
    embedding = Some e
    /\ SFeqb (linalg_norm (Np.array_f32 e)) F32.zero = false
    /\ (forall r, hd_error (Blas.normalize_known linalg_norm known) = Some r ->
                  length r = length (Blas.normalized linalg_norm e))
    /\ outcome (Np.argmax
                  (matmul (Blas.normalize_known linalg_norm known)
                     (Blas.normalized linalg_norm e))) = Ok i
    /\ F32.geb (at_ (matmul (Blas.normalize_known linalg_norm known)
                       (Blas.normalized linalg_norm e)) i)
               (F32.cast threshold) = true
    /\ s = F32.to_py_float
             (at_ (matmul (Blas.normalize_known linalg_norm known)
                     (Blas.normalized linalg_norm e)) i).
Proof.
  unfold Blas.match_embedding, Blas.normalized.
  destruct embedding as [e|], known as [|k ks]; try discriminate.
  remember (Blas.normalize_known linalg_norm (k :: ks)) as nk eqn:En.
  cbv beta iota zeta.
  destruct (SFeqb _ _) eqn:Hz; [discriminate|].
  destruct nk as [|n ns]; [discriminate|].
  rewrite outcome_bind.
  destruct (outcome (Np.vstack (n :: ns))) as [stack|x] eqn:Hs; [|discriminate].
  apply vstack_ok in Hs. destruct Hs as [-> _].
  rewrite outcome_bind.
  destruct (outcome (Blas.matvec matmul (n :: ns) _)) as [sims|x] eqn:Hm;
    [|discriminate].
  apply blas_matvec_ok in Hm; [|discriminate]. destruct Hm as [-> Hshape].
  rewrite outcome_bind.
  destruct (outcome (Np.argmax _)) as [j|x] eqn:Ha; [|discriminate].
  destruct (F32.geb _ _) eqn:Hg; [|discriminate].
  intros H. injection H as -> <-.
  exists e. split; [reflexivity|]. split; [exact Hz|].
  split; [exact Hshape|].
  split; [exact Ha|]. split; [exact Hg|reflexivity].
Qed.

Lemma blas_normalize_known_no_zero known :
  Forall (Blas.nonzero_norm linalg_norm) known ->
  Blas.normalize_known linalg_norm known
  = List.map (Blas.normalized linalg_norm) known.
Proof.
  induction 1 as [|ref rest Hz _ IH]; [reflexivity|].
  cbn [Blas.normalize_known List.map]. unfold Blas.nonzero_norm in Hz.
  now rewrite Hz, IH.
Qed.

(** X8. Whatever norm and product the library computes: when no gallery
    vector has zero norm, the product returns one similarity per
    gallery vector and none of them is NaN, the index [match_embedding]
    reports is a gallery index; the score returned is the similarity at
    that index, as a Python float, and is at least the threshold
    rounded to float32; no gallery vector has a larger similarity, and
    every earlier one has a strictly smaller one (the first maximum
    wins). *)
Theorem match_is_first_best_entry query known threshold i s :
  Forall (Blas.nonzero_norm linalg_norm) known ->
  length (similarities query known) = length known ->
  Forall (fun x => not_nan x = true) (similarities query known) ->
  outcome (Blas.match_embedding linalg_norm matmul (Some query) known
             threshold)
  = Ok (Some i, s) ->
  i < length known
  /\ s = F32.to_py_float (at_ (similarities query known) i)
  /\ SFleb (F32.cast threshold) (at_ (similarities query known) i) = true
  /\ (forall j, j < length known ->
        SFleb (at_ (similarities query known) j)
              (at_ (similarities query known) i) = true)
  /\ (forall j, j < i ->
        SFltb (at_ (similarities query known) j)
              (at_ (similarities query known) i) = true).
Proof.
  intros Hnz Hlen Hnn Hrun. apply blas_match_embedding_inv in Hrun.
  destruct Hrun as (e & He & _ & _ & Ha & Hg & ->).
  injection He as <-.
  rewrite (blas_normalize_known_no_zero known Hnz) in Ha, Hg |- *.
  fold (Blas.similarities linalg_norm matmul query known) in Ha, Hg |- *.
  pose proof (argmax_bound _ _ Ha) as Hi. rewrite Hlen in Hi.
  destruct (argmax_first_maximum (similarities query known) i Hnn Ha)
    as [Hmax Hfirst].
  rewrite Hlen in Hmax.
  split; [exact Hi|]. split; [reflexivity|]. split; [exact Hg|].
  split; [exact Hmax|exact Hfirst].
Qed.

End BestMatch.

Lemma match_is_first_best_entry_witness :
  (1 < 3)%nat
  /\ F32.to_py_float (F32.of_Z 1)
     = F32.to_py_float
         (nth 1 (Blas.similarities Np.norm Blas.sequential_matmul
                   Fixtures.unit_x
                   [Samples.diagonal; Fixtures.unit_x; Fixtures.unit_x])
              F32.zero)
  /\ SFltb (nth 0 (Blas.similarities Np.norm Blas.sequential_matmul
                     Fixtures.unit_x
                     [Samples.diagonal; Fixtures.unit_x; Fixtures.unit_x])
                F32.zero)
           (nth 1 (Blas.similarities Np.norm Blas.sequential_matmul
                     Fixtures.unit_x
                     [Samples.diagonal; Fixtures.unit_x; Fixtures.unit_x])
                F32.zero) = true.
Proof.
  assert (Forall (Blas.nonzero_norm Np.norm)
            [Samples.diagonal; Fixtures.unit_x; Fixtures.unit_x]) as H1
    by (repeat (constructor; [vm_compute; reflexivity|]); constructor).
  assert (Forall (fun x => not_nan x = true)
            (Blas.similarities Np.norm Blas.sequential_matmul Fixtures.unit_x
               [Samples.diagonal; Fixtures.unit_x; Fixtures.unit_x])) as H2
    by (vm_compute; repeat (constructor; [reflexivity|]); constructor).
  destruct (match_is_first_best_entry Np.norm Blas.sequential_matmul
              Fixtures.unit_x
              [Samples.diagonal; Fixtures.unit_x; Fixtures.unit_x]
              Adapter.threshold_0_55 1 (F32.to_py_float (F32.of_Z 1))
              H1 eq_refl H2 eq_refl) as (Hi & Hs & _ & _ & Hfirst).
  split; [exact Hi|]. split; [exact Hs|]. apply (Hfirst 0%nat). lia.
Defined.

Section MatcherEdges.

Import Adapter.
Local Open Scope nat_scope.

Lemma add_nan_r x : F32.add x S754_nan = S754_nan.
Proof. now destruct x. Qed.

Lemma mul_nan_r x : F32.mul x S754_nan = S754_nan.
Proof. now destruct x. Qed.

Lemma div_nan_r x : F32.div x S754_nan = S754_nan.
Proof. now destruct x. Qed.

Lemma dot_from_nan (l : list (spec_float * spec_float)) :
  fold_left (fun acc xy => F32.add acc (F32.mul (fst xy) (snd xy))) l S754_nan
  = S754_nan.
Proof. induction l as [|xy l IH]; [reflexivity|]. cbn [fold_left]. exact IH. Qed.

Lemma dot_nan_right row emb :
  Forall (fun x => x = S754_nan) emb -> row <> [] -> emb <> [] ->
  Np.dot row emb = S754_nan.
Proof.
  intros Hall Hr He. destruct row as [|r row]; [congruence|].
  destruct emb as [|x emb]; [congruence|].
  apply Forall_cons in Hall. destruct Hall as [-> _].
  unfold Np.dot. cbn [combine fold_left fst snd].
  rewrite mul_nan_r, add_nan_r. apply dot_from_nan.
Qed.

Lemma self_dot_nan v : forall acc,
  In S754_nan v ->
  fold_left (fun acc xy => F32.add acc (F32.mul (fst xy) (snd xy)))
            (combine v v) acc = S754_nan.
Proof.
  induction v as [|x v IH]; intros acc Hin; [destruct Hin|].
  cbn [combine fold_left fst snd]. destruct Hin as [-> | Hin].
  - rewrite mul_nan_r, add_nan_r. apply dot_from_nan.
  - now apply IH.
Qed.

Lemma norm_nan v : In S754_nan v -> Np.norm (Np.array_f32 v) = S754_nan.
Proof.
  intros Hin. unfold Np.norm, Np.dot. rewrite self_dot_nan; [reflexivity|].
  unfold Np.array_f32. apply List.in_map_iff. now exists S754_nan.
Qed.

(** X9. A query embedding that contains a NaN never matches: whatever
    the gallery and the threshold, [match_embedding] reports no index
    for it. *)
Theorem nan_query_never_matches e known threshold r :
  In S754_nan e ->
  outcome (Detector.match_embedding (Some e) known threshold) = Ok r ->
  fst r = None.
Proof.
  intros Hnan Hrun. destruct r as [[i|] s]; [exfalso|reflexivity].
  apply match_embedding_inv in Hrun.
  destruct Hrun as (e' & stack & sims & He & _ & Hs & Hm & Ha & Hg & _).
  injection He as <-.
  apply vstack_ok in Hs. destruct Hs as [-> Hsame].
  pose proof (argmax_bound _ _ Ha) as Hi.
  apply matvec_ok in Hm. destruct Hm as [-> Hfirst].
  rewrite length_map in Hi.
  rewrite (norm_nan e Hnan) in *.
  set (emb := Np.div_scalar (Np.array_f32 e) S754_nan) in *.
  assert (Forall (fun x => x = S754_nan) emb) as Hall.
  { apply Forall_forall. intros x Hx. apply list_elem_of_In in Hx.
    apply List.in_map_iff in Hx. destruct Hx as (y & <- & _).
    apply div_nan_r. }
  assert (length emb = length e) as Hlen.
  { unfold emb, Np.div_scalar, Np.array_f32. now rewrite !length_map. }
  assert (emb <> []) as Hne.
  { intros H. rewrite H in Hlen. destruct e; [destruct Hnan|discriminate]. }
  destruct (Detector.normalize_known known) as [|r0 rs] eqn:Hk;
    [cbn in Hi; lia|].
  assert (forall row, In row (r0 :: rs) -> Np.dot row emb = S754_nan) as Hdot.
  { intros row Hin. apply dot_nan_right; [exact Hall| |exact Hne].
    intros ->. specialize (Hfirst r0 eq_refl).
    specialize (Hsame [] r0 Hin (or_introl eq_refl)).
    cbn in Hsame. destruct emb; [congruence|]. rewrite <- Hsame in Hfirst.
    discriminate. }
  rewrite (nth_indep _ F32.zero (Np.dot [] emb)) in Hg
    by now rewrite length_map.
  rewrite (map_nth (fun row => Np.dot row emb)) in Hg.
  rewrite Hdot in Hg by (apply nth_In; exact Hi).
  unfold F32.geb, SFleb in Hg. now destruct (F32.cast threshold).
Qed.

Lemma nan_query_never_matches_witness :
  outcome (Detector.match_embedding (Some [F32.of_Z 1; S754_nan])
             [Fixtures.unit_x] threshold_0_55) = Ok (None, S754_nan)
  /\ fst (None : option nat, S754_nan) = None.
Proof.
  assert (outcome (Detector.match_embedding (Some [F32.of_Z 1; S754_nan])
                     [Fixtures.unit_x] threshold_0_55) = Ok (None, S754_nan))
    as H by (vm_compute; reflexivity).
  split; [exact H|].
  apply (nan_query_never_matches [F32.of_Z 1; S754_nan]
           [Fixtures.unit_x] threshold_0_55 (None, S754_nan));
    [right; now left|exact H].
Defined.

Lemma match_embedding_shape_error e known threshold row :
  nonzero_norm e -> In row (Detector.normalize_known known) ->
  length row <> length e ->
  outcome (Detector.match_embedding (Some e) known threshold)
  = Raise ValueError.
Proof.
  intros Hnz Hin Hlen. unfold Detector.match_embedding.
  destruct known as [|k ks]; [destruct Hin|].
  remember (Detector.normalize_known (k :: ks)) as nk eqn:En.
  cbv beta iota zeta. unfold nonzero_norm in Hnz. rewrite Hnz.
  destruct nk as [|n ns]; [destruct Hin|].
  rewrite outcome_bind.
  destruct (outcome (Np.vstack (n :: ns))) as [stack|x] eqn:Hs.
  2:{ unfold Np.vstack in Hs. destruct (forallb _ _); [discriminate|].
      cbn in Hs. now injection Hs as <-. }
  apply vstack_ok in Hs. destruct Hs as [-> Hsame].
  rewrite outcome_bind. unfold Np.matvec at 1.
  assert (Nat.eqb (length n)
            (length (Np.div_scalar (Np.array_f32 e)
                       (Np.norm (Np.array_f32 e)))) = false) as ->.
  { apply Nat.eqb_neq. unfold Np.div_scalar, Np.array_f32.
    rewrite !length_map. rewrite (Hsame n row (or_introl eq_refl) Hin).
    exact Hlen. }
  reflexivity.
Qed.

(** X10. A query whose length differs from that of the gallery vectors
    (an embedding from the other back end) makes [match_embedding] raise
    [ValueError]; the pipeline absorbs it: the face is recorded as
    "Unknown" with no score and adds no match. *)
Theorem dimension_mismatch_is_unknown
    (face_to_embedding : box -> option vec) (fmt2 : spec_float -> string)
    entries embeddings idx b face_crop e row :
  face_to_embedding face_crop = Some e ->
  nonzero_norm e -> In row (Detector.normalize_known embeddings) ->
  length row <> length e ->
  outcome (Detector.match_embedding (Some e) embeddings threshold_0_55)
  = Raise ValueError
  /\ exists d,
      outcome (face_step face_to_embedding fmt2 entries embeddings idx b
                 face_crop false) = Ok (None, d)
      /\ det_label d = "Unknown"%string /\ det_name d = "Unknown"%string
      /\ det_score d = None /\ det_has_mask d = false.
Proof.
  intros Hemb Hnz Hin Hlen.
  pose proof (match_embedding_shape_error e embeddings threshold_0_55 row
                Hnz Hin Hlen) as Hraise.
  split; [exact Hraise|].
  destruct b as [[[x1 y1] x2] y2]. unfold face_step. rewrite Hemb.
  destruct embeddings as [|g gs]; [destruct Hin|].
  destruct (Detector.match_embedding (Some e) (g :: gs) threshold_0_55)
    as [[r|x] l]; cbn in Hraise; [discriminate|].
  eexists. split; [reflexivity|]. cbn. auto.
Qed.

Lemma dimension_mismatch_is_unknown_witness :
  outcome (Detector.match_embedding (Some [F32.of_Z 1]) [Fixtures.unit_x]
             threshold_0_55) = Raise ValueError.
Proof.
  apply (dimension_mismatch_is_unknown (fun _ => Some [F32.of_Z 1])
           (fun _ => "1.00"%string) Fixtures.gallery_alice [Fixtures.unit_x]
           0 (0, 0, 10, 10)%Z (0, 0, 10, 10)%Z [F32.of_Z 1] Fixtures.unit_x).
  - reflexivity.
  - vm_compute. reflexivity.
  - vm_compute. now left.
  - cbn. lia.
Defined.

End MatcherEdges.

(** ** More on the pipeline *)

Section PipelineExtras.

Import Adapter Faces.

Variable face_to_embedding : box -> option vec.
Variable fmt2 : spec_float -> string.

Local Abbreviation face_step := (face_step face_to_embedding fmt2).
Local Abbreviation faces_loop := (faces_loop face_to_embedding fmt2).

(** What the loop body returns, whatever the face. *)
Lemma face_step_spec entries embeddings idx b face_crop has_mask :
  exists mo d,
    outcome (face_step entries embeddings idx b face_crop has_mask)
    = Ok (mo, d)
    /\ det_has_mask d = has_mask /\ det_box d = clamp_low b
    /\ (mo = None -> det_name d = if has_mask then "Masked"%string
                                  else "Unknown"%string)
    /\ (forall m, mo = Some m ->
          has_mask = false
          /\ exists e i s entry,
               face_to_embedding face_crop = Some e
               /\ outcome (Detector.match_embedding (Some e) embeddings
                             threshold_0_55) = Ok (Some i, s)
               /\ entries !! i = Some entry
               /\ m = {| m_name := display_name entry; m_score := Some s |}
               /\ det_name d = display_name entry
               /\ det_score d = Some s).
Proof.
  destruct b as [[[x1 y1] x2] y2]. destruct has_mask.
  - do 2 eexists. split; [reflexivity|]. cbn.
    repeat split; discriminate.
  - unfold Adapter.face_step.
    destruct (face_to_embedding face_crop) as [e|] eqn:He;
      [destruct embeddings as [|g gs]|].
    + do 2 eexists. split; [reflexivity|]. cbn. repeat split; discriminate.
    + destruct (Detector.match_embedding (Some e) (g :: gs) threshold_0_55)
        as [[[mi sc]|x] l] eqn:Hm.
      * destruct mi as [i|]; [destruct (entries !! i) as [entry|] eqn:Hi|].
        -- do 2 eexists. split; [cbn; rewrite Hi; reflexivity|].
           cbn -[Detector.match_embedding].
           split; [reflexivity|]. split; [reflexivity|].
           split; [discriminate|].
           intros m Heq. injection Heq as <-. split; [reflexivity|].
           exists e, i, sc, entry. unfold display_name.
           split; [reflexivity|]. split; [now rewrite Hm|].
           repeat split; try reflexivity; try assumption.
        -- do 2 eexists. split; [cbn; rewrite Hi; reflexivity|]. cbn.
           repeat split; discriminate.
        -- do 2 eexists. split; [reflexivity|]. cbn.
           repeat split; discriminate.
      * do 2 eexists. split; [reflexivity|]. cbn. repeat split; discriminate.
    + do 2 eexists. split; [reflexivity|]. cbn. repeat split; discriminate.
Qed.

Lemma faces_loop_spec entries embeddings faces : forall idx,
  exists ms ds,
    outcome (faces_loop entries embeddings idx faces) = Ok (ms, ds)
    /\ Forall (gallery_match entries) ms
    /\ (length ms <= length (List.filter unmasked faces))%nat
    /\ Forall2 detection_of faces ds.
Proof.
  induction faces as [|[[b c] m] rest IH]; intros idx.
  - exists [], []. repeat split; constructor.
  - destruct (face_step_spec entries embeddings idx b c m)
      as (mo & d & Hstep & Hmask & Hbox & _ & Hmatch).
    destruct (IH (S idx)) as (ms & ds & Hloop & Hms & Hlen & Hds).
    exists (match mo with Some x => x :: ms | None => ms end), (d :: ds).
    split; [|split; [|split]].
    + cbn [Adapter.faces_loop].
      now rewrite outcome_bind, Hstep, outcome_bind, Hloop.
    + destruct mo as [x|]; [|exact Hms]. constructor; [|exact Hms].
      destruct (Hmatch x eq_refl)
        as (_ & e & i & s & entry & _ & _ & Hi & -> & _).
      split; [cbn; eauto|]. exists entry. split; [|reflexivity].
      apply list_elem_of_In. eapply list_elem_of_lookup_2. exact Hi.
    + cbn [List.filter]. unfold unmasked at 1. cbn [snd].
      destruct mo as [x|].
      * destruct (Hmatch x eq_refl) as (-> & _). cbn. lia.
      * destruct m; cbn; lia.
    + constructor; [now split|exact Hds].
Qed.

(** The two ways the pipeline ends: with nothing, or with the loop's
    result over the zipped faces. *)
Lemma pipeline_cases detector_loaded boxes face_crops mask_flags
    (db_bundle : bundle) :
  ((detector_loaded = false \/ boxes = [] \/ face_crops = [])
   /\ outcome (_run_detection_pipeline face_to_embedding fmt2 detector_loaded
                 (boxes, face_crops, mask_flags) db_bundle) = Ok ([], None))
  \/ (detector_loaded = true /\ boxes <> [] /\ face_crops <> []
      /\ exists ms ds,
           outcome (_run_detection_pipeline face_to_embedding fmt2
                      detector_loaded (boxes, face_crops, mask_flags)
                      db_bundle) = Ok (ms, Some ds)
           /\ Forall (gallery_match (fst db_bundle)) ms
           /\ (length ms
               <= length (List.filter unmasked
                            (zip3 boxes face_crops mask_flags)))%nat
           /\ Forall2 detection_of (zip3 boxes face_crops mask_flags) ds).
Proof.
  destruct db_bundle as [entries embeddings].
  unfold _run_detection_pipeline.
  destruct detector_loaded; cbn [negb]; [|left; split; [now left|reflexivity]].
  destruct boxes as [|b0 boxes];
    [left; split; [right; now left|reflexivity]|].
  destruct face_crops as [|c0 crops];
    [left; split; [right; now right|reflexivity]|].
  cbn [length Nat.eqb orb].
  destruct (faces_loop_spec entries embeddings
              (zip3 (b0 :: boxes) (c0 :: crops) mask_flags) 0)
    as (ms & ds & Hloop & Hms & Hlen & Hds).
  right. split; [reflexivity|]. split; [discriminate|].
  split; [discriminate|]. exists ms, ds.
  rewrite outcome_bind, Hloop. cbn [fst snd].
  split; [reflexivity|]. split; [exact Hms|]. split; [exact Hlen|exact Hds].
Qed.

(** X11. On whatever the detector reports, the matching steps of the
    pipeline end without an exception: those of the embedder and of the
    matcher are caught. Every match returned carries a score and the
    name of an entry of the gallery ("Unknown" for an entry without a
    name), and there is at most one match per unmasked face. *)
Theorem pipeline_matches_come_from_gallery detector_loaded
    boxes face_crops mask_flags (db_bundle : bundle) :
  exists matches detections,
    outcome (_run_detection_pipeline face_to_embedding fmt2 detector_loaded
               (boxes, face_crops, mask_flags) db_bundle)
    = Ok (matches, detections)
    /\ Forall (gallery_match (fst db_bundle)) matches
    /\ (length matches
        <= length (List.filter unmasked (zip3 boxes face_crops mask_flags)))%nat.
Proof.
  destruct (pipeline_cases detector_loaded boxes face_crops mask_flags
              db_bundle)
    as [[_ Hrun] | (_ & _ & _ & ms & ds & Hrun & Hms & Hlen & _)].
  - exists [], None. split; [exact Hrun|]. split; [constructor|cbn; lia].
  - exists ms, (Some ds). split; [exact Hrun|]. split; [exact Hms|exact Hlen].
Qed.

(** X12. When the detector is loaded and reports at least one box and
    one crop, the pipeline returns one detection per face, in the order
    of the faces; each records the mask flag of its face and the box of
    its face with negative coordinates raised to 0. The faces are the
    boxes, crops and flags zipped, so as many as the shortest of the
    three lists. *)
Theorem pipeline_detection_per_face boxes face_crops mask_flags
    (db_bundle : bundle) :
  boxes <> [] -> face_crops <> [] ->
  exists matches ds,
    outcome (_run_detection_pipeline face_to_embedding fmt2 true
               (boxes, face_crops, mask_flags) db_bundle)
    = Ok (matches, Some ds)
    /\ Forall2 detection_of (zip3 boxes face_crops mask_flags) ds
    /\ length ds
       = Nat.min (Nat.min (length boxes) (length face_crops))
                 (length mask_flags).
Proof.
  intros Hb Hc.
  destruct (pipeline_cases true boxes face_crops mask_flags db_bundle)
    as [[[H | [H | H]] _] | (_ & _ & _ & ms & ds & Hrun & _ & _ & Hds)];
    [discriminate|contradiction|contradiction|].
  exists ms, ds. split; [exact Hrun|]. split; [exact Hds|].
  apply Forall2_length in Hds. rewrite <- Hds.
  unfold zip3. now rewrite !length_combine.
Qed.

End PipelineExtras.

Lemma pipeline_detection_per_face_witness :
  exists matches ds,
    outcome (Adapter._run_detection_pipeline Fixtures.embed_unit_x
               (fun _ => "1.00"%string) true
               ([(-5, 0, 10, 10); (20, 20, 30, 30)]%Z,
                [(0, 0, 10, 10); (20, 20, 30, 30)]%Z,
                [true; false; true]) (Fixtures.bundle_of Fixtures.gallery_alice))
    = Ok (matches, Some ds)
    /\ Forall2 detection_of
         (Adapter.zip3 [(-5, 0, 10, 10); (20, 20, 30, 30)]%Z
                       [(0, 0, 10, 10); (20, 20, 30, 30)]%Z
                       [true; false; true]) ds
    /\ length ds = Nat.min (Nat.min 2 2) 3.
Proof.
  apply (pipeline_detection_per_face Fixtures.embed_unit_x
           (fun _ => "1.00"%string)
           [(-5, 0, 10, 10); (20, 20, 30, 30)]%Z
           [(0, 0, 10, 10); (20, 20, 30, 30)]%Z
           [true; false; true] (Fixtures.bundle_of Fixtures.gallery_alice));
    discriminate.
Defined.

(** ** Serialisation *)

Section SerializeFacts.

Import Adapter Endpoints.

Variable K : Type.
Variable round4 : spec_float -> K.
Variable key_eq : K -> K -> bool.

Local Abbreviation make_key := (make_key K round4).
Local Abbreviation same_key := (same_key K key_eq).
Local Abbreviation key_in := (key_in K key_eq).
Local Abbreviation serialize_loop := (serialize_loop K round4 key_eq).
Local Abbreviation _serialize_matches := (_serialize_matches K round4 key_eq).

Lemma match_eta (item : Match) :
  {| m_name := m_name item; m_score := m_score item |} = item.
Proof. now destruct item. Qed.

Lemma same_key_name a b : same_key a b = true -> fst a = fst b.
Proof.
  unfold Endpoints.same_key. intros H. apply andb_true_iff in H.
  now apply String.eqb_eq.
Qed.

Lemma serialize_loop_sublist matches : forall seen,
  sublist (serialize_loop matches seen) matches.
Proof.
  induction matches as [|item rest IH]; intros seen; [constructor|].
  cbn [Endpoints.serialize_loop]. cbv zeta. destruct (key_in _ seen).
  - apply sublist_cons, IH.
  - rewrite match_eta. apply sublist_skip, IH.
Qed.

(** Nothing kept has a key seen before, and no kept item has the key of
    an earlier kept item. *)
Lemma serialize_loop_distinct matches : forall seen,
  Forall (fun m => key_in (make_key m) seen = false)
         (serialize_loop matches seen)
  /\ ForallOrdPairs
       (fun earlier later =>
          same_key (make_key earlier) (make_key later) = false)
       (serialize_loop matches seen).
Proof.
  induction matches as [|item rest IH]; intros seen;
    [split; constructor|].
  cbn [Endpoints.serialize_loop]. cbv zeta.
  destruct (key_in (make_key item) seen) eqn:E; [apply IH|].
  rewrite match_eta.
  destruct (IH (make_key item :: seen)) as [Hseen Hpairs].
  split.
  - constructor; [exact E|].
    eapply Forall_impl; [exact Hseen|]. intros m Hm.
    unfold Endpoints.key_in in Hm |- *. cbn [existsb] in Hm.
    now apply orb_false_iff in Hm.
  - constructor; [|exact Hpairs].
    eapply Forall_impl; [exact Hseen|].
    intros m Hm. cbv beta in Hm. unfold Endpoints.key_in in Hm. cbn [existsb] in Hm.
    now apply orb_false_iff in Hm.
Qed.

(** Every item is kept, or has the key of something seen or kept. *)
Lemma serialize_loop_covers matches : forall seen m,
  In m matches ->
  key_in (make_key m) seen = true
  \/ In m (serialize_loop matches seen)
  \/ exists m', In m' (serialize_loop matches seen)
                /\ same_key (make_key m') (make_key m) = true.
Proof.
  induction matches as [|item rest IH]; intros seen m Hin; [destruct Hin|].
  cbn [Endpoints.serialize_loop]. cbv zeta. destruct Hin as [-> | Hin].
  - destruct (key_in (make_key m) seen) eqn:E; [now left|].
    right; left. rewrite match_eta. now left.
  - destruct (key_in (make_key item) seen) eqn:E; [now apply IH|].
    rewrite match_eta.
    destruct (IH (make_key item :: seen) m Hin) as [H | [H | (m' & H & Hk)]].
    + unfold Endpoints.key_in in H |- *. cbn [existsb] in H.
      apply orb_true_iff in H. destruct H as [H | H]; [|now left].
      right; right. exists item. split; [now left|exact H].
    + right; left. now right.
    + right; right. exists m'. split; [now right|exact Hk].
Qed.

(** X13. [_serialize_matches] keeps a subsequence of its input, in
    order; no item kept has the key (name and rounded score) of an
    earlier item kept; an item dropped has the key of an item kept, so
    every name of the input is still a name of the output. *)
Theorem serialize_matches_dedup matches :
  sublist (_serialize_matches matches) matches
  /\ ForallOrdPairs
       (fun earlier later =>
          same_key (make_key earlier) (make_key later) = false)
       (_serialize_matches matches)
  /\ (forall m, In m matches ->
        In m (_serialize_matches matches)
        \/ exists m', In m' (_serialize_matches matches)
                      /\ same_key (make_key m') (make_key m) = true)
  /\ (forall m, In m matches ->
        In (m_name m) (List.map m_name (_serialize_matches matches))).
Proof.
  unfold Endpoints._serialize_matches.
  split; [apply serialize_loop_sublist|].
  split; [apply serialize_loop_distinct|].
  assert (forall m, In m matches ->
            In m (serialize_loop matches [])
            \/ exists m', In m' (serialize_loop matches [])
                          /\ same_key (make_key m') (make_key m) = true) as H.
  { intros m Hin.
    destruct (serialize_loop_covers matches [] m Hin) as [H | H];
      [discriminate|exact H]. }
  split; [exact H|].
  intros m Hin. destruct (H m Hin) as [Hm | (m' & Hm' & Hk)].
  - now apply List.in_map.
  - apply same_key_name in Hk. cbn in Hk. rewrite <- Hk.
    now apply List.in_map.
Qed.

Lemma serialize_loop_idempotent matches : forall seen,
  serialize_loop (serialize_loop matches seen) seen
  = serialize_loop matches seen.
Proof.
  induction matches as [|item rest IH]; intros seen; [reflexivity|].
  cbn [Endpoints.serialize_loop]. cbv zeta.
  destruct (key_in (make_key item) seen) eqn:E; [apply IH|].
  rewrite match_eta. cbn [Endpoints.serialize_loop]. cbv zeta.
  rewrite E, match_eta. f_equal. apply IH.
Qed.

(** X14. Serialising twice is serialising once: the matches an endpoint
    aggregates from already serialised ones lose nothing more. *)
Theorem serialize_matches_idempotent matches :
  _serialize_matches (_serialize_matches matches)
  = _serialize_matches matches.
Proof. apply serialize_loop_idempotent. Qed.

End SerializeFacts.

(** ** The detection endpoints *)

Section EndpointFacts.

Import Adapter Endpoints.

Variable K : Type.
Variable round4 : spec_float -> K.
Variable key_eq : K -> K -> bool.
Variable face_to_embedding : box -> option vec.
Variable fmt2 : spec_float -> string.
Variable ALERT_COOLDOWN : Z.

Local Abbreviation _serialize_matches := (_serialize_matches K round4 key_eq).
Local Abbreviation run_serialized :=
  (run_serialized K round4 key_eq face_to_embedding fmt2).
Local Abbreviation detect_image :=
  (detect_image K round4 key_eq face_to_embedding fmt2 ALERT_COOLDOWN).
Local Abbreviation detect_sketch :=
  (detect_sketch K round4 key_eq face_to_embedding fmt2 ALERT_COOLDOWN).

Lemma serialize_matches_nil_iff matches :
  _serialize_matches matches = [] <-> matches = [].
Proof.
  split; [|now intros ->].
  destruct matches as [|m rest]; [reflexivity|]. discriminate.
Qed.

Lemma all_masked_none (l : list (box * box)) flags :
  Forall (fun flag => flag = true) flags ->
  List.filter unmasked (combine l flags) = [].
Proof.
  intros Hall. revert l.
  induction Hall as [|flag flags Hflag _ IH]; intros [|x l];
    try reflexivity.
  subst flag. cbn. apply IH.
Qed.

(** What the serialised run of the pipeline looks like. *)
Lemma run_serialized_spec detector_loaded boxes face_crops mask_flags
    (db_bundle : bundle) :
  exists resp,
    run_serialized detector_loaded (boxes, face_crops, mask_flags) db_bundle
    = Ok resp
    /\ Forall (gallery_match (fst db_bundle)) (safe_matches resp)
    /\ (safe_matches resp <> [] -> safe_detections resp <> [])
    /\ (Forall (fun flag => flag = true) mask_flags ->
        safe_matches resp = []).
Proof.
  unfold Endpoints.run_serialized.
  destruct (pipeline_cases face_to_embedding fmt2 detector_loaded boxes
              face_crops mask_flags db_bundle)
    as [[_ Hrun] | (_ & _ & _ & ms & ds & Hrun & Hms & Hlen & Hds)];
    rewrite Hrun; eexists; (split; [reflexivity|]);
    cbn [safe_matches safe_detections].
  - split; [constructor|]. split; [intros H; now elim H|reflexivity].
  - split; [|split].
    + eapply Forall_forall. intros m Hm.
      rewrite Forall_forall in Hms. apply Hms.
      eapply elem_of_sublist; [exact Hm|].
      unfold Endpoints._serialize_matches. apply serialize_loop_sublist.
    + intros Hne.
      assert (ms <> []) as Hms' by (intros ->; now apply Hne).
      cbn [Endpoints._serialize_detections].
      destruct ds as [|d ds]; [|discriminate].
      apply Forall2_length in Hds. cbn [length] in Hds.
      apply nil_length_inv in Hds. rewrite Hds in Hlen.
      destruct ms as [|m ms]; [now elim Hms'|]. cbn in Hlen. lia.
    + intros Hall. apply serialize_matches_nil_iff.
      assert (List.filter unmasked (zip3 boxes face_crops mask_flags) = [])
        as Hnone by (unfold zip3; now apply all_masked_none).
      rewrite Hnone in Hlen. destruct ms; [reflexivity|cbn in Hlen; lia].
Qed.

(** X15. Through the image endpoint the sort of [_notify_alert] cannot
    fail: the pipeline absorbs the matcher's errors and every match it
    hands over carries a score, so matching, serialisation and the
    evaluation of the alert end without an exception, and the matches
    of the response come from the gallery. *)
Theorem detect_image_alert_cannot_fail detector_loaded boxes face_crops
    mask_flags (db_bundle : bundle) now st :
  exists resp st',
    detect_image detector_loaded (boxes, face_crops, mask_flags)
      db_bundle now st = (Ok resp, st')
    /\ Forall (gallery_match (fst db_bundle)) (safe_matches resp).
Proof.
  unfold Endpoints.detect_image.
  destruct (run_serialized_spec detector_loaded boxes face_crops mask_flags
              db_bundle) as (resp & -> & Hms & _).
  destruct (safe_matches resp) as [|m ms] eqn:E.
  { exists resp, st. rewrite E. now split. }
  unfold notify_then.
  destruct (notify_alert_numeric_scores ALERT_COOLDOWN (m :: ms) now st)
    as (fired & Hfired).
  { eapply Forall_impl; [exact Hms|]. now intros x [Hx _]. }
  destruct (_notify_alert ALERT_COOLDOWN (m :: ms) now st) as [r st'].
  cbn in Hfired. subst r. exists resp, st'. rewrite E. now split.
Qed.

(** X16. An image in which every detected face is masked raises no
    alert: the response has no matches and the alert state is left as
    it was. *)
Theorem masked_faces_raise_no_alert detector_loaded boxes face_crops
    mask_flags (db_bundle : bundle) now st :
  Forall (fun flag => flag = true) mask_flags ->
  exists resp,
    detect_image detector_loaded (boxes, face_crops, mask_flags)
      db_bundle now st = (Ok resp, st)
    /\ safe_matches resp = [].
Proof.
  intros Hall. unfold Endpoints.detect_image.
  destruct (run_serialized_spec detector_loaded boxes face_crops mask_flags
              db_bundle) as (resp & -> & _ & _ & Hnone).
  exists resp. rewrite (Hnone Hall). now split.
Qed.

(** X17. The sketch endpoint calls [_notify_alert] when there are
    detections, the image endpoint when there are matches; the two
    agree all the same, on the response and on the alert state: matches
    imply detections, and [_notify_alert] on no matches does nothing. *)
Theorem detect_sketch_alerts_like_detect_image detector_loaded boxes
    face_crops mask_flags (db_bundle : bundle) now st :
  detect_sketch detector_loaded (boxes, face_crops, mask_flags)
    db_bundle now st
  = detect_image detector_loaded (boxes, face_crops, mask_flags)
      db_bundle now st.
Proof.
  unfold Endpoints.detect_sketch, Endpoints.detect_image.
  destruct (run_serialized_spec detector_loaded boxes face_crops mask_flags
              db_bundle) as (resp & -> & _ & Hdet & _).
  destruct (safe_matches resp) as [|m ms] eqn:Em;
    destruct (safe_detections resp) as [|d ds] eqn:Ed; try reflexivity.
  now elim Hdet.
Qed.

End EndpointFacts.

Lemma masked_faces_raise_no_alert_witness :
  exists resp,
    Endpoints.detect_image Z Samples.round4_Z Z.eqb Fixtures.embed_unit_x
      (fun _ => "1.00"%string) 30 true
      ([(0, 0, 10, 10); (20, 20, 30, 30)]%Z,
       [(0, 0, 10, 10); (20, 20, 30, 30)]%Z, [true; true])
      (Fixtures.bundle_of Fixtures.gallery_alice) 1000
      Adapter.initial_state
    = (Ok resp, Adapter.initial_state)
    /\ Endpoints.safe_matches resp = [].
Proof.
  apply (masked_faces_raise_no_alert Z Samples.round4_Z Z.eqb
           Fixtures.embed_unit_x (fun _ => "1.00"%string) 30 true).
  repeat constructor.
Defined.

(** ** The video stream *)

Section VideoFacts.

Import Adapter Endpoints.

Variable K : Type.
Variable round4 : spec_float -> K.
Variable key_eq : K -> K -> bool.
Variable face_to_embedding : box -> option vec.
Variable fmt2 : spec_float -> string.
Variable ALERT_COOLDOWN : Z.

Local Abbreviation run_serialized :=
  (run_serialized K round4 key_eq face_to_embedding fmt2).
Local Abbreviation frame_loop :=
  (frame_loop K round4 key_eq face_to_embedding fmt2 ALERT_COOLDOWN).
Local Abbreviation frame_stream :=
  (frame_stream K round4 key_eq face_to_embedding fmt2 ALERT_COOLDOWN).
Local Abbreviation first_match_frame :=
  (first_match_frame K round4 key_eq face_to_embedding fmt2).

Local Open Scope nat_scope.

Lemma first_match_frame_past_limit frame_limit frame_step loaded
    (db_bundle : bundle) frames : forall index,
  frame_limit <= index ->
  first_match_frame frame_limit frame_step loaded db_bundle frames index
  = None.
Proof.
  induction frames as [|fr rest IH]; intros index Hle; [reflexivity|].
  cbn [Endpoints.first_match_frame]. unfold sampled.
  assert ((index <? frame_limit) = false) as -> by (apply Nat.ltb_ge; lia).
  cbn [andb]. apply IH. lia.
Qed.

(** The alert state the loop ends with, and that it ends normally. *)
Lemma frame_loop_alerts frame_limit frame_step loaded (db_bundle : bundle)
    frames : forall frame_count s,
  let '(lines, r, s') :=
    frame_loop frame_limit frame_step loaded db_bundle frames frame_count s in
  r = Ok tt
  /\ alerts s' =
     if alert_sent s then alerts s
     else match first_match_frame frame_limit frame_step loaded db_bundle
                  frames frame_count with
          | None => alerts s
          | Some (ms, now) =>
              snd (_notify_alert ALERT_COOLDOWN ms now (alerts s))
          end.
Proof.
  induction frames as [|fr rest IH]; intros frame_count s.
  - cbn. split; [reflexivity|]. now destruct (alert_sent s).
  - cbn [Endpoints.frame_loop Endpoints.first_match_frame]. unfold sampled.
    destruct (frame_count <? frame_limit) eqn:Hlim; cbn [negb andb].
    2:{ split; [reflexivity|]. destruct (alert_sent s); [reflexivity|].
        apply Nat.ltb_ge in Hlim.
        now rewrite first_match_frame_past_limit by lia. }
    replace (S frame_count - 1) with frame_count by lia.
    destruct ((1 <? frame_step) && negb (frame_count mod frame_step =? 0));
      cbn [negb]; [apply IH|].
    destruct (fr_detected fr) as [[boxes crops] flags] eqn:Hdet.
    destruct (run_serialized_spec K round4 key_eq face_to_embedding fmt2
                loaded boxes crops flags db_bundle)
      as (resp & Hrun & Hms & _).
    rewrite Hrun.
    destruct (safe_matches resp) as [|m ms] eqn:Em.
    + specialize (IH (S frame_count) s).
      destruct (frame_loop _ _ _ _ rest (S frame_count) s) as [[lines r] s'].
      exact IH.
    + destruct (alert_sent s) eqn:Hsent.
      * specialize (IH (S frame_count)
                      {| alert_sent := true;
                         aggregated_matches := aggregated_matches s ++ m :: ms;
                         alerts := alerts s |}).
        destruct (frame_loop _ _ _ _ rest (S frame_count) _)
          as [[lines r] s'].
        exact IH.
      * destruct (notify_alert_numeric_scores ALERT_COOLDOWN (m :: ms)
                    (fr_now fr) (alerts s)) as (fired & Hfired).
        { eapply Forall_impl; [exact Hms|].
          now intros x [Hx _]. }
        destruct (_notify_alert ALERT_COOLDOWN (m :: ms) (fr_now fr)
                    (alerts s)) as [r0 st'].
        cbn in Hfired. subst r0.
        specialize (IH (S frame_count)
                      {| alert_sent := true;
                         aggregated_matches := aggregated_matches s ++ m :: ms;
                         alerts := st' |}).
        destruct (frame_loop _ _ _ _ rest (S frame_count) _)
          as [[lines r] s'].
        exact IH.
Qed.

(** X18. In a video stream, matching, serialisation and the evaluation
    of alerts end without an exception, and at most one alert is
    evaluated: the alert state it leaves is the one a single call
    of [_notify_alert] leaves, on the matches of the first sampled frame
    that has any and at that frame's time; with no such frame the state
    is untouched. Later frames never alert, whether or not that call
    fired. *)
Theorem video_evaluates_one_alert frame_step loaded (db_bundle : bundle)
    frames st :
  let '(lines, r, st') :=
    frame_stream frame_step loaded db_bundle frames st in
  (exists matches, r = Ok matches)
  /\ st' = match first_match_frame 600 frame_step loaded db_bundle frames 0
           with
           | None => st
           | Some (ms, now) => snd (_notify_alert ALERT_COOLDOWN ms now st)
           end.
Proof.
  unfold Endpoints.frame_stream.
  pose proof (frame_loop_alerts 600 frame_step loaded db_bundle frames 0
                {| alert_sent := false; aggregated_matches := [];
                   alerts := st |}) as H.
  destruct (frame_loop _ _ _ _ frames 0 _) as [[lines r] s'].
  destruct H as [-> Hst]. split; [eauto|exact Hst].
Qed.

Lemma sorted_below_length (l : list nat) : forall lo n,
  StronglySorted lt l -> Forall (fun i => lo <= i < n) l ->
  length l <= n - lo.
Proof.
  induction l as [|x l IH]; intros lo n Hsorted Hall; [cbn; lia|].
  apply StronglySorted_inv in Hsorted. destruct Hsorted as [Hsorted Hlt].
  apply Forall_cons in Hall. destruct Hall as [Hx Hall].
  cbn [length].
  assert (length l <= n - S x); [|lia].
  apply IH; [exact Hsorted|].
  rewrite Forall_forall in Hall, Hlt. apply Forall_forall. intros i Hi.
  specialize (Hall i Hi). specialize (Hlt i Hi). lia.
Qed.

(** The lines the loop yields. *)
Lemma frame_loop_lines frame_limit frame_step loaded (db_bundle : bundle)
    frames : forall frame_count s,
  let '(lines, r, s') :=
    frame_loop frame_limit frame_step loaded db_bundle frames frame_count s in
  Forall (fun p =>
            frame_count <= p_index p
            /\ sampled frame_limit frame_step (p_index p) = true
            /\ exists fr resp,
                 frames !! (p_index p - frame_count) = Some fr
                 /\ run_serialized loaded (fr_detected fr) db_bundle = Ok resp
                 /\ p_matches p = safe_matches resp
                 /\ p_detections p = safe_detections resp) lines
  /\ StronglySorted lt (List.map p_index lines).
Proof.
  induction frames as [|fr rest IH]; intros frame_count s.
  - cbn. split; constructor.
  - cbn [Endpoints.frame_loop].
    destruct (frame_count <? frame_limit) eqn:Hlim; cbn [negb];
      [|split; constructor].
    replace (S frame_count - 1) with frame_count by lia.
    assert (forall s0,
      let '(lines, r, s') :=
        frame_loop frame_limit frame_step loaded db_bundle rest
          (S frame_count) s0 in
      Forall (fun p =>
                frame_count < p_index p
                /\ sampled frame_limit frame_step (p_index p) = true
                /\ exists fr0 resp,
                     (fr :: rest) !! (p_index p - frame_count) = Some fr0
                     /\ run_serialized loaded (fr_detected fr0) db_bundle
                        = Ok resp
                     /\ p_matches p = safe_matches resp
                     /\ p_detections p = safe_detections resp) lines
      /\ StronglySorted lt (List.map p_index lines)) as Hrest.
    { intros s0. specialize (IH (S frame_count) s0).
      destruct (frame_loop _ _ _ _ rest (S frame_count) s0) as [[lines r] s'].
      destruct IH as [Hall Hsorted]. split; [|exact Hsorted].
      eapply Forall_impl; [exact Hall|].
      intros p (Hle & Hs & fr0 & resp & Hfr & Hrest).
      split; [lia|]. split; [exact Hs|]. exists fr0, resp.
      split; [|exact Hrest].
      replace (p_index p - frame_count) with (S (p_index p - S frame_count))
        by lia.
      exact Hfr. }
    assert (forall lines,
      Forall (fun p =>
                frame_count < p_index p
                /\ sampled frame_limit frame_step (p_index p) = true
                /\ exists fr0 resp,
                     (fr :: rest) !! (p_index p - frame_count) = Some fr0
                     /\ run_serialized loaded (fr_detected fr0) db_bundle
                        = Ok resp
                     /\ p_matches p = safe_matches resp
                     /\ p_detections p = safe_detections resp) lines ->
      Forall (fun p =>
                frame_count <= p_index p
                /\ sampled frame_limit frame_step (p_index p) = true
                /\ exists fr0 resp,
                     (fr :: rest) !! (p_index p - frame_count) = Some fr0
                     /\ run_serialized loaded (fr_detected fr0) db_bundle
                        = Ok resp
                     /\ p_matches p = safe_matches resp
                     /\ p_detections p = safe_detections resp) lines) as Hweak.
    { intros lines Hall. eapply Forall_impl; [exact Hall|].
      intros p (Hlt & Hrest'). split; [lia|exact Hrest']. }
    destruct ((1 <? frame_step) && negb (frame_count mod frame_step =? 0))
      eqn:Hskip.
    { specialize (Hrest s).
      destruct (frame_loop _ _ _ _ rest (S frame_count) s) as [[lines r] s'].
      destruct Hrest as [Hall Hsorted]. split; [now apply Hweak|exact Hsorted]. }
    destruct (run_serialized loaded (fr_detected fr) db_bundle)
      as [resp|e] eqn:Hrun; [|split; constructor].
    set (step := match safe_matches resp with [] => _ | _ :: _ => _ end).
    destruct step as [[[]|e] s1]; [|split; constructor].
    specialize (Hrest s1).
    destruct (frame_loop _ _ _ _ rest (S frame_count) s1) as [[lines r] s'].
    destruct Hrest as [Hall Hsorted]. split.
    + constructor; [|now apply Hweak]. cbn [p_index p_matches p_detections].
      split; [lia|]. split.
      * unfold sampled. now rewrite Hlim, Hskip.
      * exists fr, resp. rewrite Nat.sub_diag. now repeat split.
    + cbn [List.map p_index]. constructor; [exact Hsorted|].
      apply Forall_forall. intros i Hi. apply list_elem_of_In in Hi.
      apply List.in_map_iff in Hi. destruct Hi as (p & <- & Hp).
      rewrite Forall_forall in Hall.
      destruct (Hall p) as [Hlt _]; [now apply list_elem_of_In|exact Hlt].
Qed.

(** X19. The lines of a video stream: each one reports a frame at a
    position below 600 that the sampling step selects, with the
    serialised matches and detections of the pipeline on that frame;
    positions increase strictly, so no frame is reported twice and at
    most 600 lines are sent. *)
Theorem video_lines_are_sampled_frames frame_step loaded
    (db_bundle : bundle) frames st :
  let '(lines, r, st') :=
    frame_stream frame_step loaded db_bundle frames st in
  Forall (fun p =>
            sampled 600 frame_step (p_index p) = true
            /\ exists fr resp,
                 frames !! p_index p = Some fr
                 /\ run_serialized loaded (fr_detected fr) db_bundle = Ok resp
                 /\ p_matches p = safe_matches resp
                 /\ p_detections p = safe_detections resp) lines
  /\ StronglySorted lt (List.map p_index lines)
  /\ length lines <= 600.
Proof.
  unfold Endpoints.frame_stream.
  pose proof (frame_loop_lines 600 frame_step loaded db_bundle frames 0
                {| alert_sent := false; aggregated_matches := [];
                   alerts := st |}) as H.
  destruct (frame_loop _ _ _ _ frames 0 _) as [[lines r] s'].
  destruct H as [Hall Hsorted].
  assert (Forall (fun p => p_index p < 600) lines) as Hbound.
  { eapply Forall_impl; [exact Hall|]. intros p (_ & Hs & _).
    unfold sampled in Hs. apply andb_true_iff in Hs.
    destruct Hs as [Hs _]. now apply Nat.ltb_lt. }
  split; [|split; [exact Hsorted|]].
  - eapply Forall_impl; [exact Hall|].
    intros p (_ & Hs & fr & resp & Hfr & Hrest).
    split; [exact Hs|]. exists fr, resp.
    rewrite Nat.sub_0_r in Hfr. now split.
  - rewrite <- (length_map p_index).
    replace 600 with (600 - 0) at 1 by lia.
    apply sorted_below_length; [exact Hsorted|].
    apply Forall_forall. intros i Hi. apply list_elem_of_In in Hi.
    apply List.in_map_iff in Hi. destruct Hi as (p & <- & Hp).
    rewrite Forall_forall in Hbound.
    split; [lia|]. apply Hbound. now apply list_elem_of_In.
Qed.

End VideoFacts.

(** ** Lazy loading *)

Section LoaderFacts.

Import Loader.

Variable model : Type.

Lemma mask_reachable_inv (g : mask_globals model) :
  mask_reachable model g ->
  _mask_model_loaded model g = false -> _mask_model model g = None.
Proof.
  induction 1 as [|env g _ IH]; [reflexivity|].
  unfold _load_mask_model. destruct (_mask_model_loaded model g) eqn:E.
  - cbn. congruence.
  - destruct (negb _ || negb _); [discriminate|].
    destruct (load_model_result model env); discriminate.
Qed.

(** X20. The mask model is loaded at most once. After any call of
    [_load_mask_model] the loaded flag is set, and every later call
    returns what that call returned and changes nothing, whatever the
    file system and TensorFlow look like by then: a failure is never
    retried. *)
Theorem mask_model_loaded_once (env env' : mask_env model)
    (g : mask_globals model) :
  mask_reachable model g ->
  let '(m, g1) := _load_mask_model model env g in
  _mask_model_loaded model g1 = true
  /\ _load_mask_model model env' g1 = (m, g1).
Proof.
  intros Hreach. pose proof (mask_reachable_inv g Hreach) as Hinv.
  unfold _load_mask_model. destruct g as [mm loaded]. cbn in *.
  destruct loaded; cbn; [now split|].
  rewrite (Hinv eq_refl).
  destruct (negb (tensorflow_imported model env)
            || negb (model_file_exists model env)); cbn; [now split|].
  destruct (load_model_result model env); cbn; now split.
Qed.

(** X21. When the first attempt to load the mask model fails, no face is
    ever reported as masked: every later [detect_mask] returns [False]
    and leaves the globals as they are, whatever the crop, even if the
    model file has become loadable in the meantime. *)
Theorem failed_mask_load_means_no_mask (env env' : mask_env model)
    predict predict' face_img face_img' :
  fst (_load_mask_model model env (mask_initial model)) = None ->
  let g1 := snd (detect_mask model env predict face_img (mask_initial model)) in
  fst (detect_mask model env predict face_img (mask_initial model)) = false
  /\ detect_mask model env' predict' face_img' g1 = (false, g1).
Proof.
  unfold detect_mask, _load_mask_model, mask_initial. cbn.
  destruct (negb (tensorflow_imported model env)
            || negb (model_file_exists model env)); cbn.
  - intros _. now split.
  - destruct (load_model_result model env); cbn; [discriminate|].
    intros _. now split.
Qed.

End LoaderFacts.

Lemma mask_model_loaded_once_witness :
  let broken := {| Loader.tensorflow_imported := true;
                   Loader.model_file_exists := true;
                   Loader.load_model_result := None |} in
  let repaired := {| Loader.tensorflow_imported := true;
                     Loader.model_file_exists := true;
                     Loader.load_model_result := Some tt |} in
  let g1 := snd (Loader._load_mask_model unit broken
                   (Loader.mask_initial unit)) in
  Loader._load_mask_model unit repaired g1 = (None, g1).
Proof.
  cbv zeta.
  exact (proj2 (mask_model_loaded_once unit
                  {| Loader.tensorflow_imported := true;
                     Loader.model_file_exists := true;
                     Loader.load_model_result := None |}
                  {| Loader.tensorflow_imported := true;
                     Loader.model_file_exists := true;
                     Loader.load_model_result := Some tt |}
                  (Loader.mask_initial unit)
                  (Loader.mask_reach_initial unit))).
Defined.

Lemma failed_mask_load_means_no_mask_witness :
  let broken := {| Loader.tensorflow_imported := true;
                   Loader.model_file_exists := false;
                   Loader.load_model_result := Some tt |} in
  let repaired := {| Loader.tensorflow_imported := true;
                     Loader.model_file_exists := true;
                     Loader.load_model_result := Some tt |} in
  let g1 := snd (Loader.detect_mask unit broken (fun _ _ => Some true)
                   (Some (0, 0, 10, 10)%Z) (Loader.mask_initial unit)) in
  Loader.detect_mask unit repaired (fun _ _ => Some true)
    (Some (0, 0, 10, 10)%Z) g1 = (false, g1).
Proof.
  cbv zeta.
  apply (failed_mask_load_means_no_mask unit
           {| Loader.tensorflow_imported := true;
              Loader.model_file_exists := false;
              Loader.load_model_result := Some tt |}).
  reflexivity.
Defined.

Section FaceNetFacts.

Import Loader.

Variables torch mtcnn resnet : Type.

Local Abbreviation globals := (facenet_globals torch mtcnn resnet).
Local Abbreviation attempt := (facenet_attempt torch mtcnn resnet).

(** In every state the loader can reach, a decision taken is final and
    FaceNet is in use exactly when all three handles are set. *)
Lemma facenet_reachable_inv (g : globals) :
  facenet_reachable torch mtcnn resnet g ->
  match _facenet_available torch mtcnn resnet g with
  | None => USE_FACENET torch mtcnn resnet g = false
  | Some b =>
      USE_FACENET torch mtcnn resnet g = b
      /\ (b = true ->
          is_Some (_torch torch mtcnn resnet g)
          /\ is_Some (_mtcnn torch mtcnn resnet g)
          /\ is_Some (_resnet torch mtcnn resnet g))
  end.
Proof.
  induction 1 as [|a g _ IH]; [reflexivity|].
  unfold _load_facenet.
  destruct (_facenet_available torch mtcnn resnet g) as [b|] eqn:E.
  - cbn [snd]. now rewrite E.
  - destruct a; cbn; (split; [reflexivity|]); try discriminate.
    intros _. repeat split; eauto.
Qed.

(** X22. Detection and embedding never disagree on the back end: in
    every state the loader can reach, the test [detect_faces_and_crops]
    makes and the test [get_face_embedding] makes give the same answer,
    and the first load decides it for good, success or failure. *)
Theorem backends_agree (g : globals) (a a' : attempt) :
  facenet_reachable torch mtcnn resnet g ->
  fst (detects_with_facenet torch mtcnn resnet a g)
  = fst (embeds_with_facenet torch mtcnn resnet a g)
  /\ let '(ok, g1) := _load_facenet torch mtcnn resnet a g in
     _load_facenet torch mtcnn resnet a' g1 = (ok, g1).
Proof.
  intros Hreach.
  pose proof (facenet_reachable_inv _
                (facenet_reach_load torch mtcnn resnet a g Hreach)) as Hinv.
  unfold detects_with_facenet, embeds_with_facenet.
  destruct (_load_facenet torch mtcnn resnet a g) as [ok g1] eqn:Hload.
  cbn [fst snd] in *.
  assert (_facenet_available torch mtcnn resnet g1 = Some ok
          /\ USE_FACENET torch mtcnn resnet g1 = ok) as [Hav Huse].
  { unfold _load_facenet in Hload.
    destruct (_facenet_available torch mtcnn resnet g) as [b|] eqn:E.
    - injection Hload as <- <-. rewrite E.
      pose proof (facenet_reachable_inv g Hreach) as Hg. rewrite E in Hg.
      destruct Hg as [Hu _]. rewrite Hu. now split.
    - destruct a; injection Hload as <- <-; now split. }
  rewrite Hav in Hinv. destruct Hinv as [_ Hset]. split.
  - destruct ok; [|reflexivity].
    destruct (Hset eq_refl) as (Ht & Hm & Hr).
    now rewrite !bool_decide_eq_true_2.
  - unfold _load_facenet. now rewrite Hav, Huse.
Qed.

End FaceNetFacts.

Lemma backends_agree_witness :
  let g1 := snd (Loader._load_facenet unit unit unit
                   (Loader.ResnetFails unit unit unit tt tt)
                   (Loader.facenet_initial unit unit unit)) in
  fst (Loader.detects_with_facenet unit unit unit
         (Loader.Loads unit unit unit tt tt tt) g1)
  = fst (Loader.embeds_with_facenet unit unit unit
           (Loader.Loads unit unit unit tt tt tt) g1)
  /\ Loader._load_facenet unit unit unit
       (Loader.Loads unit unit unit tt tt tt) g1 = (false, g1).
Proof.
  cbv zeta.
  destruct (backends_agree unit unit unit
              (snd (Loader._load_facenet unit unit unit
                      (Loader.ResnetFails unit unit unit tt tt)
                      (Loader.facenet_initial unit unit unit)))
              (Loader.Loads unit unit unit tt tt tt)
              (Loader.Loads unit unit unit tt tt tt)) as [H1 H2].
  - apply Loader.facenet_reach_load, Loader.facenet_reach_initial.
  - split; [exact H1|exact H2].
Defined.

(** ** The registry *)

Section DictFacts.

Import Faces Registry.

Lemma dict_get_none d key :
  dict_get d key = None <-> ~ In key (List.map fst d).
Proof.
  induction d as [|[k v] rest IH]; cbn [dict_get List.map fst].
  - split; [intros _ []|reflexivity].
  - destruct (String.eqb_spec k key) as [-> | Hne].
    + split; [discriminate|]. intros H. elim H. now left.
    + rewrite IH. split.
      * intros H [? | ?]; contradiction.
      * intros H Hin. apply H. now right.
Qed.

(** Re-registering keeps the place of a key; a new key goes last. *)
Lemma dict_set_keys d key value :
  List.map fst (dict_set d key value) =
  match dict_get d key with
  | Some _ => List.map fst d
  | None => List.map fst d ++ [key]
  end.
Proof.
  induction d as [|[k v] rest IH]; cbn [dict_set dict_get List.map fst app];
    [reflexivity|].
  destruct (String.eqb_spec k key) as [-> | Hne]; [reflexivity|].
  cbn [List.map fst]. rewrite IH. now destruct (dict_get rest key).
Qed.

Lemma dict_set_unique d key value :
  List.NoDup (List.map fst d) ->
  List.NoDup (List.map fst (dict_set d key value)).
Proof.
  intros Hnd. rewrite dict_set_keys.
  destruct (dict_get d key) eqn:E; [exact Hnd|].
  apply dict_get_none in E.
  apply NoDup_ListNoDup, NoDup_app. split; [now apply NoDup_ListNoDup|].
  split; [|apply NoDup_singleton].
  intros x Hx Hx'. apply list_elem_of_singleton in Hx'. subst x.
  apply E. now apply list_elem_of_In.
Qed.

Lemma dict_set_in d key value :
  In (key, value) (dict_set d key value).
Proof.
  induction d as [|[k v] rest IH]; cbn [dict_set]; [now left|].
  destruct (String.eqb_spec k key) as [-> | Hne]; [now left|now right].
Qed.

Lemma dict_set_in_inv d key value k v :
  List.NoDup (List.map fst d) ->
  In (k, v) (dict_set d key value) ->
  (k = key /\ v = value) \/ (k <> key /\ In (k, v) d).
Proof.
  induction d as [|[k0 v0] rest IH]; cbn [dict_set List.map fst]; intros Hnd.
  - intros [H | []]. injection H as <- <-. now left.
  - apply List.NoDup_cons_iff in Hnd. destruct Hnd as [Hk0 Hnd].
    destruct (String.eqb_spec k0 key) as [-> | Hne].
    + intros [H | Hin]; [injection H as <- <-; now left|].
      right. split; [|now right]. intros ->. apply Hk0.
      apply List.in_map_iff. now exists (key, v).
    + intros [H | Hin].
      * injection H as <- <-. right. split; [exact Hne|now left].
      * destruct (IH Hnd Hin) as [H | [H1 H2]]; [now left|].
        right. split; [exact H1|now right].
Qed.

Lemma dict_set_other d key value k v :
  k <> key -> In (k, v) d -> In (k, v) (dict_set d key value).
Proof.
  intros Hne. induction d as [|[k0 v0] rest IH]; [intros []|].
  cbn [dict_set]. destruct (String.eqb_spec k0 key) as [-> | Hne0].
  - intros [H | Hin]; [injection H as -> _; now elim Hne|now right].
  - intros [H | Hin]; [now left|right; now apply IH].
Qed.

Lemma dict_del_in d key k v :
  List.NoDup (List.map fst d) ->
  In (k, v) (dict_del d key) <-> k <> key /\ In (k, v) d.
Proof.
  induction d as [|[k0 v0] rest IH]; cbn [dict_del List.map fst]; intros Hnd.
  - split; [intros []|intros [_ []]].
  - apply List.NoDup_cons_iff in Hnd. destruct Hnd as [Hk0 Hnd].
    destruct (String.eqb_spec k0 key) as [-> | Hne].
    + split.
      * intros Hin. split; [|now right]. intros ->. apply Hk0.
        apply List.in_map_iff. now exists (key, v).
      * intros [Hk [H | Hin]]; [injection H as -> _; now elim Hk|exact Hin].
    + split.
      * intros [H | Hin]; [injection H as <- <-; split; [exact Hne|now left]|].
        apply (IH Hnd) in Hin. destruct Hin as [H1 H2].
        split; [exact H1|now right].
      * intros [Hk [H | Hin]]; [now left|]. right. now apply (IH Hnd).
Qed.

Lemma dict_del_unique d key :
  List.NoDup (List.map fst d) -> List.NoDup (List.map fst (dict_del d key)).
Proof.
  induction d as [|[k0 v0] rest IH]; cbn [dict_del List.map fst]; intros Hnd;
    [constructor|].
  apply List.NoDup_cons_iff in Hnd. destruct Hnd as [Hk0 Hnd].
  destruct (String.eqb k0 key); [exact Hnd|].
  cbn [List.map fst]. constructor; [|now apply IH].
  intros Hin. apply Hk0. apply List.in_map_iff in Hin.
  destruct Hin as ([k v] & Heq & Hin). cbn in Heq. subst k.
  apply (dict_del_in rest key k0 v Hnd) in Hin.
  apply List.in_map_iff. exists (k0, v). now split.
Qed.

End DictFacts.

Section RegistryFacts.

Import Faces Registry.

Variable mask_predict : box -> bool.
Variable face_to_embedding : box -> result vec.
Variable strip : string -> string.

Local Abbreviation add_criminal_from_pil :=
  (add_criminal_from_pil mask_predict face_to_embedding).
Local Abbreviation delete_criminal := (delete_criminal strip).

(** How a successful registration came about and what it wrote. *)
Lemma add_criminal_ok_inv pil_image b nd age gender crime s s' :
  add_criminal_from_pil pil_image b nd age gender crime s = (Ok tt, s') ->
  exists who crop more emb,
    _normalize_details nd age gender crime = Ok who
    /\ snd (fst (FaceDetector.detect_faces_and_crops mask_predict
                   (Some pil_image) b)) = crop :: more
    /\ face_to_embedding crop = Ok emb
    /\ criminal_data s'
       = dict_set (criminal_data s) (p_name who) (stored_details who)
    /\ npy_files s'
       = <[embedding_path (p_name who) := NpyArray emb]> (npy_files s)
    /\ image_files s' = image_files s ∪ {[ image_path (p_name who) ]}.
Proof.
  unfold Registry.add_criminal_from_pil.
  destruct (_normalize_details nd age gender crime) as [who|e];
    [|discriminate].
  destruct (FaceDetector.detect_faces_and_crops mask_predict (Some pil_image) b)
    as [[boxes crops] flags].
  destruct crops as [|crop more]; [discriminate|].
  destruct (face_to_embedding crop) as [emb|e] eqn:He; [|discriminate].
  intros H. injection H as <-.
  exists who, crop, more, emb. cbn. now repeat split.
Qed.

Lemma embedding_path_usable (fs : filesystem) name file :
  fs !! embedding_path name = Some file ->
  usable_path fs (Some (embedding_path name)) = Some (embedding_path name).
Proof.
  unfold usable_path, embedding_path, path_join, DB_DIR. cbn.
  now intros ->.
Qed.

(** What loading returns for a name just written. *)
Lemma registered_record_loads s s' who emb entries :
  unique_keys s ->
  criminal_data s'
  = dict_set (criminal_data s) (p_name who) (stored_details who) ->
  npy_files s'
  = <[embedding_path (p_name who) := NpyArray emb]> (npy_files s) ->
  outcome (load_all_criminals (npy_files s') (criminal_data s')) = Ok entries ->
  In (p_name who) (List.map name entries)
  /\ forall r, In r entries -> name r = p_name who -> embedding r = Some emb.
Proof.
  intros Huniq Hdata Hnpy Hload.
  destruct (load_all_criminals_loaded _ _ _ Hload) as [Hall Hnames].
  assert (npy_files s' !! embedding_path (p_name who) = Some (NpyArray emb))
    as Hfile by (rewrite Hnpy; apply lookup_insert_eq).
  split.
  - rewrite Hnames. apply List.in_map_iff.
    exists (p_name who, stored_details who). split; [reflexivity|].
    apply List.filter_In. split; [rewrite Hdata; apply dict_set_in|].
    apply bool_decide_eq_true. cbn [snd stored_details d_embedding].
    rewrite (embedding_path_usable _ _ _ Hfile). eauto.
  - intros r Hr Hname. rewrite Forall_forall in Hall.
    destruct (Hall r) as (d & p & a & Hin & Hd & Hp & Ha);
      [now apply list_elem_of_In|].
    rewrite Hname, Hdata in Hin.
    apply dict_set_in_inv in Hin; [|exact Huniq].
    destruct Hin as [[_ ->] | [Hne _]]; [|now elim Hne].
    cbn in Hd. injection Hd as <-. rewrite Hfile in Hp.
    injection Hp as <-. exact Ha.
Qed.

(** X23. Registration and loading round-trip. After a successful
    [add_criminal_from_pil] on a dictionary with unique keys, the keys
    are still unique (a name registered again keeps its place, a new one
    goes last), and whenever [load_all_criminals] succeeds it returns a
    record with the registered name, and every record with that name
    carries the embedding just computed. *)
Theorem registered_face_round_trip pil_image b nd age gender crime s s' :
  unique_keys s ->
  add_criminal_from_pil pil_image b nd age gender crime s = (Ok tt, s') ->
  exists who crop more emb,
    _normalize_details nd age gender crime = Ok who
    /\ snd (fst (FaceDetector.detect_faces_and_crops mask_predict
                   (Some pil_image) b)) = crop :: more
    /\ face_to_embedding crop = Ok emb
    /\ unique_keys s'
    /\ List.map fst (criminal_data s')
       = match dict_get (criminal_data s) (p_name who) with
         | Some _ => List.map fst (criminal_data s)
         | None => List.map fst (criminal_data s) ++ [p_name who]
         end
    /\ forall entries,
         outcome (load_all_criminals (npy_files s') (criminal_data s'))
         = Ok entries ->
         In (p_name who) (List.map name entries)
         /\ forall r, In r entries -> name r = p_name who ->
                      embedding r = Some emb.
Proof.
  intros Huniq Hadd. apply add_criminal_ok_inv in Hadd.
  destruct Hadd
    as (who & crop & more & emb & Hnorm & Hcrop & Hemb & Hdata & Hnpy & _).
  exists who, crop, more, emb.
  split; [exact Hnorm|]. split; [exact Hcrop|]. split; [exact Hemb|].
  split; [unfold unique_keys; rewrite Hdata; now apply dict_set_unique|].
  split; [rewrite Hdata; apply dict_set_keys|].
  intros entries Hload.
  exact (registered_record_loads s s' who emb entries Huniq Hdata Hnpy Hload).
Qed.

(** X24. A registration that fails leaves the records alone: the
    dictionary and the embedding files are as before (only the image may
    already have been saved), and with no usable name nothing at all is
    written. *)
Theorem failed_registration_keeps_records pil_image b nd age gender crime
    s e s' :
  add_criminal_from_pil pil_image b nd age gender crime s = (Raise e, s') ->
  criminal_data s' = criminal_data s /\ npy_files s' = npy_files s
  /\ (forall e', _normalize_details nd age gender crime = Raise e' -> s' = s).
Proof.
  unfold Registry.add_criminal_from_pil.
  destruct (_normalize_details nd age gender crime) as [who|e0].
  - destruct (FaceDetector.detect_faces_and_crops mask_predict
                (Some pil_image) b) as [[boxes crops] flags].
    destruct crops as [|crop more].
    + intros H. injection H as _ <-. now repeat split.
    + destruct (face_to_embedding crop) as [emb|e1]; [discriminate|].
      intros H. injection H as _ <-. now repeat split.
  - intros H. injection H as _ <-. now repeat split.
Qed.

(** X25. [delete_criminal] looks the stripped name up. A name that is
    not a key gives [False] and changes nothing; a key gives [True], the
    key is gone, the other records stay, and
    [load_all_criminals] no longer returns a record with that name. *)
Theorem delete_criminal_removes_record given s :
  unique_keys s ->
  let key := strip given in
  let '(ok, s') := delete_criminal given s in
  (ok = false -> s' = s /\ ~ In key (List.map fst (criminal_data s)))
  /\ (ok = true ->
      In key (List.map fst (criminal_data s))
      /\ unique_keys s'
      /\ (forall k v, In (k, v) (criminal_data s') <->
                      k <> key /\ In (k, v) (criminal_data s))
      /\ forall entries,
           outcome (load_all_criminals (npy_files s') (criminal_data s'))
           = Ok entries ->
           ~ In key (List.map name entries)).
Proof.
  intros Huniq key. unfold Registry.delete_criminal. fold key.
  destruct (dict_get (criminal_data s) key) as [d|] eqn:Hget.
  - split; [discriminate|]. intros _. cbn [criminal_data npy_files].
    split.
    { destruct (decide (key ∈ List.map fst (criminal_data s))) as [H | H];
        [now apply list_elem_of_In|].
      rewrite list_elem_of_In in H. apply dict_get_none in H. congruence. }
    split; [now apply dict_del_unique|].
    split; [intros k v; now apply dict_del_in|].
    intros entries Hload Hin.
    destruct (load_all_criminals_loaded _ _ _ Hload) as [_ Hnames].
    rewrite Hnames in Hin. apply List.in_map_iff in Hin.
    destruct Hin as ([k v] & Hk & Hin). cbn in Hk. subst k.
    apply List.filter_In in Hin. destruct Hin as [Hin _].
    apply (dict_del_in _ key key v Huniq) in Hin. now destruct Hin.
  - split; [|discriminate]. intros _. split; [reflexivity|].
    now apply dict_get_none.
Qed.

(** X26. The files of a record are named after the name with spaces
    replaced by underscores. Registering a second name that differs from
    a registered one only in spaces against underscores overwrites the
    first one's embedding file: from then on both records load the
    second embedding. *)
Theorem names_differing_in_spaces_share_files
    pil1 b1 nd1 age1 gender1 crime1 pil2 b2 nd2 age2 gender2 crime2
    s0 s1 s2 who1 who2 entries :
  unique_keys s0 ->
  add_criminal_from_pil pil1 b1 nd1 age1 gender1 crime1 s0 = (Ok tt, s1) ->
  add_criminal_from_pil pil2 b2 nd2 age2 gender2 crime2 s1 = (Ok tt, s2) ->
  _normalize_details nd1 age1 gender1 crime1 = Ok who1 ->
  _normalize_details nd2 age2 gender2 crime2 = Ok who2 ->
  p_name who1 <> p_name who2 ->
  replace_spaces (p_name who1) = replace_spaces (p_name who2) ->
  outcome (load_all_criminals (npy_files s2) (criminal_data s2)) = Ok entries ->
  exists emb2,
    npy_files s2 !! embedding_path (p_name who2) = Some (NpyArray emb2)
    /\ In (p_name who1) (List.map name entries)
    /\ forall r, In r entries ->
         name r = p_name who1 \/ name r = p_name who2 ->
         embedding r = Some emb2.
Proof.
  intros Huniq Hadd1 Hadd2 Hn1 Hn2 Hne Hsame Hload.
  apply add_criminal_ok_inv in Hadd1, Hadd2.
  destruct Hadd1 as (w1 & _ & _ & emb1 & Hw1 & _ & _ & Hdata1 & Hnpy1 & _).
  destruct Hadd2 as (w2 & _ & _ & emb2 & Hw2 & _ & _ & Hdata2 & Hnpy2 & _).
  rewrite Hn1 in Hw1. injection Hw1 as <-.
  rewrite Hn2 in Hw2. injection Hw2 as <-.
  assert (unique_keys s1) as Huniq1.
  { unfold unique_keys. rewrite Hdata1. now apply dict_set_unique. }
  assert (embedding_path (p_name who1) = embedding_path (p_name who2)) as Hpath.
  { unfold embedding_path. now rewrite Hsame. }
  assert (npy_files s2 !! embedding_path (p_name who2) = Some (NpyArray emb2))
    as Hfile by (rewrite Hnpy2; apply lookup_insert_eq).
  exists emb2. split; [exact Hfile|].
  destruct (load_all_criminals_loaded _ _ _ Hload) as [Hall Hnames].
  destruct (registered_record_loads s1 s2 who2 emb2 entries Huniq1 Hdata2
              Hnpy2 Hload) as [_ Hsecond].
  assert (In (p_name who1, stored_details who1) (criminal_data s2)) as Hin1.
  { rewrite Hdata2. apply dict_set_other; [exact Hne|].
    rewrite Hdata1. apply dict_set_in. }
  split.
  - rewrite Hnames. apply List.in_map_iff.
    exists (p_name who1, stored_details who1). split; [reflexivity|].
    apply List.filter_In. split; [exact Hin1|].
    apply bool_decide_eq_true. cbn [snd stored_details d_embedding].
    rewrite Hpath, (embedding_path_usable _ _ _ Hfile). eauto.
  - intros r Hr [Hname | Hname]; [|now apply Hsecond].
    rewrite Forall_forall in Hall.
    destruct (Hall r) as (d & p & a & Hin & Hd & Hp & Ha);
      [now apply list_elem_of_In|].
    rewrite Hname, Hdata2 in Hin.
    apply dict_set_in_inv in Hin; [|exact Huniq1].
    destruct Hin as [[Heq _] | [_ Hin]]; [now elim Hne|].
    rewrite Hdata1 in Hin. apply dict_set_in_inv in Hin; [|exact Huniq].
    destruct Hin as [[_ ->] | [Hne' _]]; [|now elim Hne'].
    cbn in Hd. injection Hd as <-. rewrite Hpath, Hfile in Hp.
    injection Hp as <-. exact Ha.
Qed.

(** X27. A registered face reaches the gallery: after a successful
    registration and [_invalidate_db_cache], as the upload endpoint
    does, [_load_db_bundle] rebuilds the bundle, and when the files load
    it holds a record with the registered name at some index and, at
    the same index of the embeddings, the embedding written. *)
Theorem registered_face_reaches_gallery pil_image b nd age gender crime
    s s' cache entries :
  unique_keys s ->
  add_criminal_from_pil pil_image b nd age gender crime s = (Ok tt, s') ->
  outcome (load_all_criminals (npy_files s') (criminal_data s')) = Ok entries ->
  exists who emb i r,
    _normalize_details nd age gender crime = Ok who
    /\ npy_files s' !! embedding_path (p_name who) = Some (NpyArray emb)
    /\ fst (fst (Adapter._load_db_bundle false
                   (Adapter._invalidate_db_cache cache)
                   (npy_files s') (criminal_data s'))) !! i = Some r
    /\ name r = p_name who
    /\ snd (fst (Adapter._load_db_bundle false
                   (Adapter._invalidate_db_cache cache)
                   (npy_files s') (criminal_data s'))) !! i = Some emb.
Proof.
  intros Huniq Hadd Hload. apply add_criminal_ok_inv in Hadd.
  destruct Hadd as (who & _ & _ & emb & Hnorm & _ & _ & Hdata & Hnpy & _).
  destruct (registered_record_loads s s' who emb entries Huniq Hdata Hnpy
              Hload) as [Hin Hemb].
  apply List.in_map_iff in Hin. destruct Hin as (r & Hname & Hr).
  pose proof Hr as Hr'. apply list_elem_of_In, list_elem_of_lookup in Hr'.
  destruct Hr' as [i Hi].
  pose proof (fresh_bundle_aligned (npy_files s') (criminal_data s') None)
    as [_ Halign].
  unfold Adapter._invalidate_db_cache.
  assert (fst (Adapter._load_db_bundle false None (npy_files s')
                 (criminal_data s'))
          = fst (Adapter._load_db_bundle true None (npy_files s')
                   (criminal_data s'))) as Heq by reflexivity.
  rewrite Heq.
  assert (fst (fst (Adapter._load_db_bundle true None (npy_files s')
                      (criminal_data s'))) = entries) as Hentries.
  { unfold Adapter._load_db_bundle. cbn [fst]. now rewrite Hload. }
  exists who, emb, i, r. split; [exact Hnorm|].
  split; [rewrite Hnpy; apply lookup_insert_eq|].
  split; [now rewrite Hentries|]. split; [exact Hname|].
  rewrite <- (Hemb r Hr Hname). symmetry. apply Halign.
  now rewrite Hentries.
Qed.

End RegistryFacts.

Section RegistryWitnesses.

Import Faces Registry RegistrySamples.
Local Open Scope string_scope.

Lemma registered_face_round_trip_witness :
  exists who crop more emb,
    _normalize_details (Positional (Some "John Doe")) None None None = Ok who
    /\ snd (fst (FaceDetector.detect_faces_and_crops no_mask
                   (Some picture) face_left)) = crop :: more
    /\ embed_by_corner crop = Ok emb
    /\ unique_keys john_registered
    /\ List.map fst (criminal_data john_registered)
       = match dict_get (criminal_data empty_store) (p_name who) with
         | Some _ => List.map fst (criminal_data empty_store)
         | None => (List.map fst (criminal_data empty_store) ++ [p_name who])%list
         end
    /\ forall entries,
         outcome (load_all_criminals (npy_files john_registered)
                    (criminal_data john_registered)) = Ok entries ->
         In (p_name who) (List.map name entries)
         /\ forall r, In r entries -> name r = p_name who ->
                      embedding r = Some emb.
Proof.
  apply (registered_face_round_trip no_mask embed_by_corner picture face_left
           (Positional (Some "John Doe")) None None None empty_store
           john_registered).
  - apply List.NoDup_nil.
  - reflexivity.
Defined.

Lemma failed_registration_keeps_records_witness :
  let s' := snd (register no_face "John Doe" john_registered) in
  criminal_data s' = criminal_data john_registered
  /\ npy_files s' = npy_files john_registered
  /\ (forall e',
        _normalize_details (Positional (Some "John Doe")) None None None
        = Raise e' -> s' = john_registered).
Proof.
  apply (failed_registration_keeps_records no_mask embed_by_corner picture
           no_face (Positional (Some "John Doe")) None None None
           john_registered ValueError).
  reflexivity.
Defined.

Lemma delete_criminal_removes_record_witness :
  let key := strip_spaces "  John Doe " in
  let '(ok, s') := delete_criminal strip_spaces "  John Doe " john_registered in
  (ok = false ->
   s' = john_registered
   /\ ~ In key (List.map fst (criminal_data john_registered)))
  /\ (ok = true ->
      In key (List.map fst (criminal_data john_registered))
      /\ unique_keys s'
      /\ (forall k v, In (k, v) (criminal_data s') <->
                      k <> key /\ In (k, v) (criminal_data john_registered))
      /\ forall entries,
           outcome (load_all_criminals (npy_files s') (criminal_data s'))
           = Ok entries ->
           ~ In key (List.map name entries)).
Proof.
  apply (delete_criminal_removes_record strip_spaces "  John Doe "
           john_registered).
  apply List.NoDup_cons; [intros []|apply List.NoDup_nil].
Defined.

Lemma names_differing_in_spaces_share_files_witness :
  exists emb2,
    npy_files both_registered !! embedding_path "John_Doe"
    = Some (NpyArray emb2)
    /\ In "John Doe"
         (List.map name
            [ {| name := "John Doe"; age := None; gender := None;
                 crime := None; image := Some (image_path "John Doe");
                 embedding := Some unit_y |};
              {| name := "John_Doe"; age := None; gender := None;
                 crime := None; image := Some (image_path "John_Doe");
                 embedding := Some unit_y |} ])
    /\ forall r,
         In r
            [ {| name := "John Doe"; age := None; gender := None;
                 crime := None; image := Some (image_path "John Doe");
                 embedding := Some unit_y |};
              {| name := "John_Doe"; age := None; gender := None;
                 crime := None; image := Some (image_path "John_Doe");
                 embedding := Some unit_y |} ] ->
         name r = "John Doe" \/ name r = "John_Doe" ->
         embedding r = Some emb2.
Proof.
  apply (names_differing_in_spaces_share_files no_mask embed_by_corner
           picture face_left (Positional (Some "John Doe")) None None None
           picture face_right (Positional (Some "John_Doe")) None None None
           empty_store john_registered both_registered
           {| p_name := "John Doe"; p_age := None; p_gender := None;
              p_crime := None |}
           {| p_name := "John_Doe"; p_age := None; p_gender := None;
              p_crime := None |}).
  - apply List.NoDup_nil.
  - reflexivity.
  - reflexivity.
  - reflexivity.
  - reflexivity.
  - discriminate.
  - reflexivity.
  - vm_compute. reflexivity.
Defined.

Lemma registered_face_reaches_gallery_witness :
  exists who emb i r,
    _normalize_details (Positional (Some "John Doe")) None None None = Ok who
    /\ npy_files john_registered !! embedding_path (p_name who)
       = Some (NpyArray emb)
    /\ fst (fst (Adapter._load_db_bundle false
                   (Adapter._invalidate_db_cache
                      (Some (Fixtures.bundle_of Fixtures.gallery_alice)))
                   (npy_files john_registered)
                   (criminal_data john_registered))) !! i = Some r
    /\ name r = p_name who
    /\ snd (fst (Adapter._load_db_bundle false
                   (Adapter._invalidate_db_cache
                      (Some (Fixtures.bundle_of Fixtures.gallery_alice)))
                   (npy_files john_registered)
                   (criminal_data john_registered))) !! i = Some emb.
Proof.
  apply (registered_face_reaches_gallery no_mask embed_by_corner picture
           face_left (Positional (Some "John Doe")) None None None
           empty_store john_registered
           (Some (Fixtures.bundle_of Fixtures.gallery_alice))
           [ {| name := "John Doe"; age := None; gender := None;
                crime := None; image := Some (image_path "John Doe");
                embedding := Some Fixtures.unit_x |} ]).
  - apply List.NoDup_nil.
  - reflexivity.
  - vm_compute. reflexivity.
Defined.

End RegistryWitnesses.

(** ** The fallback embedding *)

Lemma dot_zeros (pixels : vec) :
  Forall (fun p => p = F32.zero) pixels ->
  Np.dot pixels pixels = F32.zero.
Proof.
  unfold Np.dot. intros Hall.
  induction Hall as [|p rest -> _ IH]; [reflexivity|].
  cbn [combine fold_left fst snd].
  change (F32.add F32.zero (F32.mul F32.zero F32.zero)) with F32.zero.
  exact IH.
Qed.

Lemma div_zeros (pixels : vec) (s : spec_float) :
  Forall (fun p => p = F32.zero) pixels ->
  F32.div F32.zero s = F32.zero ->
  Np.div_scalar pixels s = pixels.
Proof.
  intros Hall Hs. unfold Np.div_scalar.
  induction Hall as [|p rest -> _ IH]; [reflexivity|].
  cbn [List.map]. now rewrite Hs, IH.
Qed.

Lemma array_f32_zeros (pixels : vec) :
  Forall (fun p => p = F32.zero) pixels ->
  Np.array_f32 pixels = pixels.
Proof.
  intros Hall. unfold Np.array_f32.
  induction Hall as [|p rest -> _ IH]; [reflexivity|].
  cbn [List.map]. now rewrite IH.
Qed.

(** X28. Without FaceNet, or when the network raises, an all-black crop
    embeds to the zero vector: the [1e-10] added to the norm keeps the
    division from producing NaN. The matcher then answers
    [(None, 0.0)] for it whatever the gallery and the threshold, without
    computing a similarity. *)
Theorem black_crop_never_matches use_facenet network_output
    (pixels : vec) known threshold :
  Forall (fun p => p = F32.zero) pixels ->
  use_facenet = false \/ network_output = None ->
  Loader.get_face_embedding use_facenet network_output pixels = pixels
  /\ Detector.match_embedding
       (Some (Loader.get_face_embedding use_facenet network_output pixels))
       known threshold
     = Py.ret (None, F32.zero).
Proof.
  intros Hall Hfallback.
  assert (Loader.get_face_embedding use_facenet network_output pixels
          = pixels) as Hemb.
  { assert (Loader.get_face_embedding use_facenet network_output pixels
            = Loader.fallback_embedding pixels) as ->.
    { destruct Hfallback as [-> | ->]; [reflexivity|].
      now destruct use_facenet. }
    unfold Loader.fallback_embedding, Np.norm.
    rewrite (dot_zeros pixels Hall).
    apply div_zeros; [exact Hall|]. vm_compute. reflexivity. }
  split; [exact Hemb|]. rewrite Hemb.
  unfold Detector.match_embedding.
  destruct known as [|ref rest]; [reflexivity|].
  rewrite (array_f32_zeros pixels Hall). unfold Np.norm.
  rewrite (dot_zeros pixels Hall). reflexivity.
Qed.

Lemma black_crop_never_matches_witness :
  Loader.get_face_embedding false None [F32.zero; F32.zero; F32.zero]
  = [F32.zero; F32.zero; F32.zero]
  /\ Detector.match_embedding
       (Some (Loader.get_face_embedding false None
                [F32.zero; F32.zero; F32.zero]))
       [Fixtures.unit_x] Adapter.threshold_0_55
     = Py.ret (None, F32.zero).
Proof.
  apply (black_crop_never_matches false None [F32.zero; F32.zero; F32.zero]
           [Fixtures.unit_x] Adapter.threshold_0_55).
  - repeat constructor.
  - now left.
Defined.
